(** * agent-teamchat: message cache, task board, cycle limiter, session routing

  A shallow embedding of the stateful core of the plugin
  (src/message-cache.js, src/task-board.js, src/state.js, src/runtime.js,
  src/utils.js) together with the properties of its specification.

  Modelling conventions
  - A JavaScript string is modelled by the [string] of its UTF-8 bytes;
    [Js.length] counts its UTF-16 code units, as [.length] does; [trim]
    strips the six ASCII white-space characters and [toLowerCase] folds
    A-Z.
  - Timestamps and counters are integers ([Z]); a value that [Number(..)]
    turns into NaN, or that is absent, is [None].
  - A value that is not a string where the code calls [asString] is [None].
  - The [Map]s of the state are [gmap]s.  A plain object used as a
    dictionary is the [gmap] of its own properties, which is what
    [JSON.stringify], [Object.values] and [Object.entries] see; assignments
    to it, and tests of what a key reads, go through [JsObj], which accounts
    for the members inherited from [Object.prototype].  [Object.prototype]
    itself is taken to be as the engine provides it when a call starts.
  - The disk is an explicit store threaded through every operation; what
    the environment decides during one call (the clock, whether the lock
    marker could be created, whether a write went through, the random
    suffix) is an explicit [IO] argument.  Creating a directory
    ([mkdirSync] with [recursive: true]) is taken to succeed. *)

From Stdlib Require Import ZArith String Ascii List Lia Bool DecimalString.
From stdpp Require Import gmap strings list fin_maps sorting.

Local Open Scope Z_scope.
Local Open Scope string_scope.

(** ** JavaScript string primitives *)

Module Js.

(** [String.prototype.startsWith] *)
Fixpoint startsWith (s p : string) {struct p} : bool :=
  match p with
  | EmptyString => true
  | String c p' =>
      match s with
      | EmptyString => false
      | String d s' => if Ascii.eqb c d then startsWith s' p' else false
      end
  end.

(** [String.prototype.includes] *)
Fixpoint includes (s sub : string) : bool :=
  startsWith s sub ||
  match s with
  | EmptyString => false
  | String _ s' => includes s' sub
  end.

Definition is_space (c : ascii) : bool := Ascii.is_space c.

Fixpoint trimStart (s : string) : string :=
  match s with
  | EmptyString => EmptyString
  | String c s' => if is_space c then trimStart s' else s
  end.

Fixpoint trimEnd (s : string) : string :=
  match s with
  | EmptyString => EmptyString
  | String c s' =>
      match trimEnd s' with
      | EmptyString => if is_space c then EmptyString else String c EmptyString
      | t => String c t
      end
  end.

(** [String.prototype.trim] *)
Definition trim (s : string) : string := trimEnd (trimStart s).

Definition lower_ascii (c : ascii) : ascii :=
  let n := N_of_ascii c in
  if ((65 <=? n) && (n <=? 90))%N then ascii_of_N (n + 32) else c.

(** [String.prototype.toLowerCase] *)
Fixpoint toLowerCase (s : string) : string :=
  match s with
  | EmptyString => EmptyString
  | String c s' => String (lower_ascii c) (toLowerCase s')
  end.

(** Truthiness of a string: the empty string is falsy. *)
Definition truthy (s : string) : bool :=
  match s with EmptyString => false | _ => true end.

(** [a || b] on strings. *)
Definition or_else (a b : string) : string := if truthy a then a else b.

(** [Number(v) || d]: NaN and 0 are falsy. *)
Definition num_or (v : option Z) (d : Z) : Z :=
  match v with
  | Some z => if Z.eqb z 0 then d else z
  | None => d
  end.

(** [arr.slice(-n)] for a positive [n]. *)
Definition slice_last {A} (n : nat) (l : list A) : list A :=
  drop (length l - n)%nat l.

(** [arr.findIndex(p)], [None] standing for -1. *)
Fixpoint findIndex {A} (p : A -> bool) (l : list A) : option nat :=
  match l with
  | [] => None
  | x :: l' => if p x then Some O else option_map S (findIndex p l')
  end.

(** The UTF-16 code units a byte of UTF-8 text stands for: none for a
    continuation byte (10xxxxxx), two for the first byte of a four-byte
    sequence (11110xxx, a code point beyond U+FFFF), one for any other. *)
Definition units (c : ascii) : nat :=
  let n := N_of_ascii c in
  if ((128 <=? n) && (n <? 192))%N then 0%nat
  else if (240 <=? n)%N then 2%nat
  else 1%nat.

(** [s.length] *)
Fixpoint length (s : string) : nat :=
  match s with
  | EmptyString => 0%nat
  | String c s' => (units c + length s')%nat
  end.

End Js.

(** ** Plain objects used as dictionaries *)

Module JsObj.

(** The property names of [Object.prototype]. *)
Definition protoKeys : list string :=
  [ "__proto__"; "constructor"; "hasOwnProperty"; "isPrototypeOf";
    "propertyIsEnumerable"; "toLocaleString"; "toString"; "valueOf";
    "__defineGetter__"; "__defineSetter__"; "__lookupGetter__"; "__lookupSetter__" ].

(** [obj[key] = value] for an object [value], on a plain object with the own
    properties [obj].  The name [__proto__], unless it is an own property
    already (as [JSON.parse] creates it), is the accessor of
    [Object.prototype]: the assignment replaces the prototype of the object
    and creates no own property. *)
Definition assign {V : Type} (obj : gmap string V) (key : string) (value : V)
  : gmap string V :=
  match obj !! key with
  | Some _ => <[key := value]> obj
  | None => if String.eqb key "__proto__" then obj else <[key := value]> obj
  end.

End JsObj.

(** utils.js: [asString] *)
Definition asString (v : option string) : string :=
  match v with
  | Some s => Js.trim s
  | None => EmptyString
  end.

(** The last character of a non-empty string is not white space. *)
Fixpoint ends_solid (m : string) : bool :=
  match m with
  | EmptyString => false
  | String c EmptyString => negb (Js.is_space c)
  | String _ m' => ends_solid m'
  end.

(** The first character of a non-empty string is not white space. *)
Definition starts_solid (m : string) : bool :=
  match m with
  | EmptyString => false
  | String c _ => negb (Js.is_space c)
  end.

(** ** Identity and routing resolver (runtime.js) *)

Module Routing.

(** The part of a normalised room the resolver reads. *)
Record Room := {
  room_id : string;
  room_channel : string;
  (** [room.resolveAccountForAgent] *)
  resolveAccountForAgent : string -> string
}.

(** The request handed to the host's routing collaborator. *)
Record RouteQuery := {
  q_channel : string;
  q_accountId : option string;
  q_peer_kind : string;
  q_peer_id : string
}.

(** What the collaborator answers; [None] for a [sessionKey] that is
    missing or not a string. *)
Record Route := { route_sessionKey : option string }.

Record SessionTarget := {
  accountId : string;
  sessionKey : string
}.

Definition isSafeTeamroomSessionKey
    (sessionKey : option string) (room : Room) (targetAgent : string) : bool :=
  let key := Js.toLowerCase (asString sessionKey) in
  if negb (Js.truthy key) then false else
  let roomId := Js.toLowerCase (asString (Some (room_id room))) in
  if negb (Js.truthy roomId) then false else
  if negb (Js.includes key ":group:") then false else
  if negb (Js.includes key roomId) then false else
  if Js.startsWith key "agent:" then
    let expectedPrefix :=
      "agent:" +:+ Js.toLowerCase (asString (Some targetAgent)) +:+ ":" in
    if negb (Js.startsWith key expectedPrefix) then false else true
  else true.

Section Resolver.

(** [api.runtime.channel.routing.resolveAgentRoute]; [None] when it
    answers [null] or [undefined]. *)
Variable resolveAgentRoute : RouteQuery -> option Route.

(** [asString(route?.sessionKey)] for the route of [agentId] in [room]. *)
Definition candidateSessionKey (room : Room) (agentId : string) : string :=
  let accountId := resolveAccountForAgent room agentId in
  let route := resolveAgentRoute
    {| q_channel := room_channel room;
       q_accountId := if Js.truthy accountId then Some accountId else None;
       q_peer_kind := "group";
       q_peer_id := room_id room |} in
  asString (route ≫= route_sessionKey).

Definition resolveAgentSessionKey (room : Room) (agentId : string) : SessionTarget :=
  let accountId := resolveAccountForAgent room agentId in
  let sessionKey := candidateSessionKey room agentId in
  if negb (isSafeTeamroomSessionKey (Some sessionKey) room agentId) then
    {| accountId := accountId; sessionKey := EmptyString |}
  else
    {| accountId := accountId; sessionKey := sessionKey |}.

End Resolver.

End Routing.


(** ** Message cache (message-cache.js) *)

Module Cache.

(** A cache entry, as [appendMessage] serialises it. *)
Record Message := {
  m_id : string;
  m_ts : Z;
  m_sender : string;
  m_senderId : string;
  m_sourceAgent : string;
  m_content : string;
  m_mentions : list string;
  m_type : string
}.

(** One line of [messages.jsonl]: either the serialisation of a record, which
    [JSON.parse] gives back, or text that [JSON.parse] rejects. *)
Inductive LogLine :=
| Parsed (m : Message)
| Garbage (raw : string).

(** The [params] of [appendMessage]; a field is [None] when it is absent or
    has the wrong type. *)
Record Draft := {
  d_id : option string;
  d_ts : option Z;
  d_sender : option string;
  d_senderId : option string;
  d_sourceAgent : option string;
  d_content : option string;
  d_mentions : option (list string);
  d_type : option string
}.

Record Watermark := {
  lastReadId : string;
  lastReadTs : Z
}.

(** The files of all rooms, keyed by the sanitised room id that names the
    room's directory, and the module-level id counter. *)
Record World := {
  logs : gmap string (list LogLine);
  watermarks : gmap string (gmap string Watermark);
  _seqCounter : Z
}.

(** What the environment decides during one call. *)
Record IO := {
  now : Z;          (* Date.now() *)
  lock_ok : bool;   (* the lock marker could be created within the retries *)
  write_ok : bool;  (* the file write inside the lock did not throw *)
  rand : string     (* Math.random().toString(36).slice(2, 6) *)
}.

(** The instance fields set by the constructor. *)
Record MessageCache := {
  maxMessages : Z;
  cleanupTtlMs : Z;
  compactThreshold : Z
}.

Record Options := {
  o_maxMessages : option Z;
  o_cleanupTtlSeconds : option Z;
  o_compactThreshold : option Z
}.

Definition constructor (options : Options) : MessageCache :=
  {| maxMessages := Js.num_or (o_maxMessages options) 500;
     cleanupTtlMs := Js.num_or (o_cleanupTtlSeconds options) 3600 * 1000;
     compactThreshold := Js.num_or (o_compactThreshold options) 200 |}.

(** [withFileLock]: [fn] runs only when the marker file could be created; it
    answers [None] when it throws, and the store is then left as it was. *)
Definition withFileLock {S : Type} (acquired : bool) (fn : S -> option S) (s : S) : bool * S :=
  if acquired then
    match fn s with
    | Some s' => (true, s')
    | None => (false, s)
    end
  else (false, s).

Definition safe_room_char (c : ascii) : bool :=
  let n := N_of_ascii c in
  (((97 <=? n) && (n <=? 122)) || ((65 <=? n) && (n <=? 90)) ||
   ((48 <=? n) && (n <=? 57)) || (n =? 95) || (n =? 45))%N.

Fixpoint replace_unsafe (ok : ascii -> bool) (s : string) : string :=
  match s with
  | EmptyString => EmptyString
  | String c s' => String (if ok c then c else "_"%char) (replace_unsafe ok s')
  end.

Definition sanitizeRoomId (roomId : string) : string :=
  Js.or_else (replace_unsafe safe_room_char (asString (Some roomId))) "unknown".

(** [String(n)] for an integer. *)
Definition string_of_Z (z : Z) : string := NilZero.string_of_int (Z.to_int z).

Fixpoint zeros (n : nat) : string :=
  match n with
  | O => EmptyString
  | S n' => String "0"%char (zeros n')
  end.

(** [s.padStart(n, "0")] *)
Definition padStart0 (n : nat) (s : string) : string :=
  zeros (n - String.length s) +:+ s.

Definition generateMessageId (io : IO) (w : World) (ts : Z) : string * World :=
  let counter := (_seqCounter w + 1) mod 100000 in
  let stamp := string_of_Z (if Z.eqb ts 0 then now io else ts) in
  let seq := padStart0 5 (string_of_Z counter) in
  ("m_" +:+ stamp +:+ "_" +:+ seq +:+ "_" +:+ rand io,
   {| logs := logs w; watermarks := watermarks w; _seqCounter := counter |}).

Definition log_of (w : World) (roomId : string) : list LogLine :=
  default [] (logs w !! sanitizeRoomId roomId).

Definition set_log (w : World) (roomId : string) (l : list LogLine) : World :=
  {| logs := <[sanitizeRoomId roomId := l]> (logs w);
     watermarks := watermarks w;
     _seqCounter := _seqCounter w |}.

Definition isInjection (rawContent : string) : bool :=
  Js.includes rawContent "[UNTRUSTED DATA" || Js.includes rawContent "<relevant-memories>".

Definition appendMessage (io : IO) (w : World) (roomId : string) (params : Draft)
  : option Message * World :=
  if negb (Js.truthy roomId) then (None, w) else
  let rawContent := Js.or_else (asString (d_content params)) EmptyString in
  if isInjection rawContent then (None, w) else
  let ts := Js.num_or (d_ts params) (now io) in
  let '(id, w1) :=
    if Js.truthy (asString (d_id params)) then (asString (d_id params), w)
    else generateMessageId io w ts in
  let record :=
    {| m_id := id;
       m_ts := ts;
       m_sender := Js.or_else (asString (d_sender params)) "unknown";
       m_senderId := Js.or_else (asString (d_senderId params)) EmptyString;
       m_sourceAgent := Js.or_else (asString (d_sourceAgent params)) EmptyString;
       m_content := Js.or_else (asString (d_content params)) EmptyString;
       m_mentions := match d_mentions params with
                     | Some l => List.filter Js.truthy l
                     | None => []
                     end;
       m_type := Js.or_else (asString (d_type params)) "message" |} in
  let '(_, w2) :=
    withFileLock (lock_ok io)
      (fun w => if write_ok io
                then Some (set_log w roomId (log_of w roomId ++ [Parsed record]))
                else None)
      w1 in
  (Some record, w2).

Definition readAllMessages (w : World) (roomId : string) : list Message :=
  omap (fun line => match line with Parsed m => Some m | Garbage _ => None end)
       (log_of w roomId).

(** The own properties of the parsed watermark file.  Where the code reads
    a field of [watermarks[agentId]], a member inherited from
    [Object.prototype] gives [undefined] as a missing entry does, since it
    has neither [lastReadId] nor [lastReadTs]; such a read is the lookup of
    the own property. *)
Definition getWatermarks (w : World) (roomId : string) : gmap string Watermark :=
  default ∅ (watermarks w !! sanitizeRoomId roomId).

(** The index from which messages count as unread. *)
Definition startIndex (allMessages : list Message) (agentWatermark : option Watermark) : nat :=
  let lastReadTs := from_option lastReadTs 0 agentWatermark in
  let lastReadId := from_option lastReadId EmptyString agentWatermark in
  let byTs :=
    match Js.findIndex (fun m => Z.gtb (m_ts m) lastReadTs) allMessages with
    | Some i => i
    | None => length allMessages
    end in
  if Js.truthy lastReadId then
    match Js.findIndex (fun m => String.eqb (m_id m) lastReadId) allMessages with
    | Some idx => S idx
    | None => if Z.gtb lastReadTs 0 then byTs else O
    end
  else if Z.gtb lastReadTs 0 then byTs
  else O.

Definition getUnreadMessages (w : World) (roomId agentId : string) : list Message :=
  if negb (Js.truthy roomId) || negb (Js.truthy agentId) then [] else
  let allMessages := readAllMessages w roomId in
  let agentWatermark := getWatermarks w roomId !! agentId in
  List.filter (fun m => negb (String.eqb (m_sourceAgent m) agentId))
              (drop (startIndex allMessages agentWatermark) allMessages).

Definition set_watermarks (w : World) (roomId : string) (wm : gmap string Watermark) : World :=
  {| logs := logs w;
     watermarks := <[sanitizeRoomId roomId := wm]> (watermarks w);
     _seqCounter := _seqCounter w |}.

(** [writeJsonAtomic] of the watermark file: the rename either happens or the
    file keeps its old content; the failure is swallowed. *)
Definition writeWatermarks (io : IO) (w : World) (roomId : string)
    (wm : gmap string Watermark) : World :=
  if write_ok io then set_watermarks w roomId wm else w.

Definition markAsRead (io : IO) (w : World) (roomId agentId : string)
    (upToMessageId : option string) (upToTs : option Z) : World :=
  if negb (Js.truthy roomId) || negb (Js.truthy agentId) then w else
  snd (withFileLock (lock_ok io)
    (fun w =>
       let watermarks := getWatermarks w roomId in
       let entry :=
         {| lastReadId :=
              Js.or_else (asString upToMessageId)
                (Js.or_else (from_option lastReadId EmptyString (watermarks !! agentId)) EmptyString);
            lastReadTs := Js.num_or upToTs (now io) |} in
       Some (writeWatermarks io w roomId (JsObj.assign watermarks agentId entry)))
    w).

Definition markAllAsRead (io : IO) (w : World) (roomId agentId : string) : World :=
  match last (readAllMessages w roomId) with
  | None => w
  | Some m => markAsRead io w roomId agentId (Some (m_id m)) (Some (m_ts m))
  end.

(** The loop of [cleanup] over the member agents; [None] is [Infinity]. *)
Fixpoint minReadTsLoop (watermarks : gmap string Watermark) (memberAgents : list string)
    (minReadTs : option Z) : option Z :=
  match memberAgents with
  | [] => minReadTs
  | agentId :: rest =>
      match watermarks !! agentId with
      | None => Some 0
      | Some wm =>
          if Z.eqb (lastReadTs wm) 0 then Some 0
          else
            minReadTsLoop watermarks rest
              (match minReadTs with
               | None => Some (lastReadTs wm)
               | Some m => if Z.ltb (lastReadTs wm) m then Some (lastReadTs wm) else Some m
               end)
      end
  end.

Definition cleanup (self : MessageCache) (io : IO) (w : World) (roomId : string)
    (memberAgents : list string) : World :=
  if negb (Js.truthy roomId) || Nat.eqb (length memberAgents) 0 then w else
  let allMessages := readAllMessages w roomId in
  if Z.ltb (Z.of_nat (length allMessages)) (compactThreshold self) then w else
  let watermarks := getWatermarks w roomId in
  match minReadTsLoop watermarks memberAgents None with
  | None => w
  | Some minReadTs =>
      if Z.eqb minReadTs 0 then w else
      let cutoff := now io - cleanupTtlMs self in
      let keepThreshold := Z.max minReadTs cutoff in
      let kept := List.filter (fun m => Z.gtb (m_ts m) keepThreshold) allMessages in
      if Nat.eqb (length kept) (length allMessages) then w else
      snd (withFileLock (lock_ok io)
        (fun w => if write_ok io then Some (set_log w roomId (Parsed <$> kept)) else None)
        w)
  end.

End Cache.

(** ** Task board (task-board.js) *)

Module Board.

Record SlotEntry := {
  se_status : string;
  se_note : string;
  se_at : Z
}.

Record GlobalEntry := {
  ge_actor : string;
  ge_status : string;
  ge_note : string;
  ge_at : Z
}.

Record Slot := {
  s_status : string;
  s_rounds : Z;
  s_lastNote : string;
  s_lastAt : Z;
  s_history : list SlotEntry
}.

(** A task in the slots format. *)
Record Task := {
  t_taskId : string;
  t_summary : string;
  t_status : string;
  t_createdBy : string;
  t_createdAt : Z;
  t_updatedAt : Z;
  t_closedAt : Z;
  t_slots : gmap string Slot;
  t_globalHistory : list GlobalEntry
}.

(** A history item of a record written before slots existed; a missing
    string is empty and a missing number is [0]. *)
Record LegacyEntry := {
  le_actor : string;
  le_status : option string;
  le_note : option string;
  le_at : Z
}.

(** A record without [slots]. *)
Record LegacyTask := {
  lt_taskId : string;
  lt_summary : string;
  lt_status : option string;
  lt_assignee : string;
  lt_owner : string;
  lt_rounds : option (list Z);
  lt_lastNote : string;
  lt_createdBy : string;
  lt_createdAt : Z;
  lt_updatedAt : Z;
  lt_closedAt : Z;
  lt_history : list LegacyEntry
}.

(** The content of a file of the active directory. *)
Inductive StoredTask :=
| V3 (task : Task)
| Legacy (task : LegacyTask).

(** board.json: taskId -> (status, summary). *)
Record BoardFile := {
  b_tasks : gmap string (string * string);
  b_updatedAt : Z
}.

(** The task directory of one room: the active files by file name (without
    the extension), the history files by close time and file name, and the
    board index when the file exists. *)
Record RoomTasks := {
  active : gmap string StoredTask;
  history : gmap (Z * string) Task;
  board : option BoardFile
}.

(** The task directories of all rooms, by sanitised room id. *)
Abbreviation World := (gmap string RoomTasks).

(** What the environment decides during one call. *)
Record IO := {
  now : Z;                 (* Date.now() *)
  lock_ok : bool;          (* the lock marker could be created *)
  write_task_ok : bool;    (* writeJsonAtomic of the active file *)
  write_history_ok : bool; (* writeJsonAtomic of the history file *)
  remove_ok : bool;        (* rmSync of the active file *)
  write_board_ok : bool    (* writeJsonAtomic of board.json *)
}.

Record TaskBoard := {
  maxActiveTasks : Z;
  roundTracking : bool
}.

Record Options := {
  o_maxActiveTasks : option Z;
  o_roundTracking : option bool
}.

Definition constructor (options : Options) : TaskBoard :=
  {| maxActiveTasks := Js.num_or (o_maxActiveTasks options) 10;
     roundTracking := negb (bool_decide (o_roundTracking options = Some false)) |}.

Definition withFileLock {S : Type} (acquired : bool) (fn : S -> option S) (s : S) : bool * S :=
  if acquired then
    match fn s with
    | Some s' => (true, s')
    | None => (false, s)
    end
  else (false, s).

Definition safe_task_char (c : ascii) : bool :=
  let n := N_of_ascii c in
  (((97 <=? n) && (n <=? 122)) || ((65 <=? n) && (n <=? 90)) ||
   ((48 <=? n) && (n <=? 57)) || (n =? 46) || (n =? 95) || (n =? 45))%N.

Definition sanitizeRoomId (roomId : string) : string :=
  Js.or_else (Cache.replace_unsafe Cache.safe_room_char (asString (Some roomId))) "unknown".

Definition sanitizeTaskId (taskId : string) : string :=
  Js.or_else (Cache.replace_unsafe safe_task_char (asString (Some taskId))) "task".

Definition isTerminal (status : string) : bool :=
  let s := Js.toLowerCase (asString (Some status)) in
  String.eqb s "done" || String.eqb s "review_ok".

(** [Object.values(slots)] mapped to the normalised statuses. *)
Definition slotStatuses (slots : gmap string Slot) : list string :=
  (fun s => Js.toLowerCase (asString (Some (s_status s)))) <$> (map_to_list slots).*2.

Definition deriveTaskStatus (slots : gmap string Slot) : string :=
  let statuses := slotStatuses slots in
  if Nat.eqb (length statuses) 0 then "create"
  else if forallb (fun s => String.eqb s "done" || String.eqb s "review_ok") statuses then "done"
  else if existsb (fun s => String.eqb s "blocked") statuses then "blocked"
  else if existsb (fun s => String.eqb s "in_progress") statuses then "in_progress"
  else "ack".

(** [a || b] on numbers. *)
Definition zor (a b : Z) : Z := if Z.eqb a 0 then b else a.

(** [asString(task.assignee || task.owner)] *)
Definition legacyAssignee (task : LegacyTask) : string :=
  asString (Some (Js.or_else (lt_assignee task) (lt_owner task))).

(** The slot [migrateLegacyTask] builds for the assignee. *)
Definition legacySlot (io : IO) (task : LegacyTask) : Slot :=
  {| s_status := Js.or_else (asString (lt_status task)) "ack";
     s_rounds := zor (from_option (fun r => Z.of_nat (length r)) 0 (lt_rounds task)) 1;
     s_lastNote := asString (Some (Js.or_else (lt_lastNote task) EmptyString));
     s_lastAt := zor (lt_updatedAt task) (zor (lt_createdAt task) (now io));
     s_history :=
       (fun h => {| se_status := asString (le_status h);
                    se_note := asString (le_note h);
                    se_at := zor (le_at h) (lt_updatedAt task) |})
         <$> lt_history task |}.

(** [t_slots] are the own properties of the [slots] object. *)
Definition migrateLegacyTask (io : IO) (stored : StoredTask) : Task :=
  match stored with
  | V3 task => task
  | Legacy task =>
      let assignee := legacyAssignee task in
      {| t_taskId := lt_taskId task;
         t_summary := lt_summary task;
         t_status := from_option (fun s => s) EmptyString (lt_status task);
         t_createdBy := lt_createdBy task;
         t_createdAt := lt_createdAt task;
         t_updatedAt := lt_updatedAt task;
         t_closedAt := lt_closedAt task;
         t_slots :=
           if Js.truthy assignee then JsObj.assign ∅ assignee (legacySlot io task) else ∅;
         t_globalHistory :=
           (fun h => {| ge_actor :=
                          asString (Some (Js.or_else (le_actor h) (Js.or_else assignee "unknown")));
                        ge_status := asString (le_status h);
                        ge_note := asString (le_note h);
                        ge_at := zor (le_at h) (lt_updatedAt task) |})
             <$> lt_history task |}
  end.

(** The record the [slots] object of [migrateLegacyTask]'s result inherits
    from, besides [Object.prototype]: the slot assigned to
    [slots["__proto__"]], when the assignee has that name. *)
Definition slotsPrototype (io : IO) (stored : StoredTask) : option Slot :=
  match stored with
  | V3 _ => None
  | Legacy task =>
      if String.eqb (legacyAssignee task) "__proto__" then Some (legacySlot io task) else None
  end.

Definition emptyRoom : RoomTasks :=
  {| active := ∅; history := ∅; board := None |}.

Definition roomTasks (w : World) (roomId : string) : RoomTasks :=
  default emptyRoom (w !! sanitizeRoomId roomId).

Definition getBoard (w : World) (roomId : string) : BoardFile :=
  default {| b_tasks := ∅; b_updatedAt := 0 |} (board (roomTasks w roomId)).

Definition _saveBoard (io : IO) (w : World) (roomId : string) (b : BoardFile) : World :=
  if write_board_ok io then
    let r := roomTasks w roomId in
    <[sanitizeRoomId roomId :=
        {| active := active r; history := history r;
           board := Some {| b_tasks := b_tasks b; b_updatedAt := now io |} |}]> w
  else w.

Definition getTask (io : IO) (w : World) (roomId taskId : string) : option Task :=
  migrateLegacyTask io <$> (active (roomTasks w roomId) !! sanitizeTaskId taskId).

(** The record the [slots] of the task [getTask] returns inherit from. *)
Definition getSlotsPrototype (io : IO) (w : World) (roomId taskId : string) : option Slot :=
  match active (roomTasks w roomId) !! sanitizeTaskId taskId with
  | Some stored => slotsPrototype io stored
  | None => None
  end.

Definition storedTaskId (stored : StoredTask) : string :=
  match stored with
  | V3 task => t_taskId task
  | Legacy task => lt_taskId task
  end.

Definition createdAt_le (a b : Task) : Prop := t_createdAt a <= t_createdAt b.

#[global] Instance createdAt_le_dec : RelDecision createdAt_le.
Proof. intros a b. unfold createdAt_le. apply Z_le_dec. Defined.

Definition listActiveTasks (io : IO) (w : World) (roomId : string) : list Task :=
  let files := (map_to_list (active (roomTasks w roomId))).*2 in
  let tasks :=
    migrateLegacyTask io <$> List.filter (fun raw => Js.truthy (storedTaskId raw)) files in
  merge_sort createdAt_le tasks.

(** What [createTask] and [updateTask] answer. *)
Inductive Result :=
| Invalid
| LockFailed
| MaxActiveReached (count : nat)
| AlreadyExists (task : Task)
| NotFound (taskId : string)
| Created (task : Task)
| Updated (closed : bool) (task : Task).

Definition ok (r : Result) : bool :=
  match r with
  | Created _ | Updated _ _ => true
  | _ => false
  end.

Definition reason (r : Result) : string :=
  match r with
  | Invalid => "invalid"
  | LockFailed => "lock_failed"
  | MaxActiveReached _ => "max_active_reached"
  | AlreadyExists _ => "already_exists"
  | NotFound _ => "not_found"
  | Created _ | Updated _ _ => EmptyString
  end.

Record CreateParams := {
  cp_taskId : option string;
  cp_summary : option string;
  cp_createdBy : option string;
  cp_note : option string;
  cp_status : option string
}.

Record UpdateParams := {
  up_taskId : option string;
  up_status : option string;
  up_actor : option string;
  up_note : option string
}.

Definition writeActive (io : IO) (w : World) (roomId taskId : string) (task : Task) : World :=
  if write_task_ok io then
    let r := roomTasks w roomId in
    <[sanitizeRoomId roomId :=
        {| active := <[sanitizeTaskId taskId := V3 task]> (active r);
           history := history r; board := board r |}]> w
  else w.

Definition writeHistory (io : IO) (w : World) (roomId taskId : string) (task : Task) : World :=
  if write_history_ok io then
    let r := roomTasks w roomId in
    <[sanitizeRoomId roomId :=
        {| active := active r;
           history := <[(zor (now io) (now io), sanitizeTaskId taskId) := task]> (history r);
           board := board r |}]> w
  else w.

Definition removeActive (io : IO) (w : World) (roomId taskId : string) : World :=
  if remove_ok io then
    let r := roomTasks w roomId in
    <[sanitizeRoomId roomId :=
        {| active := delete (sanitizeTaskId taskId) (active r);
           history := history r; board := board r |}]> w
  else w.

Definition createTask (self : TaskBoard) (io : IO) (w : World) (roomId : string)
    (params : CreateParams) : Result * World :=
  let taskId := asString (cp_taskId params) in
  if negb (Js.truthy roomId) || negb (Js.truthy taskId) then (Invalid, w) else
  let '(_, (w', result)) :=
    withFileLock (lock_ok io)
      (fun '(w, _) =>
         let activeTasks := listActiveTasks io w roomId in
         if Z.geb (Z.of_nat (length activeTasks)) (maxActiveTasks self) then
           Some (w, Some (MaxActiveReached (length activeTasks)))
         else
           match getTask io w roomId taskId with
           | Some existing => Some (w, Some (AlreadyExists existing))
           | None =>
               let actor := Js.or_else (asString (cp_createdBy params)) "unknown" in
               let initialStatus := Js.or_else (asString (cp_status params)) "create" in
               let task :=
                 {| t_taskId := taskId;
                    t_summary := Js.or_else (asString (cp_summary params)) EmptyString;
                    t_status := initialStatus;
                    t_createdBy := actor;
                    t_createdAt := now io;
                    t_updatedAt := now io;
                    t_closedAt := 0;
                    t_slots := ∅;
                    t_globalHistory :=
                      [ {| ge_actor := actor; ge_status := initialStatus;
                           ge_note := Js.or_else (asString (cp_note params)) EmptyString;
                           ge_at := now io |} ] |} in
               let w1 := writeActive io w roomId taskId task in
               let b := getBoard w1 roomId in
               let w2 := _saveBoard io w1 roomId
                 {| b_tasks := JsObj.assign (b_tasks b) taskId (t_status task, t_summary task);
                    b_updatedAt := b_updatedAt b |} in
               Some (w2, Some (Created task))
           end)
      (w, None) in
  (default LockFailed result, w').

(** The actor's slot after a signal. *)
Definition updateSlot (prev : option Slot) (status note : string) (now : Z) : Slot :=
  let s :=
    match prev with
    | None =>
        {| s_status := status; s_rounds := 1; s_lastNote := note; s_lastAt := now;
           s_history := [] |}
    | Some s =>
        {| s_status := status; s_rounds := s_rounds s + 1; s_lastNote := note;
           s_lastAt := now; s_history := s_history s |}
    end in
  {| s_status := s_status s; s_rounds := s_rounds s; s_lastNote := s_lastNote s;
     s_lastAt := s_lastAt s;
     s_history := (Js.slice_last 19 (s_history s)
                    ++ [ {| se_status := status; se_note := note; se_at := now |} ])%list |}.

(** What [slots[actor]] gives in [updateTask]. *)
Inductive SlotRead :=
| OwnSlot (slot : Slot)                (* an own property *)
| InheritedObject                      (* an object or function of the prototype chain *)
| InheritedPrimitive (truthy : bool)   (* a string or number of the prototype chain *)
| NoSlot.                              (* undefined *)

(** [slots[actor]] for the own properties [slots] of an object that
    inherits from the record [inherited], if any, and from
    [Object.prototype]. *)
Definition readSlot (inherited : option Slot) (slots : gmap string Slot) (actor : string)
  : SlotRead :=
  match slots !! actor with
  | Some slot => OwnSlot slot
  | None =>
      match inherited with
      | Some r =>
          if String.eqb actor "status" then InheritedPrimitive (Js.truthy (s_status r))
          else if String.eqb actor "rounds" then InheritedPrimitive (negb (Z.eqb (s_rounds r) 0))
          else if String.eqb actor "lastNote" then InheritedPrimitive (Js.truthy (s_lastNote r))
          else if String.eqb actor "lastAt" then InheritedPrimitive (negb (Z.eqb (s_lastAt r) 0))
          else if String.eqb actor "history" then InheritedObject
          else if bool_decide (actor ∈ JsObj.protoKeys) then InheritedObject
          else NoSlot
      | None => if bool_decide (actor ∈ JsObj.protoKeys) then InheritedObject else NoSlot
      end
  end.

(** The lines of [updateTask] from [if (!slots[actor])] to the [push]: the
    own properties of [slots] after them, [None] when they throw.
    - [slots[actor]] is undefined or falsy: a slot is assigned under the
      name, which is not [__proto__] (that name always reads an object), so
      an own property is created;
    - it is an own slot: the slot is updated;
    - it is an inherited object or function: the fields are set on that
      object and [slots] keeps its own properties (for the actor
      [__proto__] the object is the prototype itself, that is
      [Object.prototype] unless the task was migrated with that assignee);
    - it is an inherited truthy string or number: setting [rounds] on it
      throws a TypeError, the module being strict code. *)
Definition updateSlots (inherited : option Slot) (slots : gmap string Slot)
    (actor status note : string) (now : Z) : option (gmap string Slot) :=
  match readSlot inherited slots actor with
  | OwnSlot slot => Some (<[actor := updateSlot (Some slot) status note now]> slots)
  | NoSlot | InheritedPrimitive false =>
      Some (<[actor := updateSlot None status note now]> slots)
  | InheritedObject => Some slots
  | InheritedPrimitive true => None
  end.

Definition updateTask (self : TaskBoard) (io : IO) (w : World) (roomId : string)
    (params : UpdateParams) : Result * World :=
  let taskId := asString (up_taskId params) in
  let status := Js.toLowerCase (asString (up_status params)) in
  let actor := Js.or_else (asString (up_actor params)) "unknown" in
  if negb (Js.truthy roomId) || negb (Js.truthy taskId) || negb (Js.truthy status)
  then (Invalid, w) else
  let '(_, (w', result)) :=
    withFileLock (lock_ok io)
      (fun '(w, _) =>
         match getTask io w roomId taskId with
         | None => Some (w, Some (NotFound taskId))
         | Some task =>
             let note := Js.or_else (asString (up_note params)) EmptyString in
             match updateSlots (getSlotsPrototype io w roomId taskId) (t_slots task)
                     actor status note (now io) with
             | None => None
             | Some slots =>
                 let globalHistory :=
                   (Js.slice_last 99 (t_globalHistory task)
                     ++ [ {| ge_actor := actor; ge_status := status; ge_note := note;
                             ge_at := now io |} ])%list in
                 let derivedStatus := deriveTaskStatus slots in
                 let next closedAt :=
                   {| t_taskId := t_taskId task;
                      t_summary := t_summary task;
                      t_status := derivedStatus;
                      t_createdBy := t_createdBy task;
                      t_createdAt := t_createdAt task;
                      t_updatedAt := now io;
                      t_closedAt := closedAt;
                      t_slots := slots;
                      t_globalHistory := globalHistory |} in
                 if isTerminal derivedStatus then
                   let w1 := writeHistory io w roomId taskId (next (now io)) in
                   let w2 := removeActive io w1 roomId taskId in
                   let b := getBoard w2 roomId in
                   let w3 := _saveBoard io w2 roomId
                     {| b_tasks := delete taskId (b_tasks b); b_updatedAt := b_updatedAt b |} in
                   Some (w3, Some (Updated true (next (now io))))
                 else
                   let nxt := next (t_closedAt task) in
                   let w1 := writeActive io w roomId taskId nxt in
                   let b := getBoard w1 roomId in
                   let w2 := _saveBoard io w1 roomId
                     {| b_tasks :=
                          JsObj.assign (b_tasks b) taskId (t_status nxt, t_summary nxt);
                        b_updatedAt := b_updatedAt b |} in
                   Some (w2, Some (Updated false nxt))
             end
         end)
      (w, None) in
  (default LockFailed result, w').

End Board.

(** ** Cycle limiter (state.js) *)

Module State.

Record Cycle := {
  turnsUsed : Z;
  dispatchCount : Z;
  maxTurns : Z;
  maxDispatch : Z;
  ttlMs : Z;
  createdAt : Z;
  lastInboundAt : Z;
  lastActivityAt : Z
}.

(** The fields of a normalised room configuration the limiter reads. *)
Record RoomConfig := {
  cycleTtlSeconds : Z;
  maxTurnsPerCycle : Z;
  (** [roomConfig.autopilot.maxDispatchPerCycle], [None] for [null] *)
  maxDispatchPerCycle : option Z
}.

(** One entry of cycles.json. *)
Record SavedCycle := {
  sv_turnsUsed : Z;
  sv_dispatchCount : Z;
  sv_createdAt : Z;
  sv_lastInboundAt : Z;
  sv_lastActivityAt : Z
}.

(** The [cycles] map of a [TeamChatState] instance, its [persistence] flag,
    and the content of cycles.json. *)
Record TeamChatState := {
  persistence : bool;
  cycles : gmap string Cycle;
  cyclesFile : gmap string SavedCycle
}.

(** What the environment decides during one call. *)
Record IO := {
  lock_ok : bool;
  write_ok : bool
}.

Definition loadPersistedCycles (saved : gmap string SavedCycle) : gmap string Cycle :=
  (fun data =>
     {| turnsUsed := sv_turnsUsed data;
        dispatchCount := sv_dispatchCount data;
        maxTurns := 0;
        maxDispatch := 0;
        ttlMs := 0;
        createdAt := sv_createdAt data;
        lastInboundAt := sv_lastInboundAt data;
        lastActivityAt := sv_lastActivityAt data |}) <$> saved.

Definition constructor (persistence : bool) (file : gmap string SavedCycle) : TeamChatState :=
  {| persistence := persistence;
     cycles := if persistence then loadPersistedCycles file else ∅;
     cyclesFile := file |}.

(** The entry [persistCycles] writes for a cycle. *)
Definition savedCycle (cycle : Cycle) : SavedCycle :=
  {| sv_turnsUsed := turnsUsed cycle;
     sv_dispatchCount := dispatchCount cycle;
     sv_createdAt := createdAt cycle;
     sv_lastInboundAt := lastInboundAt cycle;
     sv_lastActivityAt := lastActivityAt cycle |}.

(** The loop of [persistCycles] that fills the plain object [data] from the
    entries of the map. *)
Definition cyclesData (entries : list (string * Cycle)) : gmap string SavedCycle :=
  foldl (fun data entry => JsObj.assign data (fst entry) (savedCycle (snd entry))) ∅ entries.

Definition persistCycles (io : IO) (st : TeamChatState) : TeamChatState :=
  if negb (persistence st) then st else
  if lock_ok io && write_ok io then
    {| persistence := persistence st;
       cycles := cycles st;
       cyclesFile := cyclesData (map_to_list (cycles st)) |}
  else st.

Definition set_cycle (st : TeamChatState) (roomId : string) (c : Cycle) : TeamChatState :=
  {| persistence := persistence st;
     cycles := <[roomId := c]> (cycles st);
     cyclesFile := cyclesFile st |}.

Definition getCycle (st : TeamChatState) (roomId : string) (roomConfig : RoomConfig) (now : Z)
  : Cycle * TeamChatState :=
  let ttlMs := cycleTtlSeconds roomConfig * 1000 in
  let maxTurns := maxTurnsPerCycle roomConfig in
  let maxDispatch := default maxTurns (maxDispatchPerCycle roomConfig) in
  match cycles st !! roomId with
  | Some existing =>
      if Z.gtb (now - createdAt existing) ttlMs then
        let created :=
          {| turnsUsed := 0; dispatchCount := 0; maxTurns := maxTurns;
             maxDispatch := maxDispatch; ttlMs := ttlMs; createdAt := now;
             lastInboundAt := 0; lastActivityAt := now |} in
        (created, set_cycle st roomId created)
      else
        let refreshed :=
          {| turnsUsed := turnsUsed existing; dispatchCount := dispatchCount existing;
             maxTurns := maxTurns; maxDispatch := maxDispatch; ttlMs := ttlMs;
             createdAt := createdAt existing; lastInboundAt := lastInboundAt existing;
             lastActivityAt := lastActivityAt existing |} in
        (refreshed, set_cycle st roomId refreshed)
  | None =>
      let created :=
        {| turnsUsed := 0; dispatchCount := 0; maxTurns := maxTurns;
           maxDispatch := maxDispatch; ttlMs := ttlMs; createdAt := now;
           lastInboundAt := 0; lastActivityAt := now |} in
      (created, set_cycle st roomId created)
  end.

Definition DEBOUNCE_MS : Z := 5000.

Definition registerInboundExternal (io : IO) (st : TeamChatState) (roomId : string)
    (roomConfig : RoomConfig) (now : Z) : Cycle * TeamChatState :=
  let '(cycle, st1) := getCycle st roomId roomConfig now in
  let shouldReset :=
    Z.eqb (lastInboundAt cycle) 0 || Z.geb (now - lastInboundAt cycle) DEBOUNCE_MS in
  let cycle' :=
    {| turnsUsed := if shouldReset then 0 else turnsUsed cycle;
       dispatchCount := if shouldReset then 0 else dispatchCount cycle;
       maxTurns := maxTurns cycle; maxDispatch := maxDispatch cycle; ttlMs := ttlMs cycle;
       createdAt := createdAt cycle;
       lastInboundAt := now;
       lastActivityAt := now |} in
  (cycle', persistCycles io (set_cycle st1 roomId cycle')).

Record TurnResult := {
  tr_ok : bool;
  tr_turnsUsed : Z;
  tr_maxTurns : Z
}.

Definition tryConsumeTurn (io : IO) (st : TeamChatState) (roomId : string)
    (roomConfig : RoomConfig) (now : Z) : TurnResult * TeamChatState :=
  let '(cycle, st1) := getCycle st roomId roomConfig now in
  if Z.geb (turnsUsed cycle) (maxTurns cycle) then
    ({| tr_ok := false; tr_turnsUsed := turnsUsed cycle; tr_maxTurns := maxTurns cycle |}, st1)
  else
    let cycle' :=
      {| turnsUsed := turnsUsed cycle + 1;
         dispatchCount := dispatchCount cycle;
         maxTurns := maxTurns cycle; maxDispatch := maxDispatch cycle; ttlMs := ttlMs cycle;
         createdAt := createdAt cycle;
         lastInboundAt := lastInboundAt cycle;
         lastActivityAt := now |} in
    ({| tr_ok := true; tr_turnsUsed := turnsUsed cycle'; tr_maxTurns := maxTurns cycle' |},
     persistCycles io (set_cycle st1 roomId cycle')).

Record DispatchResult := {
  dr_ok : bool;
  dr_dispatchCount : Z;
  dr_maxDispatch : Z
}.

Definition tryConsumeDispatch (io : IO) (st : TeamChatState) (roomId : string)
    (roomConfig : RoomConfig) (now : Z) : DispatchResult * TeamChatState :=
  let '(cycle, st1) := getCycle st roomId roomConfig now in
  if Z.geb (dispatchCount cycle) (maxDispatch cycle) then
    ({| dr_ok := false; dr_dispatchCount := dispatchCount cycle;
        dr_maxDispatch := maxDispatch cycle |}, st1)
  else
    let cycle' :=
      {| turnsUsed := turnsUsed cycle;
         dispatchCount := dispatchCount cycle + 1;
         maxTurns := maxTurns cycle; maxDispatch := maxDispatch cycle; ttlMs := ttlMs cycle;
         createdAt := createdAt cycle;
         lastInboundAt := lastInboundAt cycle;
         lastActivityAt := now |} in
    ({| dr_ok := true; dr_dispatchCount := dispatchCount cycle';
        dr_maxDispatch := maxDispatch cycle' |},
     persistCycles io (set_cycle st1 roomId cycle')).

Definition resetCycle (io : IO) (st : TeamChatState) (roomId : string) : TeamChatState :=
  persistCycles io
    {| persistence := persistence st;
       cycles := delete roomId (cycles st);
       cyclesFile := cyclesFile st |}.

(** The budget calls that may happen between two external messages. *)
Inductive Consume :=
| Turn (now : Z)
| Dispatch (now : Z).

Definition consumeAt (op : Consume) : Z :=
  match op with
  | Turn now => now
  | Dispatch now => now
  end.

Definition consume (io : IO) (roomId : string) (roomConfig : RoomConfig)
    (st : TeamChatState) (op : Consume) : TeamChatState :=
  match op with
  | Turn now => snd (tryConsumeTurn io st roomId roomConfig now)
  | Dispatch now => snd (tryConsumeDispatch io st roomId roomConfig now)
  end.

Definition consumeAll (io : IO) (roomId : string) (roomConfig : RoomConfig)
    (st : TeamChatState) (ops : list Consume) : TeamChatState :=
  fold_left (consume io roomId roomConfig) ops st.

End State.

(** ** Specification vocabulary and sample data *)

Section RoutingSpec.

Import Routing.

Fixpoint no_colon (s : string) : bool :=
  match s with
  | EmptyString => true
  | String c s' => negb (Ascii.eqb c ":"%char) && no_colon s'
  end.

Definition demoRoom : Room :=
  {| room_id := "oc_75bb";
     room_channel := "feishu";
     resolveAccountForAgent := fun _ => "builder-bot" |}.

Definition routeToMain (q : RouteQuery) : option Route :=
  Some {| route_sessionKey := Some "agent:main:feishu:group:oc_75bb" |}.

End RoutingSpec.

Section CacheSpec.

Import Cache.

(** The record [appendMessage] builds for a draft that passes the guards. *)
Definition recordOf (io : IO) (w : World) (params : Draft) : Message :=
  let ts := Js.num_or (d_ts params) (now io) in
  {| m_id := if Js.truthy (asString (d_id params)) then asString (d_id params)
             else fst (generateMessageId io w ts);
     m_ts := ts;
     m_sender := Js.or_else (asString (d_sender params)) "unknown";
     m_senderId := Js.or_else (asString (d_senderId params)) EmptyString;
     m_sourceAgent := Js.or_else (asString (d_sourceAgent params)) EmptyString;
     m_content := Js.or_else (asString (d_content params)) EmptyString;
     m_mentions := match d_mentions params with
                   | Some l => List.filter Js.truthy l
                   | None => []
                   end;
     m_type := Js.or_else (asString (d_type params)) "message" |}.

(** The reserved substrings [appendMessage] refuses. *)
Definition injectionMarkers : list string := ["[UNTRUSTED DATA"; "<relevant-memories>"].

(** [content] contains [marker] as a substring. *)
Definition contains (content marker : string) : Prop :=
  exists pre post, content = pre +:+ marker +:+ post.

(** The same call with another outcome of the lock and of the write. *)
Definition withOutcome (io : IO) (lock write : bool) : IO :=
  {| now := now io; lock_ok := lock; write_ok := write; rand := rand io |}.

Definition blankWorld : World := {| logs := ∅; watermarks := ∅; _seqCounter := 0 |}.

Definition ioAt (t : Z) : IO := {| now := t; lock_ok := true; write_ok := true; rand := "k3x9" |}.

Definition draft (content : string) (ts : Z) (sourceAgent : option string) : Draft :=
  {| d_id := None; d_ts := Some ts; d_sender := Some "Finley"; d_senderId := None;
     d_sourceAgent := sourceAgent; d_content := Some content; d_mentions := None;
     d_type := None |}.

Definition defaultCache : MessageCache :=
  constructor {| o_maxMessages := None; o_cleanupTtlSeconds := None;
                 o_compactThreshold := None |}.

Definition smallCache : MessageCache :=
  constructor {| o_maxMessages := None; o_cleanupTtlSeconds := None;
                 o_compactThreshold := Some 3 |}.

(** A room with three messages, of which "builder" has read the first. *)
Definition threeMessages : World :=
  let w1 := snd (appendMessage (ioAt 1000) blankWorld "R1" (draft "one" 1000 None)) in
  let w2 := snd (appendMessage (ioAt 2000) w1 "R1" (draft "two" 2000 None)) in
  let w3 := snd (appendMessage (ioAt 3000) w2 "R1" (draft "three" 3000 None)) in
  markAsRead (ioAt 3100) w3 "R1" "builder" (Some "m_1000_00001_k3x9") (Some 1000).

(** Room R1 after [n] messages with the timestamps 1 to [n]. *)
Fixpoint appendMany (n : nat) (w : World) : World :=
  match n with
  | O => w
  | S n' =>
      let w' := appendMany n' w in
      snd (appendMessage (ioAt (Z.of_nat n)) w' "R1" (draft "text" (Z.of_nat n) None))
  end.

End CacheSpec.

Section BoardSpec.

Import Board.

(** The status of a slot as [deriveTaskStatus] compares it. *)
Definition normStatus (s : Slot) : string := Js.toLowerCase (asString (Some (s_status s))).

(** Every slot is [done] or [review_ok]. *)
Definition allTerminal (slots : gmap string Slot) : Prop :=
  forall agent s, slots !! agent = Some s ->
                  normStatus s = "done" \/ normStatus s = "review_ok".

(** Some slot has the status [st]. *)
Definition someSlot (st : string) (slots : gmap string Slot) : Prop :=
  exists agent s, slots !! agent = Some s /\ normStatus s = st.

(** The precedence of the specification, first match wins: all slots
    terminal gives [done]; else any slot [blocked] gives [blocked]; else any
    slot [in_progress] gives [in_progress]; else [ack]; no slot at all gives
    [create]. *)
Inductive statusByPrecedence (slots : gmap string Slot) : string -> Prop :=
| prec_create :
    slots = ∅ -> statusByPrecedence slots "create"
| prec_done :
    slots <> ∅ -> allTerminal slots -> statusByPrecedence slots "done"
| prec_blocked :
    slots <> ∅ -> ~ allTerminal slots -> someSlot "blocked" slots ->
    statusByPrecedence slots "blocked"
| prec_in_progress :
    slots <> ∅ -> ~ allTerminal slots -> ~ someSlot "blocked" slots ->
    someSlot "in_progress" slots -> statusByPrecedence slots "in_progress"
| prec_ack :
    slots <> ∅ -> ~ allTerminal slots -> ~ someSlot "blocked" slots ->
    ~ someSlot "in_progress" slots -> statusByPrecedence slots "ack".

Definition boardIO (t : Z) : IO :=
  {| now := t; lock_ok := true; write_task_ok := true; write_history_ok := true;
     remove_ok := true; write_board_ok := true |}.

Definition defaultBoard : TaskBoard :=
  constructor {| o_maxActiveTasks := None; o_roundTracking := None |}.

Definition boardOfOne : TaskBoard :=
  constructor {| o_maxActiveTasks := Some 1; o_roundTracking := None |}.

Definition newTask (taskId summary : string) : CreateParams :=
  {| cp_taskId := Some taskId; cp_summary := Some summary; cp_createdBy := Some "main";
     cp_note := None; cp_status := None |}.

Definition signal (taskId status actor : string) : UpdateParams :=
  {| up_taskId := Some taskId; up_status := Some status; up_actor := Some actor;
     up_note := None |}.

(** Room R1 with task T-1 just created. *)
Definition withT1 : World := snd (createTask defaultBoard (boardIO 1000) ∅ "R1" (newTask "T-1" "ship")).

End BoardSpec.

Section CycleSpec.

Import State.

Definition quietIO : IO := {| lock_ok := true; write_ok := true |}.

Definition room30 : RoomConfig :=
  {| cycleTtlSeconds := 30; maxTurnsPerCycle := 3; maxDispatchPerCycle := None |}.

Definition room2turns : RoomConfig :=
  {| cycleTtlSeconds := 900; maxTurnsPerCycle := 2; maxDispatchPerCycle := None |}.

End CycleSpec.

(** ** Message cache: the remaining operations (message-cache.js) *)

Section CacheMore.

Import Cache.

(** [resetWatermarkBefore]; a [beforeTs] that is not a number makes
    [Number(beforeTs) - 1] NaN, which is written as [null] and read back as
    a missing timestamp, that is 0. *)
Definition resetWatermarkBefore (io : IO) (w : World) (roomId agentId : string)
    (beforeTs : option Z) : World :=
  if negb (Js.truthy roomId) || negb (Js.truthy agentId) then w else
  snd (withFileLock (lock_ok io)
    (fun w =>
       let watermarks := getWatermarks w roomId in
       let entry :=
         {| lastReadId := EmptyString;
            lastReadTs := match beforeTs with Some t => t - 1 | None => 0 end |} in
       Some (writeWatermarks io w roomId (JsObj.assign watermarks agentId entry)))
    w).

(** The backward scan of [hasRecentMessage], over the messages from the
    newest to the oldest. *)
Fixpoint scanRecent (cutoff : Z) (normalizedContent sourceAgent : string)
    (newestFirst : list Message) : bool :=
  match newestFirst with
  | [] => false
  | msg :: older =>
      if Z.ltb (m_ts msg) cutoff then false
      else if String.eqb (m_content msg) normalizedContent
              && (negb (Js.truthy sourceAgent)
                  || String.eqb (m_sourceAgent msg) sourceAgent)
      then true
      else scanRecent cutoff normalizedContent sourceAgent older
  end.

(** [hasRecentMessage], for a [content] that is a string. *)
Definition hasRecentMessage (io : IO) (w : World) (roomId content sourceAgent : string)
    (windowMs : option Z) : bool :=
  if negb (Js.truthy roomId) || negb (Js.truthy content) then false else
  let allMessages := readAllMessages w roomId in
  let cutoff := now io - Js.num_or windowMs 30000 in
  let normalizedContent := asString (Some content) in
  scanRecent cutoff normalizedContent sourceAgent (rev allMessages).

(** The loop of [buildContextBlock] that fills [selected] from the newest
    candidate to the oldest, stopping at the first one over the budget. *)
Fixpoint selectWithinBudget (maxChars charCount : Z) (newestFirst selected : list Message)
  : list Message :=
  match newestFirst with
  | [] => selected
  | candidate :: older =>
      let line := m_content candidate in
      if Z.gtb (charCount + Z.of_nat (Js.length line)) maxChars then selected
      else selectWithinBudget maxChars (charCount + Z.of_nat (Js.length line))
             older (candidate :: selected)
  end.

(** [options.maxMessages || 50] *)
Definition maxMessagesOr50 (maxMessages : option nat) : nat :=
  match maxMessages with
  | Some (S n) => S n
  | _ => 50%nat
  end.

(** The messages [buildContextBlock] renders and the [skipped] count of its
    header; [None] when nothing is unread and the block is the empty string.
    The rendering of the lines prints local clock times and is left out. *)
Definition contextSelection (w : World) (roomId agentId : string)
    (maxMessages : option nat) (maxChars : option Z) : option (list Message * nat) :=
  let unread := getUnreadMessages w roomId agentId in
  if Nat.eqb (length unread) 0 then None else
  let candidates := Js.slice_last (maxMessagesOr50 maxMessages) unread in
  let selected := selectWithinBudget (Js.num_or maxChars 8000) 0 (rev candidates) [] in
  Some (selected, (length unread - length selected)%nat).

(** What a list of messages takes from the budget: the [.length] of their
    contents, in UTF-16 code units. *)
Definition totalChars (l : list Message) : Z :=
  fold_right (fun m acc => Z.of_nat (Js.length (m_content m)) + acc) 0 l.

(** A log whose timestamps never decrease. *)
Fixpoint chronological (l : list Message) : Prop :=
  match l with
  | [] => True
  | m :: rest => (forall x, x ∈ rest -> m_ts m <= m_ts x) /\ chronological rest
  end.

(** The index of the first message newer than [t], or the length of the log. *)
Definition indexByTs (t : Z) (l : list Message) : nat :=
  match Js.findIndex (fun m => Z.gtb (m_ts m) t) l with
  | Some i => i
  | None => length l
  end.

(** Every character of [s] passes [ok]. *)
Fixpoint all_chars (ok : ascii -> bool) (s : string) : bool :=
  match s with
  | EmptyString => true
  | String c s' => ok c && all_chars ok s'
  end.

End CacheMore.

(** ** State: seen messages, outgoing echoes, agent rooms (state.js) *)

Section StateMore.

Import State.

(** The turn requests of a run, in order, and the state they leave. *)
Fixpoint consumeTurns (io : IO) (roomId : string) (roomConfig : RoomConfig)
    (st : TeamChatState) (times : list Z) : list TurnResult * TeamChatState :=
  match times with
  | [] => ([], st)
  | now :: later =>
      let '(r, st1) := tryConsumeTurn io st roomId roomConfig now in
      let '(rs, st2) := consumeTurns io roomId roomConfig st1 later in
      (r :: rs, st2)
  end.

(** How many of the requests were granted. *)
Definition granted (results : list TurnResult) : Z :=
  Z.of_nat (length (List.filter tr_ok results)).

(** An entry of [seenByRoom]: a set of keys and the order they came in. *)
Record SeenRoom := {
  seen_set : gset string;
  seen_order : list string
}.

(** [pruneSeen], for a size that is not negative (with a negative one the
    loop of the source does not end once [order] is empty). *)
Fixpoint pruneSeen (set : gset string) (order : list string) (maxSize : nat) : SeenRoom :=
  match order with
  | [] => {| seen_set := set; seen_order := [] |}
  | oldest :: rest =>
      if Nat.ltb maxSize (length order) then
        pruneSeen (if Js.truthy oldest then set ∖ {[ oldest ]} else set) rest maxSize
      else {| seen_set := set; seen_order := order |}
  end.

Definition hasSeenMessage (seenByRoom : gmap string SeenRoom) (roomId key : string) : bool :=
  match seenByRoom !! roomId with
  | None => false
  | Some room => bool_decide (key ∈ seen_set room)
  end.

Definition markSeenMessage (seenByRoom : gmap string SeenRoom) (roomId key : string)
    (maxSize : nat) : gmap string SeenRoom :=
  if negb (Js.truthy roomId) || negb (Js.truthy key) then seenByRoom else
  let '(room, seenByRoom1) :=
    match seenByRoom !! roomId with
    | Some room => (room, seenByRoom)
    | None =>
        let room := {| seen_set := ∅; seen_order := [] |} in
        (room, <[roomId := room]> seenByRoom)
    end in
  if bool_decide (key ∈ seen_set room) then seenByRoom1 else
  <[roomId := pruneSeen ({[ key ]} ∪ seen_set room) (seen_order room ++ [key]) maxSize]>
    seenByRoom1.

(** The keys of a room are those of its order, once each, none empty. *)
Definition seen_wf (room : SeenRoom) : Prop :=
  NoDup (seen_order room) /\
  (forall k, k ∈ seen_set room <-> k ∈ seen_order room) /\
  EmptyString ∉ seen_order room.

(** utils.js [textHash]: the rolling hash, kept to 32 bits by [>>> 0]. *)
Fixpoint hashLoop (hash : Z) (text : string) : Z :=
  match text with
  | EmptyString => hash
  | String c rest => hashLoop ((hash * 31 + Z.of_N (N_of_ascii c)) mod 2 ^ 32) rest
  end.

Definition textHash (input : string) : string :=
  Cache.string_of_Z (hashLoop 0 (asString (Some input))).

(** An entry of [outgoingByRoom]. *)
Record Outgoing := {
  og_hash : string;
  og_text : string;
  og_agentId : string;
  og_ts : Z
}.

Definition recordOutgoing (outgoingByRoom : gmap string (list Outgoing))
    (roomId text agentId : string) (now : Z) : gmap string (list Outgoing) :=
  if negb (Js.truthy roomId) || negb (Js.truthy text) then outgoingByRoom else
  let entry := {| og_hash := textHash text; og_text := text; og_agentId := agentId;
                  og_ts := now |} in
  <[roomId := (default [] (outgoingByRoom !! roomId) ++ [entry])%list]> outgoingByRoom.

(** [pruneOutgoing]: the leading entries older than the cutoff are cut. *)
Fixpoint pruneOutgoing (entries : list Outgoing) (ttlMs now : Z) : list Outgoing :=
  match entries with
  | [] => []
  | item :: rest =>
      if Z.ltb (og_ts item) (now - ttlMs) then pruneOutgoing rest ttlMs now else entries
  end.

Definition hasRecentOutgoing (outgoingByRoom : gmap string (list Outgoing))
    (roomId text : string) (now : Z) (windowSeconds : option Z) : bool :=
  match outgoingByRoom !! roomId with
  | None => false
  | Some entries =>
      if Nat.eqb (length entries) 0 then false else
      let ttlMs := Z.max 1000 (Js.num_or windowSeconds 30 * 1000) in
      let hash := textHash text in
      existsb (fun item => String.eqb (og_hash item) hash && Z.ltb (now - og_ts item) ttlMs)
              entries
  end.

(** [detectOutgoingEcho]: the agent of the first entry with the hash of the
    text ([None] for [null]) and the map with the pruned list less that
    entry. *)
Definition detectOutgoingEcho (outgoingByRoom : gmap string (list Outgoing))
    (roomId text : string) (now windowSeconds : Z)
  : option string * gmap string (list Outgoing) :=
  match outgoingByRoom !! roomId with
  | None => (None, outgoingByRoom)
  | Some entries =>
      if Nat.eqb (length entries) 0 then (None, outgoingByRoom) else
      let ttlMs := Z.max 1000 (windowSeconds * 1000) in
      let pruned := pruneOutgoing entries ttlMs now in
      let hash := textHash text in
      match Js.findIndex (fun item => String.eqb (og_hash item) hash) pruned with
      | None => (None, <[roomId := pruned]> outgoingByRoom)
      | Some idx =>
          match pruned !! idx with
          | None => (None, <[roomId := pruned]> outgoingByRoom)
          | Some found =>
              (if Js.truthy (og_agentId found) then Some (og_agentId found) else None,
               <[roomId := delete idx pruned]> outgoingByRoom)
          end
      end
  end.

(** An entry of [agentRoomContext]. *)
Record AgentRoom := {
  ar_roomId : string;
  ar_expiresAt : Z;
  ar_updatedAt : Z
}.

Definition bindAgentRoom (agentRoomContext : gmap string AgentRoom)
    (agentId roomId : string) (now : Z) (ttlMs : option Z) : gmap string AgentRoom :=
  if negb (Js.truthy agentId) || negb (Js.truthy roomId) then agentRoomContext else
  let ttl := Z.max 30000 (Js.num_or ttlMs 900000) in
  <[agentId := {| ar_roomId := roomId; ar_expiresAt := now + ttl; ar_updatedAt := now |}]>
    agentRoomContext.

Definition resolveAgentRoom (agentRoomContext : gmap string AgentRoom)
    (agentId : string) (now : Z) : string * gmap string AgentRoom :=
  if negb (Js.truthy agentId) then (EmptyString, agentRoomContext) else
  match agentRoomContext !! agentId with
  | None => (EmptyString, agentRoomContext)
  | Some entry =>
      if Z.gtb now (ar_expiresAt entry) then (EmptyString, delete agentId agentRoomContext)
      else (Js.or_else (ar_roomId entry) EmptyString, agentRoomContext)
  end.

Definition clearAgentRoom (agentRoomContext : gmap string AgentRoom) (agentId : string)
  : gmap string AgentRoom :=
  if negb (Js.truthy agentId) then agentRoomContext else delete agentId agentRoomContext.

End StateMore.

(** ** Forward targets (runtime.js) and number clamping (utils.js) *)

Section RuntimeMore.

(** The loop of [dedupe] (and of [uniqueStrings] of utils.js) with its set
    of texts already seen. *)
Fixpoint dedupeFrom (seen : gset string) (items : list string) : list string :=
  match items with
  | [] => []
  | item :: rest =>
      let text := asString (Some item) in
      if negb (Js.truthy text) || bool_decide (text ∈ seen) then dedupeFrom seen rest
      else text :: dedupeFrom ({[ text ]} ∪ seen) rest
  end.

Definition dedupe (items : list string) : list string := dedupeFrom ∅ items.

(** The fields of a room the target resolvers read. *)
Record ForwardRoom := {
  forwardMode : string;
  memberAgents : list string;
  includeSourceAgent : bool;
  (** [room.autopilot.trigger] *)
  autopilotTrigger : string
}.

(** [targets.filter((agentId) => agentId !== sourceAgent)], applied unless
    the room includes the source agent or there is none. *)
Definition withoutSource (room : ForwardRoom) (sourceAgent : string) (targets : list string)
  : list string :=
  if negb (includeSourceAgent room) && Js.truthy sourceAgent
  then List.filter (fun agentId => negb (String.eqb agentId sourceAgent)) targets
  else targets.

Definition resolveForwardTargets (room : ForwardRoom) (mentionedAgents : list string)
    (sourceAgent : string) : list string :=
  let targetAgents :=
    if String.eqb (forwardMode room) "mentions-only" then mentionedAgents
    else if String.eqb (forwardMode room) "all-members" then memberAgents room
    else if Nat.ltb 0 (length mentionedAgents) then mentionedAgents
    else memberAgents room in
  withoutSource room sourceAgent (dedupe targetAgents).

Definition resolveAutopilotTargets (room : ForwardRoom) (mentionedAgents : list string)
    (sourceAgent : string) : list string :=
  let mentionList := dedupe mentionedAgents in
  let targets :=
    if String.eqb (autopilotTrigger room) "mentions-only" then mentionList
    else if Nat.ltb 0 (length mentionList) then mentionList
    else memberAgents room in
  dedupe (withoutSource room sourceAgent targets).

(** [clampInt]; a finite [value] is the fraction [n/d], anything else
    (NaN, an infinity, not a number) is [None]; [Math.trunc] rounds towards
    zero. *)
Definition clampInt (value : option (Z * positive)) (fallback min max : Z) : Z :=
  match value with
  | None => fallback
  | Some (num, den) =>
      let n := Z.quot num (Z.pos den) in
      if Z.ltb n min then min
      else if Z.gtb n max then max
      else n
  end.

End RuntimeMore.
(** ** Facts about the string primitives *)

Section StringFacts.

Lemma append_assoc (a b c : string) : (a +:+ b) +:+ c = a +:+ b +:+ c.
Proof.
  induction a as [|x a IH]; [reflexivity|].
  change (String x ((a +:+ b) +:+ c) = String x (a +:+ b +:+ c)).
  rewrite IH. reflexivity.
Qed.

Lemma startsWith_app (p rest : string) : Js.startsWith (p +:+ rest) p = true.
Proof.
  induction p as [|c p IH]; simpl; [reflexivity|].
  rewrite Ascii.eqb_refl. exact IH.
Qed.

Lemma startsWith_inv (s p : string) :
  Js.startsWith s p = true -> exists rest, s = p +:+ rest.
Proof.
  revert s. induction p as [|c p IH]; intros s H; simpl in *.
  - exists s. reflexivity.
  - destruct s as [|d s]; [discriminate|].
    destruct (Ascii.eqb c d) eqn:E; [|discriminate].
    apply Ascii.eqb_eq in E. subst d.
    destruct (IH _ H) as [rest ->]. exists rest. reflexivity.
Qed.

Lemma startsWith_iff (s p : string) :
  Js.startsWith s p = true <-> exists rest, s = p +:+ rest.
Proof.
  split; [apply startsWith_inv|].
  intros [rest ->]. apply startsWith_app.
Qed.

Lemma includes_iff (s sub : string) :
  Js.includes s sub = true <-> exists pre post, s = pre +:+ sub +:+ post.
Proof.
  induction s as [|c s IH]; simpl.
  - rewrite orb_false_r, startsWith_iff. split.
    + intros [rest H]. exists EmptyString, rest. exact H.
    + intros [pre [post H]]. destruct pre; [|discriminate].
      exists post. exact H.
  - rewrite orb_true_iff, startsWith_iff, IH. split.
    + intros [[rest H]|[pre [post H]]].
      * exists EmptyString, rest. exact H.
      * exists (String c pre), post. simpl. rewrite H. reflexivity.
    + intros [pre [post H]]. destruct pre as [|d pre]; simpl in H.
      * left. exists post. exact H.
      * right. injection H as -> H. exists pre, post. exact H.
Qed.

Lemma includes_empty_false (sub : string) :
  sub <> EmptyString -> Js.includes EmptyString sub = false.
Proof. destruct sub; [congruence|reflexivity]. Qed.

Lemma trimEnd_nonempty_cons (c : ascii) (s : string) :
  Js.trimEnd s <> EmptyString -> Js.trimEnd (String c s) = String c (Js.trimEnd s).
Proof. simpl. destruct (Js.trimEnd s); [congruence|reflexivity]. Qed.

Lemma startsWith_nonempty (s m : string) :
  m <> EmptyString -> Js.startsWith s m = true -> s <> EmptyString.
Proof. destruct m; [congruence|]. destruct s; simpl; [discriminate|congruence]. Qed.

Lemma includes_nonempty (s m : string) :
  m <> EmptyString -> Js.includes s m = true -> s <> EmptyString.
Proof.
  intros Hm H ->. rewrite includes_empty_false in H by exact Hm. discriminate.
Qed.

Lemma startsWith_trimEnd (m s : string) :
  ends_solid m = true -> Js.startsWith s m = true ->
  Js.startsWith (Js.trimEnd s) m = true.
Proof.
  revert s. induction m as [|a m IH]; intros s Hm H; [discriminate|].
  destruct s as [|d s]; [discriminate|].
  simpl in H. destruct (Ascii.eqb a d) eqn:E; [|discriminate].
  apply Ascii.eqb_eq in E. subst d.
  destruct m as [|b m].
  - simpl in Hm. simpl. destruct (Js.trimEnd s).
    + destruct (Js.is_space a); [discriminate|].
      simpl. rewrite Ascii.eqb_refl. reflexivity.
    + simpl. rewrite Ascii.eqb_refl. reflexivity.
  - assert (Hm' : ends_solid (String b m) = true) by exact Hm.
    specialize (IH s Hm' H).
    rewrite trimEnd_nonempty_cons.
    + change (Js.startsWith (String a (Js.trimEnd s)) (String a (String b m)))
        with (if Ascii.eqb a a then Js.startsWith (Js.trimEnd s) (String b m) else false).
      rewrite Ascii.eqb_refl. exact IH.
    + eapply startsWith_nonempty; [|exact IH]. discriminate.
Qed.

Lemma includes_trimEnd (m s : string) :
  ends_solid m = true -> Js.includes s m = true ->
  Js.includes (Js.trimEnd s) m = true.
Proof.
  intros Hm. assert (Hne : m <> EmptyString) by (destruct m; [discriminate|congruence]).
  induction s as [|c s IH]; intros H.
  - rewrite includes_empty_false in H by exact Hne. discriminate.
  - change (Js.includes (String c s) m)
      with (Js.startsWith (String c s) m || Js.includes s m) in H.
    apply orb_true_iff in H as [H|H].
    + apply (startsWith_trimEnd m _ Hm) in H.
      destruct (Js.trimEnd (String c s)); simpl in *; rewrite H; reflexivity.
    + specialize (IH H).
      rewrite trimEnd_nonempty_cons by (eapply includes_nonempty; eauto).
      change (Js.includes (String c (Js.trimEnd s)) m)
        with (Js.startsWith (String c (Js.trimEnd s)) m || Js.includes (Js.trimEnd s) m).
      rewrite IH. apply orb_true_r.
Qed.

Lemma includes_trimStart (m s : string) :
  starts_solid m = true -> Js.includes s m = true ->
  Js.includes (Js.trimStart s) m = true.
Proof.
  intros Hm. destruct m as [|a m]; [discriminate|]. simpl in Hm.
  induction s as [|c s IH]; intros H; [exact H|].
  simpl Js.trimStart. destruct (Js.is_space c) eqn:Hc; [|exact H].
  apply IH.
  change (Js.includes (String c s) (String a m))
    with (Js.startsWith (String c s) (String a m) || Js.includes s (String a m)) in H.
  apply orb_true_iff in H as [H|H]; [|exact H].
  simpl in H. destruct (Ascii.eqb a c) eqn:E; [|discriminate].
  apply Ascii.eqb_eq in E. subst c. rewrite Hc in Hm. discriminate.
Qed.

(** Trimming cannot destroy an occurrence of a marker that neither starts
    nor ends with white space. *)
Lemma includes_trim (m s : string) :
  starts_solid m = true -> ends_solid m = true ->
  Js.includes s m = true -> Js.includes (Js.trim s) m = true.
Proof.
  intros H1 H2 H. unfold Js.trim.
  apply includes_trimEnd; [exact H2|]. apply includes_trimStart; assumption.
Qed.

End StringFacts.

Section TrimFacts.

Lemma trimStart_solid (s : string) :
  starts_solid s = true -> Js.trimStart s = s.
Proof.
  destruct s as [|c s]; [discriminate|]. simpl.
  destruct (Js.is_space c); [discriminate|reflexivity].
Qed.

Lemma trimStart_starts_solid (s : string) :
  Js.trimStart s = EmptyString \/ starts_solid (Js.trimStart s) = true.
Proof.
  induction s as [|c s IH]; simpl; [left; reflexivity|].
  destruct (Js.is_space c) eqn:E; [exact IH|].
  right. simpl. rewrite E. reflexivity.
Qed.

Lemma trimEnd_starts_solid (s : string) :
  starts_solid s = true -> starts_solid (Js.trimEnd s) = true.
Proof.
  destruct s as [|c s]; [discriminate|]. simpl. intros H.
  destruct (Js.trimEnd s); simpl; [|exact H].
  destruct (Js.is_space c) eqn:E; simpl in *; [discriminate|].
  rewrite E. reflexivity.
Qed.

Lemma trimEnd_idem (s : string) : Js.trimEnd (Js.trimEnd s) = Js.trimEnd s.
Proof.
  induction s as [|c s IH]; [reflexivity|]. simpl.
  destruct (Js.trimEnd s) as [|d t] eqn:E.
  - destruct (Js.is_space c) eqn:Ec; [reflexivity|]. simpl. rewrite Ec. reflexivity.
  - change (Js.trimEnd (String c (String d t)))
      with (match Js.trimEnd (String d t) with
            | EmptyString => if Js.is_space c then EmptyString else String c EmptyString
            | u => String c u
            end).
    rewrite IH. reflexivity.
Qed.

(** [trim] is idempotent, so applying [asString] twice is harmless. *)
Lemma trim_idem (s : string) : Js.trim (Js.trim s) = Js.trim s.
Proof.
  unfold Js.trim.
  destruct (trimStart_starts_solid s) as [H|H].
  - rewrite H. reflexivity.
  - rewrite (trimStart_solid (Js.trimEnd (Js.trimStart s))).
    + apply trimEnd_idem.
    + apply trimEnd_starts_solid. exact H.
Qed.

Lemma asString_idem (v : option string) : asString (Some (asString v)) = asString v.
Proof. destruct v; simpl; [apply trim_idem|reflexivity]. Qed.

End TrimFacts.

Section RoutingFacts.

Import Routing.

Variable resolveAgentRoute : RouteQuery -> option Route.

(** What a key accepted by [isSafeTeamroomSessionKey] looks like. *)
Lemma isSafeTeamroomSessionKey_true (sk : option string) (room : Room) (agent : string) :
  isSafeTeamroomSessionKey sk room agent = true ->
  let key := Js.toLowerCase (asString sk) in
  let rid := Js.toLowerCase (asString (Some (room_id room))) in
  let tgt := Js.toLowerCase (asString (Some agent)) in
  key <> EmptyString /\ rid <> EmptyString /\
  Js.includes key ":group:" = true /\
  Js.includes key rid = true /\
  (Js.startsWith key "agent:" = true ->
   Js.startsWith key ("agent:" +:+ tgt +:+ ":") = true).
Proof.
  unfold isSafeTeamroomSessionKey. cbv zeta.
  destruct (Js.toLowerCase (asString sk)) as [|c key] eqn:Ek; [discriminate|].
  destruct (Js.toLowerCase (asString (Some (room_id room)))) as [|d rid] eqn:Er;
    [discriminate|].
  cbn [Js.truthy negb].
  destruct (Js.includes (String c key) ":group:") eqn:Eg; [|discriminate].
  destruct (Js.includes (String c key) (String d rid)) eqn:Ei; [|discriminate].
  cbn [negb].
  destruct (Js.startsWith (String c key) "agent:") eqn:Ea.
  - destruct (Js.startsWith (String c key) ("agent:" +:+ _)) eqn:Ep; [|discriminate].
    intros _. repeat split; try discriminate; auto.
  - intros _. repeat split; try discriminate; auto.
Qed.

Lemma resolveAgentSessionKey_cases (room : Room) (agent : string) :
  let cand := candidateSessionKey resolveAgentRoute room agent in
  let r := resolveAgentSessionKey resolveAgentRoute room agent in
  (isSafeTeamroomSessionKey (Some cand) room agent = true /\ sessionKey r = cand) \/
  (isSafeTeamroomSessionKey (Some cand) room agent = false /\ sessionKey r = EmptyString).
Proof.
  cbv zeta. unfold resolveAgentSessionKey.
  destruct (isSafeTeamroomSessionKey _ room agent); [left|right]; split; reflexivity.
Qed.

End RoutingFacts.

(** ** Plain objects: assignment *)

Section ObjectFacts.

Context {V : Type}.

Lemma assign_ordinary (obj : gmap string V) (key : string) (value : V) :
  key <> "__proto__" -> JsObj.assign obj key value = <[key := value]> obj.
Proof.
  intros H. unfold JsObj.assign. destruct (obj !! key); [reflexivity|].
  destruct (String.eqb_spec key "__proto__"); [contradiction|reflexivity].
Qed.

Lemma assign_own (obj : gmap string V) (key : string) (value : V) :
  is_Some (obj !! key) -> JsObj.assign obj key value = <[key := value]> obj.
Proof. intros [v H]. unfold JsObj.assign. rewrite H. reflexivity. Qed.

Lemma assign_proto (obj : gmap string V) (value : V) :
  obj !! "__proto__" = None -> JsObj.assign obj "__proto__" value = obj.
Proof. intros H. unfold JsObj.assign. rewrite H. reflexivity. Qed.

(** An assignment either creates or replaces the own property, or it is the
    assignment of [__proto__] to an object without such an own property. *)
Lemma assign_cases (obj : gmap string V) (key : string) (value : V) :
  JsObj.assign obj key value = <[key := value]> obj \/
  (key = "__proto__" /\ obj !! key = None /\ JsObj.assign obj key value = obj).
Proof.
  unfold JsObj.assign. destruct (obj !! key) eqn:E; [left; reflexivity|].
  destruct (String.eqb_spec key "__proto__") as [->|]; [right|left]; auto.
Qed.

Lemma lookup_assign_ne (obj : gmap string V) (key other : string) (value : V) :
  other <> key -> JsObj.assign obj key value !! other = obj !! other.
Proof.
  intros H. destruct (assign_cases obj key value) as [-> | (_ & _ & ->)]; [|reflexivity].
  apply lookup_insert_ne. congruence.
Qed.

End ObjectFacts.

(** ** The cycle limiter: debounced resets and the turn budget *)

Section CycleFacts.

Import State.

Variable io : IO.
Variable roomId : string.
Variable roomConfig : RoomConfig.

Lemma cycles_persistCycles (st : TeamChatState) :
  cycles (persistCycles io st) = cycles st.
Proof.
  unfold persistCycles.
  destruct (persistence st); [|reflexivity].
  destruct (lock_ok io && write_ok io); reflexivity.
Qed.

Lemma getCycle_stored (st : TeamChatState) (now : Z) :
  cycles (snd (getCycle st roomId roomConfig now)) !! roomId
  = Some (fst (getCycle st roomId roomConfig now)).
Proof.
  unfold getCycle.
  destruct (cycles st !! roomId) as [existing|]; [destruct (Z.gtb _ _)|];
    simpl; apply lookup_insert_eq.
Qed.

(** Within its TTL, [getCycle] hands back the stored counters. *)
Lemma getCycle_live (st : TeamChatState) (now : Z) (c : Cycle) :
  cycles st !! roomId = Some c ->
  now - createdAt c <= cycleTtlSeconds roomConfig * 1000 ->
  let g := fst (getCycle st roomId roomConfig now) in
  turnsUsed g = turnsUsed c /\ dispatchCount g = dispatchCount c /\
  createdAt g = createdAt c /\ lastInboundAt g = lastInboundAt c /\
  maxTurns g = maxTurnsPerCycle roomConfig.
Proof.
  intros Hc Httl. unfold getCycle. rewrite Hc.
  destruct (Z.gtb_spec (now - createdAt c) (cycleTtlSeconds roomConfig * 1000)); [lia|].
  simpl. repeat split; auto.
Qed.

(** Without a cycle, or past its TTL, [getCycle] starts from zero. *)
Lemma getCycle_fresh (st : TeamChatState) (now : Z) :
  (forall c, cycles st !! roomId = Some c ->
             now - createdAt c > cycleTtlSeconds roomConfig * 1000) ->
  let g := fst (getCycle st roomId roomConfig now) in
  turnsUsed g = 0 /\ dispatchCount g = 0 /\ createdAt g = now /\ lastInboundAt g = 0 /\
  maxTurns g = maxTurnsPerCycle roomConfig.
Proof.
  intros H. unfold getCycle.
  destruct (cycles st !! roomId) as [c|].
  - specialize (H c eq_refl).
    destruct (Z.gtb_spec (now - createdAt c) (cycleTtlSeconds roomConfig * 1000)); [|lia].
    simpl. repeat split; auto.
  - simpl. repeat split; auto.
Qed.

Lemma getCycle_maxTurns (st : TeamChatState) (now : Z) :
  maxTurns (fst (getCycle st roomId roomConfig now)) = maxTurnsPerCycle roomConfig.
Proof.
  unfold getCycle.
  destruct (cycles st !! roomId) as [c|]; [destruct (Z.gtb _ _)|]; reflexivity.
Qed.

(** The cycle a turn request leaves behind. *)
Lemma tryConsumeTurn_cycle (st : TeamChatState) (now : Z) :
  let g := fst (getCycle st roomId roomConfig now) in
  let r := tryConsumeTurn io st roomId roomConfig now in
  exists c, cycles (snd r) !! roomId = Some c /\
    createdAt c = createdAt g /\ lastInboundAt c = lastInboundAt g /\
    dispatchCount c = dispatchCount g /\
    (if Z.geb (turnsUsed g) (maxTurns g)
     then turnsUsed c = turnsUsed g /\
          fst r = {| tr_ok := false; tr_turnsUsed := turnsUsed g; tr_maxTurns := maxTurns g |}
     else turnsUsed c = turnsUsed g + 1 /\
          fst r = {| tr_ok := true; tr_turnsUsed := turnsUsed g + 1;
                     tr_maxTurns := maxTurns g |}).
Proof.
  cbv zeta. unfold tryConsumeTurn.
  pose proof (getCycle_stored st now) as Hst.
  destruct (getCycle st roomId roomConfig now) as [g st1]. simpl in *.
  destruct (Z.geb (turnsUsed g) (maxTurns g)); simpl.
  - exists g. repeat split; auto.
  - eexists. rewrite cycles_persistCycles. simpl. rewrite lookup_insert_eq.
    split; [reflexivity|]. simpl. repeat split; auto.
Qed.

Lemma tryConsumeDispatch_cycle (st : TeamChatState) (now : Z) :
  let g := fst (getCycle st roomId roomConfig now) in
  let r := tryConsumeDispatch io st roomId roomConfig now in
  exists c, cycles (snd r) !! roomId = Some c /\
    createdAt c = createdAt g /\ lastInboundAt c = lastInboundAt g /\
    turnsUsed c = turnsUsed g.
Proof.
  cbv zeta. unfold tryConsumeDispatch.
  pose proof (getCycle_stored st now) as Hst.
  destruct (getCycle st roomId roomConfig now) as [g st1]. simpl in *.
  destruct (Z.geb (dispatchCount g) (maxDispatch g)); simpl.
  - exists g. repeat split; auto.
  - eexists. rewrite cycles_persistCycles. simpl. rewrite lookup_insert_eq.
    split; [reflexivity|]. simpl. repeat split; auto.
Qed.

(** What [registerInboundExternal] returns is what it stores. *)
Lemma registerInboundExternal_stored (st : TeamChatState) (now : Z) :
  let r := registerInboundExternal io st roomId roomConfig now in
  cycles (snd r) !! roomId = Some (fst r) /\ lastInboundAt (fst r) = now.
Proof.
  cbv zeta. unfold registerInboundExternal.
  destruct (getCycle st roomId roomConfig now) as [g st1]. simpl.
  rewrite cycles_persistCycles. simpl. rewrite lookup_insert_eq. auto.
Qed.

Lemma registerInboundExternal_createdAt (st : TeamChatState) (now : Z) :
  createdAt (fst (registerInboundExternal io st roomId roomConfig now))
  = createdAt (fst (getCycle st roomId roomConfig now)).
Proof.
  unfold registerInboundExternal.
  destruct (getCycle st roomId roomConfig now) as [g st1]. reflexivity.
Qed.

(** Budget calls inside the TTL keep the cycle's creation time and the time
    of the last external message. *)
Lemma consumeAll_keeps (ops : list Consume) (st : TeamChatState) (c : Cycle) :
  cycles st !! roomId = Some c ->
  Forall (fun op => consumeAt op - createdAt c <= cycleTtlSeconds roomConfig * 1000) ops ->
  exists c', cycles (consumeAll io roomId roomConfig st ops) !! roomId = Some c' /\
    createdAt c' = createdAt c /\ lastInboundAt c' = lastInboundAt c.
Proof.
  revert st c. induction ops as [|op ops IH]; intros st c Hc Hall.
  - exists c. auto.
  - inversion Hall as [|? ? Hop Hops]; subst.
    assert (Hstep : exists c1, cycles (consume io roomId roomConfig st op) !! roomId = Some c1 /\
                      createdAt c1 = createdAt c /\ lastInboundAt c1 = lastInboundAt c).
    { destruct op as [now|now]; simpl in *.
      - destruct (tryConsumeTurn_cycle st now) as (c1 & H1 & H2 & H3 & _).
        destruct (getCycle_live st now c Hc Hop) as (_ & _ & G1 & G2 & _).
        exists c1. split; [exact H1|]. split; congruence.
      - destruct (tryConsumeDispatch_cycle st now) as (c1 & H1 & H2 & H3 & _).
        destruct (getCycle_live st now c Hc Hop) as (_ & _ & G1 & G2 & _).
        exists c1. split; [exact H1|]. split; congruence. }
    destruct Hstep as (c1 & H1 & H2 & H3).
    destruct (IH (consume io roomId roomConfig st op) c1 H1) as (c' & E1 & E2 & E3).
    + rewrite H2. exact Hops.
    + exists c'. split; [exact E1|]. split; congruence.
Qed.

(** A registration that finds the previous one less than the debounce
    interval back, in a cycle still within its TTL, leaves the counters. *)
Lemma registerInboundExternal_keeps (st : TeamChatState) (now : Z) (c : Cycle) :
  cycles st !! roomId = Some c ->
  now - createdAt c <= cycleTtlSeconds roomConfig * 1000 ->
  lastInboundAt c <> 0 ->
  now - lastInboundAt c < DEBOUNCE_MS ->
  let c' := fst (registerInboundExternal io st roomId roomConfig now) in
  turnsUsed c' = turnsUsed c /\ dispatchCount c' = dispatchCount c.
Proof.
  intros Hc Httl Hnz Hgap.
  destruct (getCycle_live st now c Hc Httl) as (G1 & G2 & _ & G4 & _).
  cbv zeta. unfold registerInboundExternal.
  destruct (getCycle st roomId roomConfig now) as [g st1]. simpl in *.
  rewrite G4.
  destruct (Z.eqb_spec (lastInboundAt c) 0); [contradiction|].
  destruct (Z.geb_spec (now - lastInboundAt c) DEBOUNCE_MS); [lia|].
  simpl. repeat split; auto.
Qed.

(** A registration that finds no previous one, or one at least the debounce
    interval back, zeroes the counters. *)
Lemma registerInboundExternal_resets (st : TeamChatState) (now : Z) :
  (forall c, cycles st !! roomId = Some c -> now - lastInboundAt c >= DEBOUNCE_MS) ->
  let c' := fst (registerInboundExternal io st roomId roomConfig now) in
  turnsUsed c' = 0 /\ dispatchCount c' = 0.
Proof.
  intros H. cbv zeta. unfold registerInboundExternal, getCycle.
  destruct (cycles st !! roomId) as [c|]; [|simpl; auto].
  specialize (H c eq_refl).
  destruct (Z.gtb (now - createdAt c) (cycleTtlSeconds roomConfig * 1000)); simpl; [auto|].
  destruct (Z.geb_spec (now - lastInboundAt c) DEBOUNCE_MS); [|lia].
  rewrite orb_true_r. auto.
Qed.

End CycleFacts.

(** ** The message cache: log and watermark bookkeeping *)

Section CacheFacts.

Import Cache.

Lemma truthy_true (s : string) : s <> EmptyString -> Js.truthy s = true.
Proof. destruct s; [congruence|reflexivity]. Qed.

Lemma truthy_false (s : string) : Js.truthy s = false -> s = EmptyString.
Proof. destruct s; [reflexivity|discriminate]. Qed.

Lemma or_else_empty (a : string) : Js.or_else a EmptyString = a.
Proof. destruct a; reflexivity. Qed.

Lemma or_else_truthy (a b : string) : b <> EmptyString -> Js.or_else a b <> EmptyString.
Proof. destruct a; simpl; [auto|discriminate]. Qed.

Lemma log_of_set_log (w : World) (roomId : string) (l : list LogLine) :
  log_of (set_log w roomId l) roomId = l.
Proof. unfold log_of, set_log. simpl. rewrite lookup_insert_eq. reflexivity. Qed.

Lemma omap_Parsed (l : list Message) :
  omap (fun line => match line with Parsed m => Some m | Garbage _ => None end)
       (Parsed <$> l) = l.
Proof. induction l as [|m l IH]; simpl; [reflexivity|]. f_equal. exact IH. Qed.

Lemma readAllMessages_set_log (w : World) (roomId : string) (l : list LogLine) :
  readAllMessages (set_log w roomId l) roomId
  = omap (fun line => match line with Parsed m => Some m | Garbage _ => None end) l.
Proof. unfold readAllMessages. rewrite log_of_set_log. reflexivity. Qed.

Lemma readAllMessages_append (w : World) (roomId : string) (m : Message) :
  readAllMessages (set_log w roomId (log_of w roomId ++ [Parsed m])%list) roomId
  = (readAllMessages w roomId ++ [m])%list.
Proof.
  rewrite readAllMessages_set_log. unfold readAllMessages.
  rewrite omap_app. reflexivity.
Qed.

Lemma getWatermarks_set_watermarks (w : World) (roomId : string) (wm : gmap string Watermark) :
  getWatermarks (set_watermarks w roomId wm) roomId = wm.
Proof. unfold getWatermarks, set_watermarks. simpl. rewrite lookup_insert_eq. reflexivity. Qed.

Lemma readAllMessages_set_watermarks (w : World) (r r' : string) (wm : gmap string Watermark) :
  readAllMessages (set_watermarks w r wm) r' = readAllMessages w r'.
Proof. reflexivity. Qed.

(** [markAsRead] when the lock is taken and the file is written. *)
Lemma markAsRead_written (io : IO) (w : World) (roomId agentId : string)
    (upToMessageId : option string) (upToTs : option Z) :
  roomId <> EmptyString -> agentId <> EmptyString ->
  lock_ok io = true -> write_ok io = true ->
  agentId <> "__proto__" ->
  markAsRead io w roomId agentId upToMessageId upToTs
  = set_watermarks w roomId
      (<[agentId :=
           {| lastReadId :=
                Js.or_else (asString upToMessageId)
                  (from_option lastReadId EmptyString (getWatermarks w roomId !! agentId));
              lastReadTs := Js.num_or upToTs (now io) |}]> (getWatermarks w roomId)).
Proof.
  intros Hr Ha Hl Hw Hp. unfold markAsRead, withFileLock, writeWatermarks.
  rewrite (truthy_true _ Hr), (truthy_true _ Ha), Hl, Hw. simpl.
  rewrite or_else_empty, (assign_ordinary _ _ _ Hp). reflexivity.
Qed.

(** [markAsRead] for the agent id [__proto__]: the assignment replaces the
    prototype of the parsed object, and the file is written with the
    entries it had. *)
Lemma markAsRead_proto (io : IO) (w : World) (roomId : string)
    (upToMessageId : option string) (upToTs : option Z) :
  roomId <> EmptyString ->
  lock_ok io = true -> write_ok io = true ->
  getWatermarks w roomId !! "__proto__" = None ->
  markAsRead io w roomId "__proto__" upToMessageId upToTs
  = set_watermarks w roomId (getWatermarks w roomId).
Proof.
  intros Hr Hl Hw Hnone. unfold markAsRead, withFileLock, writeWatermarks.
  rewrite (truthy_true _ Hr), Hl, Hw. simpl.
  rewrite (assign_proto _ _ Hnone). reflexivity.
Qed.

(** [markAsRead] when the lock times out or the write fails. *)
Lemma markAsRead_not_written (io : IO) (w : World) (roomId agentId : string)
    (upToMessageId : option string) (upToTs : option Z) :
  lock_ok io && write_ok io = false ->
  markAsRead io w roomId agentId upToMessageId upToTs = w.
Proof.
  intros H. unfold markAsRead, withFileLock, writeWatermarks.
  destruct (negb (Js.truthy roomId) || negb (Js.truthy agentId)); [reflexivity|].
  destruct (lock_ok io); [|reflexivity].
  destruct (write_ok io); [discriminate|reflexivity].
Qed.

Lemma findIndex_first {A : Type} (p : A -> bool) (pre post : list A) (x : A) :
  (forall y, y ∈ pre -> p y = false) -> p x = true ->
  Js.findIndex p (pre ++ x :: post)%list = Some (length pre).
Proof.
  intros Hpre Hx. induction pre as [|y pre IH]; simpl.
  - rewrite Hx. reflexivity.
  - rewrite (Hpre y) by (apply elem_of_cons; left; reflexivity).
    rewrite IH; [reflexivity|].
    intros z Hz. apply Hpre. apply elem_of_cons. right. exact Hz.
Qed.

Lemma drop_past {A : Type} (pre post : list A) (x : A) :
  drop (S (length pre)) (pre ++ x :: post)%list = post.
Proof. induction pre as [|y pre IH]; simpl; [reflexivity|exact IH]. Qed.

(** Trimming only removes characters at the two ends. *)
Lemma trimStart_suffix (s : string) : exists pre, s = pre +:+ Js.trimStart s.
Proof.
  induction s as [|c s [pre IH]]; simpl.
  - exists EmptyString. reflexivity.
  - destruct (Js.is_space c).
    + exists (String c pre). change (String c s = String c (pre +:+ Js.trimStart s)).
      rewrite <- IH. reflexivity.
    + exists EmptyString. reflexivity.
Qed.

Lemma trimEnd_prefix (s : string) : exists post, s = Js.trimEnd s +:+ post.
Proof.
  induction s as [|c s [post IH]]; simpl.
  - exists EmptyString. reflexivity.
  - destruct (Js.trimEnd s) as [|d t] eqn:E.
    + destruct (Js.is_space c).
      * exists (String c s). reflexivity.
      * exists s. reflexivity.
    + exists post. change (String c s = String c (String d t +:+ post)).
      rewrite <- IH. reflexivity.
Qed.

Lemma includes_of_trim (s m : string) :
  Js.includes (Js.trim s) m = true -> Js.includes s m = true.
Proof.
  rewrite !includes_iff. intros (pre & post & H).
  destruct (trimStart_suffix s) as [a Ha].
  destruct (trimEnd_prefix (Js.trimStart s)) as [b Hb].
  unfold Js.trim in H. rewrite H in Hb. rewrite Hb in Ha.
  exists (a +:+ pre), (post +:+ b). rewrite Ha.
  rewrite !append_assoc. reflexivity.
Qed.

Lemma generateMessageId_nonempty (io : IO) (w : World) (ts : Z) :
  fst (generateMessageId io w ts) <> EmptyString.
Proof. unfold generateMessageId. simpl. discriminate. Qed.

Lemma appendMessage_accepts (io : IO) (w : World) (roomId : string) (params : Draft) :
  roomId <> EmptyString ->
  isInjection (Js.or_else (asString (d_content params)) EmptyString) = false ->
  fst (appendMessage io w roomId params) = Some (recordOf io w params) /\
  readAllMessages (snd (appendMessage io w roomId params)) roomId
  = if lock_ok io && write_ok io
    then (readAllMessages w roomId ++ [recordOf io w params])%list
    else readAllMessages w roomId.
Proof.
  intros Hr Hinj. unfold appendMessage, recordOf.
  rewrite (truthy_true _ Hr), Hinj. simpl.
  destruct (Js.truthy (asString (d_id params))); simpl;
    unfold withFileLock; destruct (lock_ok io); simpl;
    destruct (write_ok io); simpl; split; try reflexivity;
    rewrite readAllMessages_append; reflexivity.
Qed.

(** What [cleanup] leaves in the log: everything, or the messages newer than
    the larger of the minimum watermark and the TTL cutoff. *)
Lemma cleanup_log (self : MessageCache) (io : IO) (w : World) (roomId : string)
    (memberAgents : list string) :
  readAllMessages (cleanup self io w roomId memberAgents) roomId = readAllMessages w roomId \/
  exists minReadTs,
    minReadTsLoop (getWatermarks w roomId) memberAgents None = Some minReadTs /\
    readAllMessages (cleanup self io w roomId memberAgents) roomId
    = List.filter (fun m => Z.gtb (m_ts m) (Z.max minReadTs (now io - cleanupTtlMs self)))
        (readAllMessages w roomId).
Proof.
  unfold cleanup.
  destruct (negb (Js.truthy roomId) || Nat.eqb (length memberAgents) 0); [left; reflexivity|].
  destruct (Z.ltb _ _); [left; reflexivity|].
  destruct (minReadTsLoop _ _ _) as [minReadTs|]; [|left; reflexivity].
  destruct (Z.eqb minReadTs 0); [left; reflexivity|].
  destruct (Nat.eqb _ _); [left; reflexivity|].
  unfold withFileLock.
  destruct (lock_ok io); [|left; reflexivity].
  destruct (write_ok io); [|left; reflexivity].
  right. exists minReadTs. split; [reflexivity|].
  simpl. rewrite readAllMessages_set_log. apply omap_Parsed.
Qed.

End CacheFacts.

(** ** The task board: files and status derivation *)

Section BoardFacts.

Import Board.

Lemma roomTasks_insert (w : World) (roomId : string) (r : RoomTasks) :
  roomTasks (<[sanitizeRoomId roomId := r]> w) roomId = r.
Proof. unfold roomTasks. rewrite lookup_insert_eq. reflexivity. Qed.

Lemma zor_same (a : Z) : zor a a = a.
Proof. unfold zor. destruct (Z.eqb_spec a 0); congruence. Qed.

Lemma active_saveBoard (io : IO) (w : World) (roomId : string) (b : BoardFile) :
  active (roomTasks (_saveBoard io w roomId b) roomId) = active (roomTasks w roomId).
Proof.
  unfold _saveBoard. destruct (write_board_ok io); [|reflexivity].
  rewrite roomTasks_insert. reflexivity.
Qed.

Lemma history_saveBoard (io : IO) (w : World) (roomId : string) (b : BoardFile) :
  history (roomTasks (_saveBoard io w roomId b) roomId) = history (roomTasks w roomId).
Proof.
  unfold _saveBoard. destruct (write_board_ok io); [|reflexivity].
  rewrite roomTasks_insert. reflexivity.
Qed.

Lemma active_writeActive (io : IO) (w : World) (roomId taskId : string) (task : Task) :
  write_task_ok io = true ->
  active (roomTasks (writeActive io w roomId taskId task) roomId)
  = <[sanitizeTaskId taskId := V3 task]> (active (roomTasks w roomId)).
Proof.
  intros H. unfold writeActive. rewrite H, roomTasks_insert. reflexivity.
Qed.

Lemma active_writeHistory (io : IO) (w : World) (roomId taskId : string) (task : Task) :
  active (roomTasks (writeHistory io w roomId taskId task) roomId)
  = active (roomTasks w roomId).
Proof.
  unfold writeHistory. destruct (write_history_ok io); [|reflexivity].
  rewrite roomTasks_insert. reflexivity.
Qed.

Lemma history_writeHistory (io : IO) (w : World) (roomId taskId : string) (task : Task) :
  write_history_ok io = true ->
  history (roomTasks (writeHistory io w roomId taskId task) roomId)
  = <[(now io, sanitizeTaskId taskId) := task]> (history (roomTasks w roomId)).
Proof.
  intros H. unfold writeHistory. rewrite H, roomTasks_insert, zor_same. reflexivity.
Qed.

Lemma active_removeActive (io : IO) (w : World) (roomId taskId : string) :
  remove_ok io = true ->
  active (roomTasks (removeActive io w roomId taskId) roomId)
  = delete (sanitizeTaskId taskId) (active (roomTasks w roomId)).
Proof.
  intros H. unfold removeActive. rewrite H, roomTasks_insert. reflexivity.
Qed.

Lemma history_removeActive (io : IO) (w : World) (roomId taskId : string) :
  history (roomTasks (removeActive io w roomId taskId) roomId)
  = history (roomTasks w roomId).
Proof.
  unfold removeActive. destruct (remove_ok io); [|reflexivity].
  rewrite roomTasks_insert. reflexivity.
Qed.

Lemma slotStatuses_elem (slots : gmap string Slot) (st : string) :
  st ∈ slotStatuses slots <-> someSlot st slots.
Proof.
  unfold slotStatuses, someSlot. rewrite list_elem_of_fmap. split.
  - intros (s & -> & Hs). apply list_elem_of_fmap in Hs as ([agent s'] & -> & Hs).
    apply elem_of_map_to_list in Hs. exists agent, s'. auto.
  - intros (agent & s & Hs & <-). exists s. split; [reflexivity|].
    apply list_elem_of_fmap. exists (agent, s). split; [reflexivity|].
    apply elem_of_map_to_list. exact Hs.
Qed.

Lemma slotStatuses_nil (slots : gmap string Slot) :
  slotStatuses slots = [] <-> slots = ∅.
Proof.
  unfold slotStatuses. split.
  - intros H. apply fmap_nil_inv, fmap_nil_inv in H.
    apply map_to_list_empty_iff. exact H.
  - intros ->. rewrite map_to_list_empty. reflexivity.
Qed.

Lemma every_terminal (slots : gmap string Slot) :
  forallb (fun s => String.eqb s "done" || String.eqb s "review_ok") (slotStatuses slots) = true
  <-> allTerminal slots.
Proof.
  rewrite forallb_forall. unfold allTerminal. split.
  - intros H agent s Hs.
    assert (Hin : normStatus s ∈ slotStatuses slots)
      by (apply slotStatuses_elem; exists agent, s; auto).
    apply list_elem_of_In in Hin. apply H in Hin.
    apply orb_true_iff in Hin as [Hin|Hin]; apply String.eqb_eq in Hin; auto.
  - intros H st Hin. apply list_elem_of_In, slotStatuses_elem in Hin
      as (agent & s & Hs & <-).
    destruct (H agent s Hs) as [-> | ->]; reflexivity.
Qed.

Lemma some_status (st : string) (slots : gmap string Slot) :
  existsb (fun s => String.eqb s st) (slotStatuses slots) = true <-> someSlot st slots.
Proof.
  rewrite existsb_exists, <- slotStatuses_elem. split.
  - intros (x & Hin & Hx). apply String.eqb_eq in Hx. subst x.
    apply list_elem_of_In. exact Hin.
  - intros Hin. exists st. split; [apply list_elem_of_In; exact Hin|apply String.eqb_refl].
Qed.

(** [deriveTaskStatus] computes the status the precedence prescribes. *)
Lemma deriveTaskStatus_precedence (slots : gmap string Slot) :
  statusByPrecedence slots (deriveTaskStatus slots).
Proof.
  unfold deriveTaskStatus.
  destruct (slotStatuses slots) as [|st sts] eqn:E.
  - apply prec_create. apply slotStatuses_nil. exact E.
  - assert (Hne : slots <> ∅).
    { intros H. apply slotStatuses_nil in H. congruence. }
    rewrite <- E. cbn [length Nat.eqb].
    replace (length (slotStatuses slots) =? 0)%nat with false
      by (rewrite E; reflexivity).
    destruct (forallb _ _) eqn:Hall.
    { apply prec_done; [exact Hne|]. apply every_terminal. exact Hall. }
    assert (Hnt : ~ allTerminal slots).
    { intros H. apply every_terminal in H. congruence. }
    destruct (existsb (fun s => String.eqb s "blocked") _) eqn:Hb.
    { apply prec_blocked; auto. apply some_status. exact Hb. }
    assert (Hnb : ~ someSlot "blocked" slots).
    { intros H. apply some_status in H. congruence. }
    destruct (existsb (fun s => String.eqb s "in_progress") _) eqn:Hp.
    { apply prec_in_progress; auto. apply some_status. exact Hp. }
    apply prec_ack; auto.
    intros H. apply some_status in H. congruence.
Qed.

(** The precedence determines the status. *)
Lemma statusByPrecedence_unique (slots : gmap string Slot) (a b : string) :
  statusByPrecedence slots a -> statusByPrecedence slots b -> a = b.
Proof.
  intros Ha Hb. destruct Ha; destruct Hb; try reflexivity; contradiction.
Qed.

Lemma deriveTaskStatus_done (slots : gmap string Slot) :
  slots <> ∅ -> (deriveTaskStatus slots = "done" <-> allTerminal slots).
Proof.
  intros Hne. pose proof (deriveTaskStatus_precedence slots) as H. split.
  - intros E. rewrite E in H. inversion H; auto.
  - intros Hall. eapply statusByPrecedence_unique; [exact H|].
    apply prec_done; assumption.
Qed.

(** Of the five derived statuses only [done] is terminal. *)
Lemma isTerminal_derived (slots : gmap string Slot) :
  isTerminal (deriveTaskStatus slots) = true <-> deriveTaskStatus slots = "done".
Proof.
  destruct (deriveTaskStatus_precedence slots); split; intros Hstatus;
    try reflexivity; try discriminate Hstatus.
Qed.

End BoardFacts.

(** ** Properties of the message cache *)

Section CacheClaims.

Import Cache.

(** C1, at a failing input: the log has three messages (threshold 3), the
    only member has read up to timestamp 1000, and [cleanup] runs more than
    the TTL (one hour) after the messages were written.  The messages with
    timestamps 2000 and 3000 are newer than the minimum watermark and yet
    they are gone from the log. *)
Theorem cleanup_drops_unread_after_ttl :
  let after := cleanup smallCache (ioAt 3605000) threeMessages "R1" ["builder"] in
  m_ts <$> readAllMessages threeMessages "R1" = [1000; 2000; 3000] /\
  minReadTsLoop (getWatermarks threeMessages "R1") ["builder"] None = Some 1000 /\
  readAllMessages after "R1" = [].
Proof. vm_compute. repeat split; reflexivity. Qed.

(** With the default threshold of 200 messages the same happens: the member
    has read up to 100, and the unread messages 101 to 150 are dropped. *)
Lemma cleanup_drops_unread_default_threshold :
  let w := markAsRead (ioAt 300) (appendMany 200 blankWorld) "R1" "builder" None (Some 100) in
  let after := cleanup defaultCache (ioAt 3600150) w "R1" ["builder"] in
  length (readAllMessages w "R1") = 200%nat /\
  m_ts <$> readAllMessages after "R1" = Z.of_nat <$> seq 151 50.
Proof. vm_compute. repeat split; reflexivity. Qed.

(** C6: a draft whose content contains one of the reserved markers is
    refused: [appendMessage] answers null and no file changes, so
    [readAllMessages] gives what it gave before. *)
Theorem appendMessage_rejects_injection
    (io : IO) (w : World) (roomId : string) (params : Draft) (content marker : string) :
  d_content params = Some content ->
  marker ∈ injectionMarkers ->
  contains content marker ->
  fst (appendMessage io w roomId params) = None /\
  snd (appendMessage io w roomId params) = w /\
  readAllMessages (snd (appendMessage io w roomId params)) roomId = readAllMessages w roomId.
Proof.
  intros Hc Hm Hin.
  assert (Hraw : isInjection (Js.or_else (asString (d_content params)) EmptyString) = true).
  { rewrite Hc, or_else_empty. simpl asString.
    apply includes_iff in Hin. unfold isInjection.
    apply elem_of_cons in Hm as [->|Hm].
    - rewrite (includes_trim "[UNTRUSTED DATA" content eq_refl eq_refl Hin). reflexivity.
    - apply elem_of_cons in Hm as [->|Hm]; [|inversion Hm].
      rewrite (includes_trim "<relevant-memories>" content eq_refl eq_refl Hin).
      apply orb_true_r. }
  unfold appendMessage.
  destruct (negb (Js.truthy roomId)); simpl; [auto|].
  rewrite Hraw. simpl. auto.
Qed.

Lemma appendMessage_rejects_injection_witness :
  fst (appendMessage (ioAt 5000) threeMessages "R1"
         (draft "note <relevant-memories> x" 5000 None)) = None /\
  snd (appendMessage (ioAt 5000) threeMessages "R1"
         (draft "note <relevant-memories> x" 5000 None)) = threeMessages /\
  readAllMessages
    (snd (appendMessage (ioAt 5000) threeMessages "R1"
            (draft "note <relevant-memories> x" 5000 None))) "R1"
  = readAllMessages threeMessages "R1".
Proof.
  apply (appendMessage_rejects_injection (ioAt 5000) threeMessages "R1"
           (draft "note <relevant-memories> x" 5000 None)
           "note <relevant-memories> x" "<relevant-memories>").
  - reflexivity.
  - unfold injectionMarkers. apply elem_of_cons. right. apply elem_of_cons. left. reflexivity.
  - exists "note ", " x". reflexivity.
Defined.

(** C9: for a non-empty room id and a draft without marker, [appendMessage]
    answers the same record, with id, sender, timestamp and type filled in,
    whatever happens to the lock and to the write; the log has the record
    only when both went through. *)
Theorem appendMessage_result_hides_durability
    (io : IO) (w : World) (roomId : string) (params : Draft) :
  roomId <> EmptyString ->
  (forall content marker,
     d_content params = Some content -> marker ∈ injectionMarkers ->
     ~ contains content marker) ->
  exists record,
    (forall lock write,
       fst (appendMessage (withOutcome io lock write) w roomId params) = Some record) /\
    m_id record <> EmptyString /\ m_sender record <> EmptyString /\
    m_type record <> EmptyString /\ m_ts record = Js.num_or (d_ts params) (now io) /\
    (forall lock write,
       readAllMessages (snd (appendMessage (withOutcome io lock write) w roomId params)) roomId
       = if lock && write then (readAllMessages w roomId ++ [record])%list
         else readAllMessages w roomId).
Proof.
  intros Hr Hclean.
  assert (Hraw : isInjection (Js.or_else (asString (d_content params)) EmptyString) = false).
  { rewrite or_else_empty. destruct (d_content params) as [content|] eqn:Hc; [|reflexivity].
    simpl asString. unfold isInjection. apply orb_false_iff. split.
    - destruct (Js.includes (Js.trim content) "[UNTRUSTED DATA") eqn:E; [|reflexivity].
      apply includes_of_trim, includes_iff in E.
      exfalso. apply (Hclean content "[UNTRUSTED DATA" eq_refl); [|exact E].
      apply elem_of_cons. left. reflexivity.
    - destruct (Js.includes (Js.trim content) "<relevant-memories>") eqn:E; [|reflexivity].
      apply includes_of_trim, includes_iff in E.
      exfalso. apply (Hclean content "<relevant-memories>" eq_refl); [|exact E].
      apply elem_of_cons. right. apply elem_of_cons. left. reflexivity. }
  exists (recordOf io w params).
  split; [intros lock write;
          apply (appendMessage_accepts (withOutcome io lock write) w roomId params Hr Hraw)|].
  split.
  { unfold recordOf. simpl.
    destruct (Js.truthy (asString (d_id params))) eqn:E.
    - intros H. rewrite H in E. discriminate.
    - apply generateMessageId_nonempty. }
  split; [apply or_else_truthy; discriminate|].
  split; [apply or_else_truthy; discriminate|].
  split; [reflexivity|].
  intros lock write.
  apply (appendMessage_accepts (withOutcome io lock write) w roomId params Hr Hraw).
Qed.

Lemma appendMessage_result_hides_durability_witness :
  exists record,
    (forall lock write,
       fst (appendMessage (withOutcome (ioAt 4000) lock write) threeMessages "R1"
              (draft "four" 4000 None)) = Some record) /\
    m_id record <> EmptyString /\ m_sender record <> EmptyString /\
    m_type record <> EmptyString /\
    m_ts record = Js.num_or (d_ts (draft "four" 4000 None)) (now (ioAt 4000)) /\
    (forall lock write,
       readAllMessages
         (snd (appendMessage (withOutcome (ioAt 4000) lock write) threeMessages "R1"
                 (draft "four" 4000 None))) "R1"
       = if lock && write then (readAllMessages threeMessages "R1" ++ [record])%list
         else readAllMessages threeMessages "R1").
Proof.
  apply (appendMessage_result_hides_durability (ioAt 4000) threeMessages "R1"
           (draft "four" 4000 None)).
  - discriminate.
  - intros content marker Hc Hm Hin. injection Hc as <-.
    apply includes_iff in Hin.
    apply elem_of_cons in Hm as [->|Hm]; [vm_compute in Hin; discriminate Hin|].
    apply elem_of_cons in Hm as [->|Hm]; [vm_compute in Hin; discriminate Hin|].
    inversion Hm.
Defined.

End CacheClaims.

(** ** Properties of the session-key validation *)

Section RoutingClaims.

Import Routing.

(** Two colon-free segments followed by a colon are equal when the strings
    they start are. *)
Lemma segment_inj (a b r1 r2 : string) :
  no_colon a = true -> no_colon b = true ->
  a +:+ ":" +:+ r1 = b +:+ ":" +:+ r2 -> a = b.
Proof.
  revert b. induction a as [|x a IH]; intros [|y b] Ha Hb H; simpl in *.
  - reflexivity.
  - injection H as <- _. simpl in Hb. discriminate.
  - injection H as -> _. simpl in Ha. discriminate.
  - injection H as -> H.
    apply andb_true_iff in Ha as [_ Ha]. apply andb_true_iff in Hb as [_ Hb].
    f_equal. eapply IH; eauto.
Qed.

(** A key of the form [agent:<a>:...] with [<a>] another agent than the
    target does not begin with the prefix the validation expects. *)
Lemma other_agent_prefix_mismatch (key a tgt rest : string) :
  key = "agent:" +:+ a +:+ ":" +:+ rest ->
  no_colon a = true -> no_colon tgt = true -> a <> tgt ->
  ~ exists rest', key = "agent:" +:+ tgt +:+ ":" +:+ rest'.
Proof.
  intros -> Ha Ht Hne [rest' H].
  apply (inj (String.app "agent:")) in H.
  apply Hne. eapply segment_inj; eauto.
Qed.



End RoutingClaims.

(** ** Properties of the cycle limiter *)

Section CycleClaims.

Import State.

(** C4, as the code has it: when the second of two [registerInboundExternal]
    calls comes less than 5000 ms after the first (made at a non-zero time),
    and neither it nor any budget call in between falls past the TTL of the
    cycle, the second call leaves [turnsUsed] and [dispatchCount] as the calls
    in between left them. *)
Theorem registerInboundExternal_debounce
    (io : IO) (st : TeamChatState) (roomId : string) (roomConfig : RoomConfig)
    (now1 now2 : Z) (ops : list Consume) :
  now1 <> 0 ->
  now2 - now1 < DEBOUNCE_MS ->
  let first := registerInboundExternal io st roomId roomConfig now1 in
  let between := consumeAll io roomId roomConfig (snd first) ops in
  Forall (fun t => t - createdAt (fst first) <= cycleTtlSeconds roomConfig * 1000)
         ((consumeAt <$> ops) ++ [now2]) ->
  exists before,
    cycles between !! roomId = Some before /\
    let second := fst (registerInboundExternal io between roomId roomConfig now2) in
    turnsUsed second = turnsUsed before /\ dispatchCount second = dispatchCount before.
Proof.
  intros Hnz Hgap first between Hall.
  apply Forall_app in Hall as [Hops Hnow2].
  apply (proj1 (Forall_fmap consumeAt
    (fun t => t - createdAt (fst first) <= cycleTtlSeconds roomConfig * 1000) ops)) in Hops.
  inversion Hnow2 as [|? ? Hlast _]; subst.
  destruct (registerInboundExternal_stored io roomId roomConfig st now1) as [Hst Hin].
  fold first in Hst, Hin.
  destruct (consumeAll_keeps io roomId roomConfig ops (snd first) (fst first) Hst Hops)
    as (before & Hb & Hcreated & Hinbound).
  fold between in Hb.
  exists before. split; [exact Hb|].
  apply (registerInboundExternal_keeps io roomId roomConfig between now2 before Hb); lia.
Qed.

Lemma registerInboundExternal_debounce_witness :
  exists before,
    cycles (consumeAll quietIO "room" room30
              (snd (registerInboundExternal quietIO (constructor false ∅) "room" room30 1000))
              [Turn 2000; Dispatch 2500]) !! "room" = Some before /\
    let second :=
      fst (registerInboundExternal quietIO
             (consumeAll quietIO "room" room30
                (snd (registerInboundExternal quietIO (constructor false ∅) "room" room30 1000))
                [Turn 2000; Dispatch 2500])
             "room" room30 3000) in
    turnsUsed second = turnsUsed before /\ dispatchCount second = dispatchCount before.
Proof.
  apply (registerInboundExternal_debounce quietIO (constructor false ∅) "room" room30
           1000 3000 [Turn 2000; Dispatch 2500]).
  - discriminate.
  - reflexivity.
  - repeat constructor; vm_compute; discriminate.
Defined.

(** C4 as stated fails when the TTL of the cycle runs out between the two
    calls: the cycle below was created at 1000 with a TTL of 30 s, the two
    registrations are 3 s apart, and the turn used in between is gone. *)
Lemma debounce_lost_after_ttl_counterexample :
  let st0 := snd (tryConsumeTurn quietIO (constructor false ∅) "room" room30 1000) in
  let st1 := snd (registerInboundExternal quietIO st0 "room" room30 29000) in
  let st2 := snd (tryConsumeTurn quietIO st1 "room" room30 30000) in
  let second := fst (registerInboundExternal quietIO st2 "room" room30 32000) in
  32000 - 29000 < DEBOUNCE_MS /\
  turnsUsed <$> cycles st2 !! "room" = Some 1 /\
  turnsUsed second = 0.
Proof. vm_compute. repeat split; reflexivity. Qed.

(** C5 as stated fails when the third call comes after the TTL of the
    cycle: with [maxTurnsPerCycle = 2] and a TTL of 30 s, the cycle started
    by the first call at 1000 has both turns used at 2000, and the third call
    at 40000 starts a new cycle and is granted. *)
Lemma third_turn_after_ttl_counterexample :
  let room := {| cycleTtlSeconds := 30; maxTurnsPerCycle := 2; maxDispatchPerCycle := None |} in
  let r1 := tryConsumeTurn quietIO (constructor false ∅) "room" room 1000 in
  let r2 := tryConsumeTurn quietIO (snd r1) "room" room 2000 in
  let r3 := tryConsumeTurn quietIO (snd r2) "room" room 40000 in
  tr_ok (fst r1) = true /\ tr_ok (fst r2) = true /\
  fst r3 = {| tr_ok := true; tr_turnsUsed := 1; tr_maxTurns := 2 |}.
Proof. vm_compute. repeat split; reflexivity. Qed.

(** C5, as the code has it: with [maxTurnsPerCycle = 2] and a cycle that has
    no turn used, two [tryConsumeTurn] calls succeed and a third fails with
    [turnsUsed = 2] and [maxTurns = 2], provided the second and the third
    call come within the TTL of the cycle; a later [registerInboundExternal]
    whose gap since the previous registration exceeds the debounce interval
    sets [turnsUsed] to 0. *)
Theorem tryConsumeTurn_budget_of_two
    (io : IO) (st : TeamChatState) (roomId : string) (roomConfig : RoomConfig)
    (t1 t2 t3 t4 : Z) :
  maxTurnsPerCycle roomConfig = 2 ->
  let cycle := fst (getCycle st roomId roomConfig t1) in
  turnsUsed cycle = 0 ->
  t2 - createdAt cycle <= cycleTtlSeconds roomConfig * 1000 ->
  t3 - createdAt cycle <= cycleTtlSeconds roomConfig * 1000 ->
  let r1 := tryConsumeTurn io st roomId roomConfig t1 in
  let r2 := tryConsumeTurn io (snd r1) roomId roomConfig t2 in
  let r3 := tryConsumeTurn io (snd r2) roomId roomConfig t3 in
  fst r1 = {| tr_ok := true; tr_turnsUsed := 1; tr_maxTurns := 2 |} /\
  fst r2 = {| tr_ok := true; tr_turnsUsed := 2; tr_maxTurns := 2 |} /\
  fst r3 = {| tr_ok := false; tr_turnsUsed := 2; tr_maxTurns := 2 |} /\
  exists used,
    cycles (snd r3) !! roomId = Some used /\ turnsUsed used = 2 /\
    (t4 - lastInboundAt used > DEBOUNCE_MS ->
     let r4 := registerInboundExternal io (snd r3) roomId roomConfig t4 in
     turnsUsed (fst r4) = 0 /\ cycles (snd r4) !! roomId = Some (fst r4)).
Proof.
  intros Hmax cycle Hzero Ht2 Ht3 r1 r2 r3.
  pose proof (getCycle_maxTurns roomId roomConfig st t1) as Hm1. fold cycle in Hm1.
  destruct (tryConsumeTurn_cycle io roomId roomConfig st t1)
    as (c1 & Hc1 & Hcr1 & Hin1 & _ & Hstep1).
  fold cycle in Hcr1, Hin1, Hstep1. fold r1 in Hc1, Hstep1.
  rewrite Hzero, Hm1, Hmax in Hstep1. simpl in Hstep1. destruct Hstep1 as [Hu1 Hr1].
  assert (Hlive2 : t2 - createdAt c1 <= cycleTtlSeconds roomConfig * 1000) by lia.
  destruct (getCycle_live roomId roomConfig (snd r1) t2 c1 Hc1 Hlive2)
    as (G1 & _ & G3 & G4 & G5).
  destruct (tryConsumeTurn_cycle io roomId roomConfig (snd r1) t2)
    as (c2 & Hc2 & Hcr2 & Hin2 & _ & Hstep2).
  fold r2 in Hc2, Hstep2.
  rewrite G1, G5, Hu1, Hmax in Hstep2. simpl in Hstep2. destruct Hstep2 as [Hu2 Hr2].
  assert (Hlive3 : t3 - createdAt c2 <= cycleTtlSeconds roomConfig * 1000) by lia.
  destruct (getCycle_live roomId roomConfig (snd r2) t3 c2 Hc2 Hlive3)
    as (K1 & _ & K3 & K4 & K5).
  destruct (tryConsumeTurn_cycle io roomId roomConfig (snd r2) t3)
    as (c3 & Hc3 & Hcr3 & Hin3 & _ & Hstep3).
  fold r3 in Hc3, Hstep3.
  rewrite K1, K5, Hu2, Hmax in Hstep3. simpl in Hstep3. destruct Hstep3 as [Hu3 Hr3].
  repeat split; try assumption.
  exists c3. split; [exact Hc3|]. split; [lia|].
  intros Hgap r4.
  split.
  - apply (registerInboundExternal_resets io roomId roomConfig (snd r3) t4).
    intros c Hc. rewrite Hc3 in Hc. injection Hc as <-. lia.
  - apply (registerInboundExternal_stored io roomId roomConfig (snd r3) t4).
Qed.

Lemma tryConsumeTurn_budget_of_two_witness :
  let r1 := tryConsumeTurn quietIO (constructor false ∅) "room" room2turns 1000 in
  let r2 := tryConsumeTurn quietIO (snd r1) "room" room2turns 2000 in
  let r3 := tryConsumeTurn quietIO (snd r2) "room" room2turns 3000 in
  fst r1 = {| tr_ok := true; tr_turnsUsed := 1; tr_maxTurns := 2 |} /\
  fst r2 = {| tr_ok := true; tr_turnsUsed := 2; tr_maxTurns := 2 |} /\
  fst r3 = {| tr_ok := false; tr_turnsUsed := 2; tr_maxTurns := 2 |} /\
  exists used,
    cycles (snd r3) !! "room" = Some used /\ turnsUsed used = 2 /\
    (9000 - lastInboundAt used > DEBOUNCE_MS ->
     let r4 := registerInboundExternal quietIO (snd r3) "room" room2turns 9000 in
     turnsUsed (fst r4) = 0 /\ cycles (snd r4) !! "room" = Some (fst r4)).
Proof.
  apply (tryConsumeTurn_budget_of_two quietIO (constructor false ∅) "room" room2turns
           1000 2000 3000 9000).
  - reflexivity.
  - reflexivity.
  - vm_compute; discriminate.
  - vm_compute; discriminate.
Defined.

End CycleClaims.

(** ** Properties of the read watermarks *)

Section WatermarkClaims.

Import Cache.

(** C3 as stated fails for the agent's own messages: "builder" marks the
    first message read, the second message was appended after it and is
    builder's own, and [getUnreadMessages] leaves it out. *)
Lemma getUnreadMessages_own_message_counterexample :
  let w1 := snd (appendMessage (ioAt 1000) blankWorld "R1" (draft "one" 1000 None)) in
  let w2 := snd (appendMessage (ioAt 2000) w1 "R1" (draft "two" 2000 (Some "builder"))) in
  let w3 := markAsRead (ioAt 2100) w2 "R1" "builder" (Some "m_1000_00001_k3x9") (Some 1000) in
  m_id <$> readAllMessages w3 "R1" = ["m_1000_00001_k3x9"; "m_2000_00002_k3x9"] /\
  getUnreadMessages w3 "R1" "builder" = [].
Proof. vm_compute. split; reflexivity. Qed.

(** When the watermark could not be written, nothing is marked. *)
Lemma getUnreadMessages_lock_timeout_example :
  let io := withOutcome (ioAt 3100) false true in
  let w := snd (appendMessage (ioAt 1000) blankWorld "R1" (draft "one" 1000 None)) in
  let w' := markAsRead io w "R1" "builder" (Some "m_1000_00001_k3x9") (Some 1000) in
  m_id <$> getUnreadMessages w' "R1" "builder" = ["m_1000_00001_k3x9"].
Proof. vm_compute. reflexivity. Qed.

(** When an earlier message carries the same id, the earlier one is the
    boundary. *)
Lemma getUnreadMessages_duplicate_id_example :
  let d ts := {| d_id := Some "dup"; d_ts := Some ts; d_sender := None; d_senderId := None;
                 d_sourceAgent := None; d_content := Some "x"; d_mentions := None;
                 d_type := None |} in
  let w1 := snd (appendMessage (ioAt 1000) blankWorld "R1" (d 1000)) in
  let w2 := snd (appendMessage (ioAt 2000) w1 "R1" (d 2000)) in
  let w3 := markAsRead (ioAt 2100) w2 "R1" "builder" (Some "dup") (Some 2000) in
  m_ts <$> getUnreadMessages w3 "R1" "builder" = [2000].
Proof. vm_compute. reflexivity. Qed.

(** The agent id [__proto__] gets no watermark: the assignment in
    [markAsRead] sets the prototype of the parsed object, nothing is stored
    under the name, and every message stays unread. *)
Lemma getUnreadMessages_proto_agent_example :
  let w1 := snd (appendMessage (ioAt 1000) blankWorld "R1" (draft "one" 1000 None)) in
  let w2 := snd (appendMessage (ioAt 2000) w1 "R1" (draft "two" 2000 None)) in
  let w3 := markAsRead (ioAt 2100) w2 "R1" "__proto__" (Some "m_1000_00001_k3x9") (Some 1000) in
  getWatermarks w3 "R1" = ∅ /\
  (m_id <$> getUnreadMessages w3 "R1" "__proto__")
  = ["m_1000_00001_k3x9"; "m_2000_00002_k3x9"].
Proof. vm_compute. split; reflexivity. Qed.

(** C3, as the code has it: once [markAsRead(room, agent, m.id, m.ts)] has
    written the watermark, for an agent id other than [__proto__] and a
    message [m] of the log whose id is not empty, has no surrounding white
    space and is not carried by an earlier message, [getUnreadMessages] is
    exactly the messages appended after [m] that are not the agent's own:
    [m] and everything before it are left out. *)
Theorem getUnreadMessages_after_markAsRead
    (io : IO) (w : World) (roomId agentId : string) (pre post : list Message) (m : Message) :
  roomId <> EmptyString -> agentId <> EmptyString ->
  agentId <> "__proto__" ->
  lock_ok io = true -> write_ok io = true ->
  readAllMessages w roomId = (pre ++ m :: post)%list ->
  m_id m <> EmptyString ->
  Js.trim (m_id m) = m_id m ->
  (forall x, x ∈ pre -> m_id x <> m_id m) ->
  getUnreadMessages
    (markAsRead io w roomId agentId (Some (m_id m)) (Some (m_ts m))) roomId agentId
  = List.filter (fun x => negb (String.eqb (m_sourceAgent x) agentId)) post.
Proof.
  intros Hr Ha Hp Hl Hw Hlog Hid Htrim Hfirst.
  rewrite (markAsRead_written io w roomId agentId _ _ Hr Ha Hl Hw Hp).
  unfold getUnreadMessages.
  rewrite (truthy_true _ Hr), (truthy_true _ Ha). simpl.
  rewrite getWatermarks_set_watermarks, lookup_insert_eq.
  rewrite readAllMessages_set_watermarks, Hlog.
  f_equal. unfold startIndex. simpl.
  rewrite Htrim.
  replace (Js.or_else (m_id m) _) with (m_id m)
    by (destruct (m_id m); [congruence|reflexivity]).
  rewrite (truthy_true _ Hid).
  rewrite (findIndex_first (fun x => String.eqb (m_id x) (m_id m)) pre post m).
  - apply drop_past.
  - intros y Hy. apply String.eqb_neq. apply Hfirst. exact Hy.
  - apply String.eqb_refl.
Qed.

Lemma getUnreadMessages_after_markAsRead_witness :
  getUnreadMessages
    (markAsRead (ioAt 3100) threeMessages "R1" "researcher"
       (Some "m_2000_00002_k3x9") (Some 2000)) "R1" "researcher"
  = [ {| m_id := "m_3000_00003_k3x9"; m_ts := 3000; m_sender := "Finley";
         m_senderId := EmptyString; m_sourceAgent := EmptyString; m_content := "three";
         m_mentions := []; m_type := "message" |} ].
Proof.
  apply (getUnreadMessages_after_markAsRead (ioAt 3100) threeMessages "R1" "researcher"
           [ {| m_id := "m_1000_00001_k3x9"; m_ts := 1000; m_sender := "Finley";
                m_senderId := EmptyString; m_sourceAgent := EmptyString; m_content := "one";
                m_mentions := []; m_type := "message" |} ]
           [ {| m_id := "m_3000_00003_k3x9"; m_ts := 3000; m_sender := "Finley";
                m_senderId := EmptyString; m_sourceAgent := EmptyString; m_content := "three";
                m_mentions := []; m_type := "message" |} ]
           {| m_id := "m_2000_00002_k3x9"; m_ts := 2000; m_sender := "Finley";
              m_senderId := EmptyString; m_sourceAgent := EmptyString; m_content := "two";
              m_mentions := []; m_type := "message" |}).
  - discriminate.
  - discriminate.
  - discriminate.
  - reflexivity.
  - reflexivity.
  - vm_compute. reflexivity.
  - discriminate.
  - vm_compute. reflexivity.
  - intros x Hx. apply elem_of_cons in Hx as [->|Hx]; [discriminate|inversion Hx].
Defined.

(** C10 as stated fails for a negative [upToTs]: it is a truthy number, so
    it is stored as it is and the watermark is not positive. *)
Lemma markAsRead_negative_ts_counterexample :
  let w := markAsRead (ioAt 3100) threeMessages "R1" "builder" (Some "m9") (Some (-5)) in
  lastReadTs <$> (getWatermarks w "R1" !! "builder") = Some (-5).
Proof. vm_compute. reflexivity. Qed.

(** When the lock times out the agent may have no watermark at all. *)
Lemma markAsRead_lock_timeout_example :
  let io := withOutcome (ioAt 3100) false true in
  let w := markAsRead io blankWorld "R1" "builder" (Some "m9") (Some 2000) in
  getWatermarks w "R1" !! "builder" = None.
Proof. vm_compute. reflexivity. Qed.

(** For the agent id [__proto__] a [markAsRead] that takes the lock and
    writes the file leaves the agent without a watermark. *)
Lemma markAsRead_proto_agent_example :
  let w := markAsRead (ioAt 3100) threeMessages "R1" "__proto__" (Some "m9") (Some 2000) in
  getWatermarks w "R1" !! "__proto__" = None /\
  getWatermarks w "R1" = getWatermarks threeMessages "R1".
Proof. vm_compute. split; reflexivity. Qed.

(** C10, as the code has it: when [markAsRead] (non-empty room and agent,
    the agent id not being [__proto__]) has written the watermark, an empty
    [upToMessageId] keeps the stored [lastReadId] and any other one replaces
    it; a zero or non-numeric [upToTs] stores the current time and any other
    number is stored as it is; so [lastReadTs] is never zero, and it is
    positive unless [upToTs] is negative.  The clock is taken to be
    positive. *)
Theorem markAsRead_watermark
    (io : IO) (w : World) (roomId agentId : string)
    (upToMessageId : option string) (upToTs : option Z) :
  roomId <> EmptyString -> agentId <> EmptyString ->
  agentId <> "__proto__" ->
  lock_ok io = true -> write_ok io = true ->
  0 < now io ->
  exists wm,
    getWatermarks (markAsRead io w roomId agentId upToMessageId upToTs) roomId !! agentId
    = Some wm /\
    (asString upToMessageId = EmptyString ->
     lastReadId wm = from_option lastReadId EmptyString (getWatermarks w roomId !! agentId)) /\
    (asString upToMessageId <> EmptyString -> lastReadId wm = asString upToMessageId) /\
    (upToTs = None \/ upToTs = Some 0 -> lastReadTs wm = now io) /\
    (forall z, upToTs = Some z -> z <> 0 -> lastReadTs wm = z) /\
    lastReadTs wm <> 0 /\
    ((forall z, upToTs = Some z -> 0 <= z) -> 0 < lastReadTs wm).
Proof.
  intros Hr Ha Hp Hl Hw Hnow.
  rewrite (markAsRead_written io w roomId agentId _ _ Hr Ha Hl Hw Hp).
  rewrite getWatermarks_set_watermarks, lookup_insert_eq.
  eexists. split; [reflexivity|]. simpl.
  split; [intros ->; reflexivity|].
  split; [intros H; destruct (asString upToMessageId); [congruence|reflexivity]|].
  split; [intros [->| ->]; reflexivity|].
  split.
  { intros z -> Hz. simpl. destruct (Z.eqb_spec z 0); [contradiction|reflexivity]. }
  split.
  { destruct upToTs as [z|]; simpl; [|lia].
    destruct (Z.eqb_spec z 0); lia. }
  intros Hpos. destruct upToTs as [z|]; simpl; [|lia].
  specialize (Hpos z eq_refl). destruct (Z.eqb_spec z 0); lia.
Qed.

Lemma markAsRead_watermark_witness :
  exists wm,
    getWatermarks (markAsRead (ioAt 3100) threeMessages "R1" "builder" None None) "R1"
      !! "builder" = Some wm /\
    lastReadId wm = "m_1000_00001_k3x9" /\ lastReadTs wm = 3100.
Proof.
  destruct (markAsRead_watermark (ioAt 3100) threeMessages "R1" "builder" None None)
    as (wm & Hwm & Hid & _ & Hts & _).
  - discriminate.
  - discriminate.
  - discriminate.
  - reflexivity.
  - reflexivity.
  - reflexivity.
  - exists wm. split; [exact Hwm|]. split.
    + rewrite (Hid eq_refl). vm_compute. reflexivity.
    + rewrite Hts; [reflexivity|left; reflexivity].
Defined.

End WatermarkClaims.

(** ** Properties of the task board *)

Section BoardClaims.

Import Board.

Lemma updateSlots_plain (slots : gmap string Slot) (actor status note : string) (now : Z) :
  actor ∉ JsObj.protoKeys ->
  updateSlots None slots actor status note now
  = Some (<[actor := updateSlot (slots !! actor) status note now]> slots).
Proof.
  intros Hplain. unfold updateSlots, readSlot.
  destruct (slots !! actor); [reflexivity|].
  rewrite bool_decide_eq_false_2 by exact Hplain. reflexivity.
Qed.

(** An actor named like a member of [Object.prototype] that has no slot of
    its own never gets one. *)
Lemma updateSlots_inherited (inherited : option Slot) (slots : gmap string Slot)
    (actor status note : string) (now : Z) :
  actor ∈ JsObj.protoKeys -> slots !! actor = None ->
  updateSlots inherited slots actor status note now = Some slots.
Proof.
  intros Hin Hnone. unfold updateSlots, readSlot. rewrite Hnone.
  unfold JsObj.protoKeys in Hin.
  repeat (apply elem_of_cons in Hin as [->|Hin];
          [destruct inherited; vm_compute; reflexivity|]).
  inversion Hin.
Qed.

(** What a successful [updateTask] did. *)
Lemma updateTask_updated (self : TaskBoard) (io : IO) (w : World) (roomId : string)
    (params : UpdateParams) (closed : bool) (task' : Task) (w' : World) :
  updateTask self io w roomId params = (Updated closed task', w') ->
  let taskId := asString (up_taskId params) in
  let status := Js.toLowerCase (asString (up_status params)) in
  let actor := Js.or_else (asString (up_actor params)) "unknown" in
  let note := Js.or_else (asString (up_note params)) EmptyString in
  exists task b,
    getTask io w roomId taskId = Some task /\
    updateSlots (getSlotsPrototype io w roomId taskId) (t_slots task) actor status note (now io)
    = Some (t_slots task') /\
    t_status task' = deriveTaskStatus (t_slots task') /\
    closed = isTerminal (deriveTaskStatus (t_slots task')) /\
    w' = _saveBoard io
           (if closed
            then removeActive io (writeHistory io w roomId taskId task') roomId taskId
            else writeActive io w roomId taskId task')
           roomId b.
Proof.
  unfold updateTask. cbv zeta.
  destruct (negb (Js.truthy roomId) || _ || _); [discriminate|].
  unfold withFileLock.
  destruct (lock_ok io); [|discriminate].
  destruct (getTask io w roomId (asString (up_taskId params))) as [task|]; [|discriminate].
  destruct (updateSlots _ _ _ _ _ _) as [slots|] eqn:Hslots; [|discriminate].
  destruct (isTerminal (deriveTaskStatus _)) eqn:Hterm; simpl; intros H;
    injection H as <- <- <-; exists task; eexists;
    (split; [reflexivity|]); (split; [exact Hslots|]);
    simpl; rewrite Hterm; repeat split; reflexivity.
Qed.

Lemma updateSlot_status (prev : option Slot) (status note : string) (now : Z) :
  s_status (updateSlot prev status note now) = status.
Proof. destruct prev; reflexivity. Qed.

(** [updateTask] succeeds only by updating. *)
Lemma updateTask_ok (self : TaskBoard) (io : IO) (w : World) (roomId : string)
    (params : UpdateParams) :
  ok (fst (updateTask self io w roomId params)) = true ->
  exists closed task',
    updateTask self io w roomId params
    = (Updated closed task', snd (updateTask self io w roomId params)).
Proof.
  destruct (updateTask self io w roomId params) as [r w'] eqn:E.
  destruct r; simpl; try discriminate; intros _.
  - exfalso. revert E. unfold updateTask. cbv zeta.
    destruct (negb (Js.truthy roomId) || _ || _); [discriminate|].
    unfold withFileLock.
    destruct (lock_ok io); [|discriminate].
    destruct (getTask io w roomId (asString (up_taskId params))); [|discriminate].
    destruct (updateSlots _ _ _ _ _ _); [|discriminate].
    destruct (isTerminal (deriveTaskStatus _)); discriminate.
  - eauto.
Qed.


(** The archiving of a closed task is not checked: when the history file
    cannot be written the active file is removed all the same, and the task
    is in neither directory. *)
Lemma updateTask_archive_failure_example :
  let io := {| now := 2000; lock_ok := true; write_task_ok := true;
               write_history_ok := false; remove_ok := true; write_board_ok := true |} in
  let r := updateTask defaultBoard io withT1 "R1" (signal "T-1" "done" "builder") in
  (exists t, fst r = Updated true t /\ t_status t = "done") /\
  history (roomTasks (snd r) "R1") = ∅ /\
  active (roomTasks (snd r) "R1") = ∅.
Proof.
  vm_compute. split; [eexists; split; reflexivity|]. split; reflexivity.
Qed.

(** A legacy record assigned to [__proto__]: the migrated slot becomes the
    prototype of [slots], so the actor "status" reads its status string, the
    assignment of a field to that string throws inside the lock and the call
    answers [lock_failed] with nothing written, while the actor "history"
    reads the history array and is answered [ok] without a slot. *)
Lemma updateTask_legacy_prototype_example :
  let legacy :=
    {| lt_taskId := "T-7"; lt_summary := "old"; lt_status := Some "in_progress";
       lt_assignee := "__proto__"; lt_owner := "main"; lt_rounds := None;
       lt_lastNote := EmptyString; lt_createdBy := "main"; lt_createdAt := 10;
       lt_updatedAt := 20; lt_closedAt := 0; lt_history := [] |} in
  let w : World :=
    {[ "R1" := {| active := {[ "T-7" := Legacy legacy ]}; history := ∅; board := None |} ]} in
  updateTask defaultBoard (boardIO 2000) w "R1" (signal "T-7" "done" "status")
  = (LockFailed, w) /\
  exists t,
    fst (updateTask defaultBoard (boardIO 2000) w "R1" (signal "T-7" "done" "history"))
    = Updated false t /\ t_slots t = ∅ /\ t_status t = "create".
Proof.
  vm_compute. split; [reflexivity|]. eexists. repeat split; reflexivity.
Qed.



(** Two agents signalling on one task: each has its own slot, and the task
    closes only with the last of them. *)
Lemma two_actors_example :
  let r1 := updateTask defaultBoard (boardIO 2000) withT1 "R1" (signal "T-1" "done" "builder") in
  let w0 := snd (updateTask defaultBoard (boardIO 1500) withT1 "R1" (signal "T-1" "ack" "main")) in
  let r2 := updateTask defaultBoard (boardIO 2000) w0 "R1" (signal "T-1" "done" "builder") in
  let r3 := updateTask defaultBoard (boardIO 3000) (snd r2) "R1" (signal "T-1" "review_ok" "main") in
  (exists t, fst r1 = Updated true t /\ t_status t = "done") /\
  (exists t, fst r2 = Updated false t /\ t_status t = "ack" /\ size (t_slots t) = 2%nat) /\
  (exists t, fst r3 = Updated true t /\ t_status t = "done" /\ size (t_slots t) = 2%nat) /\
  length (listActiveTasks (boardIO 3000) (snd r2) "R1") = 1%nat /\
  length (listActiveTasks (boardIO 3000) (snd r3) "R1") = 0%nat.
Proof.
  vm_compute. repeat split; eexists; repeat split; reflexivity.
Qed.

(** What a successful [createTask] did. *)
Lemma createTask_created (self : TaskBoard) (io : IO) (w : World) (roomId : string)
    (params : CreateParams) (task : Task) (w1 : World) :
  createTask self io w roomId params = (Created task, w1) ->
  Js.truthy roomId = true /\ Js.truthy (asString (cp_taskId params)) = true /\
  length (t_globalHistory task) = 1%nat /\ t_slots task = ∅ /\
  t_taskId task = asString (cp_taskId params) /\
  exists b, w1 = _saveBoard io (writeActive io w roomId (asString (cp_taskId params)) task)
                   roomId b.
Proof.
  unfold createTask. cbv zeta.
  destruct (Js.truthy roomId); [|discriminate].
  destruct (Js.truthy (asString (cp_taskId params))); [|discriminate].
  simpl. unfold withFileLock.
  destruct (lock_ok io); [|discriminate].
  destruct (Z.geb _ _); [discriminate|].
  destruct (getTask io w roomId (asString (cp_taskId params))); [discriminate|].
  simpl. intros H. injection H as <- <-.
  repeat split; try reflexivity. eexists. reflexivity.
Qed.

(** C7 as stated fails at the ceiling: with room for one active task the
    second [createTask] of the same id is refused for the count of active
    tasks, which is checked before the id. *)
Lemma duplicate_create_at_ceiling_counterexample :
  let r1 := createTask boardOfOne (boardIO 1000) ∅ "R1" (newTask "T-1" "ship") in
  let r2 := createTask boardOfOne (boardIO 1100) (snd r1) "R1" (newTask "T-1" "again") in
  ok (fst r1) = true /\
  fst r2 = MaxActiveReached 1 /\
  reason (fst r2) = "max_active_reached".
Proof. vm_compute. repeat split; reflexivity. Qed.

(** [createTask] succeeds only by creating. *)
Lemma createTask_ok (self : TaskBoard) (io : IO) (w : World) (roomId : string)
    (params : CreateParams) :
  ok (fst (createTask self io w roomId params)) = true ->
  exists task,
    createTask self io w roomId params = (Created task, snd (createTask self io w roomId params)).
Proof.
  destruct (createTask self io w roomId params) as [r w'] eqn:E.
  destruct r; simpl; try discriminate; intros _.
  - eauto.
  - exfalso. revert E. unfold createTask. cbv zeta.
    destruct (negb (Js.truthy roomId) || _); [discriminate|].
    unfold withFileLock.
    destruct (lock_ok io); [|discriminate].
    destruct (Z.geb _ _); [discriminate|].
    destruct (getTask io w roomId (asString (cp_taskId params))); discriminate.
Qed.

(** C7, as the code has it: after a [createTask] that succeeded and wrote the
    task file, a second [createTask] with the same [taskId] that obtains the
    lock while the room is below its ceiling of active tasks answers
    [ok = false] with reason [already_exists], carrying the stored task; no
    file changes, and the task still has one [globalHistory] entry.  At the
    ceiling the second call answers [max_active_reached], and nothing changes
    either. *)
Theorem createTask_twice
    (self : TaskBoard) (io1 io2 : IO) (w : World) (roomId : string)
    (params1 params2 : CreateParams) :
  let first := createTask self io1 w roomId params1 in
  let second := createTask self io2 (snd first) roomId params2 in
  let count := length (listActiveTasks io2 (snd first) roomId) in
  ok (fst first) = true ->
  write_task_ok io1 = true ->
  asString (cp_taskId params2) = asString (cp_taskId params1) ->
  lock_ok io2 = true ->
  exists task,
    fst first = Created task /\
    snd second = snd first /\
    getTask io2 (snd first) roomId (asString (cp_taskId params1)) = Some task /\
    length (t_globalHistory task) = 1%nat /\
    (Z.of_nat count < maxActiveTasks self ->
     fst second = AlreadyExists task /\
     ok (fst second) = false /\ reason (fst second) = "already_exists") /\
    (maxActiveTasks self <= Z.of_nat count ->
     fst second = MaxActiveReached count).
Proof.
  intros first second count Hok Hwrite Hid Hlock.
  destruct (createTask_ok self io1 w roomId params1 Hok) as [task H].
  fold first in H.
  destruct (createTask_created self io1 w roomId params1 task (snd first) H)
    as (Hroom & Htid & Hhist & _ & _ & b & Hw1).
  assert (Hget : getTask io2 (snd first) roomId (asString (cp_taskId params1)) = Some task).
  { unfold getTask. rewrite Hw1, active_saveBoard, (active_writeActive _ _ _ _ _ Hwrite).
    rewrite lookup_insert_eq. reflexivity. }
  exists task.
  split; [unfold first in *; rewrite H; reflexivity|].
  unfold second, createTask. cbv zeta.
  rewrite Hid, Hroom, Htid. simpl. unfold withFileLock. rewrite Hlock.
  fold count. rewrite Hget.
  destruct (Z.geb_spec (Z.of_nat count) (maxActiveTasks self)); simpl.
  - repeat split; auto; intros; try lia.
  - repeat split; auto; intros; try lia.
Qed.

Lemma createTask_twice_witness :
  let first := createTask defaultBoard (boardIO 1000) ∅ "R1" (newTask "T-1" "ship") in
  let second := createTask defaultBoard (boardIO 1100) (snd first) "R1" (newTask " T-1 " "again") in
  let count := length (listActiveTasks (boardIO 1100) (snd first) "R1") in
  exists task,
    fst first = Created task /\
    snd second = snd first /\
    getTask (boardIO 1100) (snd first) "R1" (asString (cp_taskId (newTask "T-1" "ship")))
    = Some task /\
    length (t_globalHistory task) = 1%nat /\
    (Z.of_nat count < maxActiveTasks defaultBoard ->
     fst second = AlreadyExists task /\
     ok (fst second) = false /\ reason (fst second) = "already_exists") /\
    (maxActiveTasks defaultBoard <= Z.of_nat count ->
     fst second = MaxActiveReached count).
Proof.
  apply (createTask_twice defaultBoard (boardIO 1000) (boardIO 1100) ∅ "R1"
           (newTask "T-1" "ship") (newTask " T-1 " "again")).
  - vm_compute. reflexivity.
  - reflexivity.
  - reflexivity.
  - reflexivity.
Defined.

End BoardClaims.

(** ** Further properties of the message cache *)

Section CacheExtras.

Import Cache.

Lemma filter_sublist {A : Type} (f : A -> bool) (l : list A) :
  sublist (List.filter f l) l.
Proof.
  induction l as [|x l IH]; simpl; [constructor|].
  destruct (f x); [apply sublist_skip|apply sublist_cons]; exact IH.
Qed.

Lemma elem_of_filter_bool {A : Type} (f : A -> bool) (l : list A) (x : A) :
  x ∈ List.filter f l <-> x ∈ l /\ f x = true.
Proof. rewrite !list_elem_of_In. apply filter_In. Qed.

(** The unread messages are messages of the log, in log order, and none of
    them is the agent's own. *)
Theorem getUnreadMessages_never_own (w : World) (roomId agentId : string) :
  sublist (getUnreadMessages w roomId agentId) (readAllMessages w roomId) /\
  forall m, m ∈ getUnreadMessages w roomId agentId -> m_sourceAgent m <> agentId.
Proof.
  unfold getUnreadMessages.
  destruct (negb (Js.truthy roomId) || negb (Js.truthy agentId)).
  - split; [apply sublist_nil_l|]. intros m Hm. inversion Hm.
  - split.
    + etransitivity; [apply filter_sublist|apply sublist_drop].
    + intros m Hm. apply elem_of_filter_bool in Hm as [_ Hm].
      apply negb_true_iff, String.eqb_neq in Hm. exact Hm.
Qed.

Lemma indexByTs_cons (t : Z) (m : Message) (l : list Message) :
  indexByTs t (m :: l) = if Z.gtb (m_ts m) t then O else S (indexByTs t l).
Proof.
  unfold indexByTs. simpl. destruct (Z.gtb (m_ts m) t); [reflexivity|].
  destruct (Js.findIndex _ l); reflexivity.
Qed.

Lemma drop_indexByTs_chronological (t : Z) (l : list Message) :
  chronological l ->
  drop (indexByTs t l) l = List.filter (fun m => Z.gtb (m_ts m) t) l.
Proof.
  induction l as [|m l IH]; intros Hc; [reflexivity|].
  destruct Hc as [Hm Hc]. rewrite indexByTs_cons. simpl.
  destruct (Z.gtb_spec (m_ts m) t) as [Hgt|Hle].
  - simpl. f_equal. symmetry. apply forallb_filter_id.
    apply forallb_forall. intros x Hx. apply list_elem_of_In in Hx.
    specialize (Hm x Hx). apply Z.gtb_lt. lia.
  - simpl. apply IH. exact Hc.
Qed.

Lemma elem_of_drop_indexByTs (t : Z) (l : list Message) (m : Message) :
  m ∈ l -> t < m_ts m -> m ∈ drop (indexByTs t l) l.
Proof.
  induction l as [|x l IH]; intros Hm Ht; [inversion Hm|].
  rewrite indexByTs_cons.
  destruct (Z.gtb_spec (m_ts x) t) as [Hgt|Hle]; [exact Hm|].
  simpl. apply elem_of_cons in Hm as [->|Hm]; [lia|]. apply IH; assumption.
Qed.

Lemma filter_filter_bool {A : Type} (f g : A -> bool) (l : list A) :
  List.filter f (List.filter g l) = List.filter (fun x => g x && f x) l.
Proof.
  induction l as [|x l IH]; simpl; [reflexivity|].
  destruct (g x); simpl; [destruct (f x)|]; rewrite IH; reflexivity.
Qed.

Lemma findIndex_none {A : Type} (p : A -> bool) (l : list A) :
  (forall x, x ∈ l -> p x = false) -> Js.findIndex p l = None.
Proof.
  induction l as [|x l IH]; intros H; simpl; [reflexivity|].
  rewrite (H x) by (apply elem_of_cons; left; reflexivity).
  rewrite IH; [reflexivity|].
  intros y Hy. apply H. apply elem_of_cons. right. exact Hy.
Qed.

(** The start index when the watermark's id is of no use. *)
Lemma startIndex_by_timestamp (l : list Message) (wm : Watermark) :
  0 < lastReadTs wm ->
  lastReadId wm = EmptyString \/ (forall m, m ∈ l -> m_id m <> lastReadId wm) ->
  startIndex l (Some wm) = indexByTs (lastReadTs wm) l.
Proof.
  intros Hts Hid. unfold startIndex, indexByTs. simpl.
  destruct (Z.gtb_spec (lastReadTs wm) 0); [|lia].
  destruct (Js.truthy (lastReadId wm)) eqn:Ht; [|reflexivity].
  destruct Hid as [Hid|Hid]; [rewrite Hid in Ht; discriminate|].
  rewrite findIndex_none; [reflexivity|].
  intros x Hx. apply String.eqb_neq. apply Hid. exact Hx.
Qed.

(** When the watermark has no id, or an id that is not in the log, and a
    positive timestamp, the unread messages of a log whose timestamps never
    decrease are the messages newer than the watermark that are not the
    agent's own. *)
Theorem getUnreadMessages_by_timestamp
    (w : World) (roomId agentId : string) (wm : Watermark) :
  roomId <> EmptyString -> agentId <> EmptyString ->
  getWatermarks w roomId !! agentId = Some wm ->
  0 < lastReadTs wm ->
  lastReadId wm = EmptyString \/
    (forall m, m ∈ readAllMessages w roomId -> m_id m <> lastReadId wm) ->
  chronological (readAllMessages w roomId) ->
  getUnreadMessages w roomId agentId
  = List.filter
      (fun m => Z.gtb (m_ts m) (lastReadTs wm) && negb (String.eqb (m_sourceAgent m) agentId))
      (readAllMessages w roomId).
Proof.
  intros Hr Ha Hwm Hts Hid Hc. unfold getUnreadMessages.
  rewrite (truthy_true _ Hr), (truthy_true _ Ha). simpl.
  rewrite Hwm, (startIndex_by_timestamp _ wm Hts Hid).
  rewrite (drop_indexByTs_chronological _ _ Hc). apply filter_filter_bool.
Qed.

Lemma getUnreadMessages_by_timestamp_witness :
  let w := resetWatermarkBefore (ioAt 3200) threeMessages "R1" "builder" (Some 2001) in
  m_ts <$> getUnreadMessages w "R1" "builder" = [3000].
Proof.
  cbv zeta.
  rewrite (getUnreadMessages_by_timestamp
             (resetWatermarkBefore (ioAt 3200) threeMessages "R1" "builder" (Some 2001))
             "R1" "builder" {| lastReadId := EmptyString; lastReadTs := 2000 |}).
  - vm_compute. reflexivity.
  - discriminate.
  - discriminate.
  - vm_compute. reflexivity.
  - reflexivity.
  - left. reflexivity.
  - vm_compute. repeat split; intros x Hx;
      repeat (apply elem_of_cons in Hx as [->|Hx]; [vm_compute; discriminate|]);
      inversion Hx.
Defined.

(** The unread messages once [markAsRead] has written the watermark for a
    message of the log. *)
Lemma unread_after_written_mark
    (io : IO) (w : World) (roomId agentId : string) (pre post : list Message) (m : Message) :
  roomId <> EmptyString -> agentId <> EmptyString -> agentId <> "__proto__" ->
  lock_ok io = true -> write_ok io = true ->
  readAllMessages w roomId = (pre ++ m :: post)%list ->
  m_id m <> EmptyString -> Js.trim (m_id m) = m_id m ->
  (forall x, x ∈ pre -> m_id x <> m_id m) ->
  getUnreadMessages
    (markAsRead io w roomId agentId (Some (m_id m)) (Some (m_ts m))) roomId agentId
  = List.filter (fun x => negb (String.eqb (m_sourceAgent x) agentId)) post.
Proof.
  intros Hr Ha Hp Hl Hw Hlog Hid Htrim Hfirst.
  rewrite (markAsRead_written io w roomId agentId _ _ Hr Ha Hl Hw Hp).
  unfold getUnreadMessages.
  rewrite (truthy_true _ Hr), (truthy_true _ Ha). simpl.
  rewrite getWatermarks_set_watermarks, lookup_insert_eq.
  rewrite readAllMessages_set_watermarks, Hlog.
  f_equal. unfold startIndex. simpl. rewrite Htrim.
  replace (Js.or_else (m_id m) _) with (m_id m)
    by (destruct (m_id m); [congruence|reflexivity]).
  rewrite (truthy_true _ Hid).
  rewrite (findIndex_first (fun x => String.eqb (m_id x) (m_id m)) pre post m).
  - apply drop_past.
  - intros y Hy. apply String.eqb_neq. apply Hfirst. exact Hy.
  - apply String.eqb_refl.
Qed.

(** [markAllAsRead] does nothing on an empty log; otherwise, once it has
    written the watermark for the last message (whose id is not empty, has no
    surrounding white space and is not carried by an earlier message),
    nothing is unread, for every agent id but [__proto__]: under that name
    no watermark is stored, and whatever was unread stays unread. *)
Theorem markAllAsRead_clears
    (io : IO) (w : World) (roomId agentId : string) (pre : list Message) (m : Message) :
  (readAllMessages w roomId = [] -> markAllAsRead io w roomId agentId = w) /\
  (roomId <> EmptyString -> agentId <> EmptyString -> agentId <> "__proto__" ->
   lock_ok io = true -> write_ok io = true ->
   readAllMessages w roomId = (pre ++ [m])%list ->
   m_id m <> EmptyString -> Js.trim (m_id m) = m_id m ->
   (forall x, x ∈ pre -> m_id x <> m_id m) ->
   getUnreadMessages (markAllAsRead io w roomId agentId) roomId agentId = []) /\
  (getWatermarks w roomId !! "__proto__" = None ->
   getUnreadMessages (markAllAsRead io w roomId "__proto__") roomId "__proto__"
   = getUnreadMessages w roomId "__proto__").
Proof.
  split; [|split].
  - intros H. unfold markAllAsRead. rewrite H. reflexivity.
  - intros Hr Ha Hp Hl Hw Hlog Hid Htrim Hfirst.
    unfold markAllAsRead. rewrite Hlog, last_snoc.
    rewrite (unread_after_written_mark io w roomId agentId pre [] m); auto.
  - intros Hnone. unfold markAllAsRead.
    destruct (last (readAllMessages w roomId)) as [m'|]; [|reflexivity].
    unfold markAsRead, withFileLock, writeWatermarks.
    destruct (negb (Js.truthy roomId) || negb (Js.truthy "__proto__")); [reflexivity|].
    destruct (lock_ok io); [|reflexivity]. simpl.
    destruct (write_ok io); [|reflexivity].
    rewrite (assign_proto _ _ Hnone).
    unfold getUnreadMessages.
    rewrite getWatermarks_set_watermarks, readAllMessages_set_watermarks. reflexivity.
Qed.

Lemma markAllAsRead_clears_witness :
  getUnreadMessages (markAllAsRead (ioAt 3300) threeMessages "R1" "researcher")
    "R1" "researcher" = [].
Proof.
  apply (proj1 (proj2 (markAllAsRead_clears (ioAt 3300) threeMessages "R1" "researcher"
           (firstn 2 (readAllMessages threeMessages "R1"))
           {| m_id := "m_3000_00003_k3x9"; m_ts := 3000; m_sender := "Finley";
              m_senderId := EmptyString; m_sourceAgent := EmptyString;
              m_content := "three"; m_mentions := []; m_type := "message" |}))).
  - discriminate.
  - discriminate.
  - discriminate.
  - reflexivity.
  - reflexivity.
  - vm_compute. reflexivity.
  - discriminate.
  - vm_compute. reflexivity.
  - intros x Hx. vm_compute in Hx.
    repeat (apply elem_of_cons in Hx as [->|Hx]; [discriminate|]). inversion Hx.
Defined.

(** [resetWatermarkBefore], once written, makes every message of the log
    with a timestamp of [beforeTs] or later unread again, the agent's own
    ones excepted. *)
Theorem resetWatermarkBefore_replays
    (io : IO) (w : World) (roomId agentId : string) (beforeTs : Z) (m : Message) :
  roomId <> EmptyString -> agentId <> EmptyString ->
  lock_ok io = true -> write_ok io = true ->
  m ∈ readAllMessages w roomId ->
  beforeTs <= m_ts m ->
  m_sourceAgent m <> agentId ->
  m ∈ getUnreadMessages (resetWatermarkBefore io w roomId agentId (Some beforeTs))
        roomId agentId.
Proof.
  intros Hr Ha Hl Hw Hm Hts Hsrc.
  unfold resetWatermarkBefore, withFileLock, writeWatermarks.
  rewrite (truthy_true _ Hr), (truthy_true _ Ha), Hl, Hw. simpl.
  unfold getUnreadMessages.
  rewrite (truthy_true _ Hr), (truthy_true _ Ha). simpl.
  rewrite getWatermarks_set_watermarks, readAllMessages_set_watermarks.
  apply elem_of_filter_bool. split; [|apply negb_true_iff, String.eqb_neq; exact Hsrc].
  destruct (assign_cases (getWatermarks w roomId) agentId
              {| lastReadId := EmptyString; lastReadTs := beforeTs - 1 |})
    as [E | (_ & Hnone & E)]; rewrite E.
  - rewrite lookup_insert_eq. unfold startIndex. simpl.
    destruct (Z.gtb_spec (beforeTs - 1) 0); [|exact Hm].
    apply (elem_of_drop_indexByTs (beforeTs - 1)); [exact Hm|lia].
  - rewrite Hnone. exact Hm.
Qed.

Lemma resetWatermarkBefore_replays_witness :
  {| m_id := "m_2000_00002_k3x9"; m_ts := 2000; m_sender := "Finley";
     m_senderId := EmptyString; m_sourceAgent := EmptyString;
     m_content := "two"; m_mentions := []; m_type := "message" |}
  ∈ getUnreadMessages (resetWatermarkBefore (ioAt 3200) threeMessages "R1" "builder" (Some 2000))
      "R1" "builder".
Proof.
  apply (resetWatermarkBefore_replays (ioAt 3200) threeMessages "R1" "builder" 2000).
  - discriminate.
  - discriminate.
  - reflexivity.
  - reflexivity.
  - vm_compute. apply elem_of_cons. right. apply elem_of_cons. left. reflexivity.
  - vm_compute. discriminate.
  - discriminate.
Defined.

(** A draft without marker is not taken for an injection. *)
Lemma clean_not_injection (params : Draft) :
  (forall content marker,
     d_content params = Some content -> marker ∈ injectionMarkers ->
     ~ contains content marker) ->
  isInjection (Js.or_else (asString (d_content params)) EmptyString) = false.
Proof.
  intros Hclean. rewrite or_else_empty.
  destruct (d_content params) as [content|] eqn:Hc; [|reflexivity].
  simpl asString. unfold isInjection. apply orb_false_iff. split.
  - destruct (Js.includes (Js.trim content) "[UNTRUSTED DATA") eqn:E; [|reflexivity].
    apply includes_of_trim, includes_iff in E.
    exfalso. apply (Hclean content "[UNTRUSTED DATA" eq_refl); [|exact E].
    apply elem_of_cons. left. reflexivity.
  - destruct (Js.includes (Js.trim content) "<relevant-memories>") eqn:E; [|reflexivity].
    apply includes_of_trim, includes_iff in E.
    exfalso. apply (Hclean content "<relevant-memories>" eq_refl); [|exact E].
    apply elem_of_cons. right. apply elem_of_cons. left. reflexivity.
Qed.

(** A message that [appendMessage] has written is found by
    [hasRecentMessage] for the same content, as long as its timestamp is
    inside the window and the source agent asked for is none or the one of
    the draft. *)
Theorem hasRecentMessage_after_append
    (io io' : IO) (w : World) (roomId : string) (params : Draft)
    (content sourceAgent : string) (windowMs : option Z) :
  roomId <> EmptyString ->
  d_content params = Some content -> content <> EmptyString ->
  (forall marker, marker ∈ injectionMarkers -> ~ contains content marker) ->
  lock_ok io = true -> write_ok io = true ->
  sourceAgent = EmptyString \/ asString (d_sourceAgent params) = sourceAgent ->
  now io' - Js.num_or windowMs 30000 <= Js.num_or (d_ts params) (now io) ->
  hasRecentMessage io' (snd (appendMessage io w roomId params)) roomId content sourceAgent
    windowMs = true.
Proof.
  intros Hr Hc Hne Hclean Hl Hw Hsrc Hts.
  assert (Hraw : isInjection (Js.or_else (asString (d_content params)) EmptyString) = false).
  { apply clean_not_injection. intros c marker Hc' Hm. rewrite Hc in Hc'.
    injection Hc' as <-. apply Hclean. exact Hm. }
  destruct (appendMessage_accepts io w roomId params Hr Hraw) as [_ Hlog].
  rewrite Hl, Hw in Hlog. simpl in Hlog.
  unfold hasRecentMessage.
  rewrite (truthy_true _ Hr), (truthy_true _ Hne). simpl.
  rewrite Hlog, rev_app_distr. simpl.
  destruct (Z.ltb_spec (Js.num_or (d_ts params) (now io))
              (now io' - Js.num_or windowMs 30000)); [lia|].
  rewrite Hc, or_else_empty. simpl asString. rewrite String.eqb_refl. simpl.
  destruct Hsrc as [->|Hsrc]; [reflexivity|].
  rewrite or_else_empty, Hsrc, String.eqb_refl, orb_true_r. reflexivity.
Qed.

Lemma hasRecentMessage_after_append_witness :
  hasRecentMessage (ioAt 9000)
    (snd (appendMessage (ioAt 4000) threeMessages "R1" (draft " four " 4000 (Some "builder"))))
    "R1" " four " "builder" (Some 10000) = true.
Proof.
  apply (hasRecentMessage_after_append (ioAt 4000) (ioAt 9000) threeMessages "R1"
           (draft " four " 4000 (Some "builder")) " four " "builder" (Some 10000)).
  - discriminate.
  - reflexivity.
  - discriminate.
  - intros marker Hm Hin. apply includes_iff in Hin.
    apply elem_of_cons in Hm as [->|Hm]; [vm_compute in Hin; discriminate Hin|].
    apply elem_of_cons in Hm as [->|Hm]; [vm_compute in Hin; discriminate Hin|].
    inversion Hm.
  - reflexivity.
  - reflexivity.
  - right. reflexivity.
  - vm_compute. discriminate.
Defined.

Lemma scanRecent_sound (cutoff : Z) (content sourceAgent : string) (l : list Message) :
  scanRecent cutoff content sourceAgent l = true ->
  exists msg, msg ∈ l /\ cutoff <= m_ts msg /\ m_content msg = content /\
              (sourceAgent = EmptyString \/ m_sourceAgent msg = sourceAgent).
Proof.
  induction l as [|x l IH]; simpl; [discriminate|].
  destruct (Z.ltb_spec (m_ts x) cutoff) as [Hlt|Hge]; [discriminate|].
  destruct (String.eqb (m_content x) content
            && (negb (Js.truthy sourceAgent) || String.eqb (m_sourceAgent x) sourceAgent))
    eqn:E.
  - intros _. exists x. apply andb_true_iff in E as [E1 E2].
    apply String.eqb_eq in E1.
    split; [apply elem_of_cons; left; reflexivity|]. split; [lia|]. split; [exact E1|].
    apply orb_true_iff in E2 as [E2|E2].
    + left. apply negb_true_iff, truthy_false in E2. exact E2.
    + right. apply String.eqb_eq. exact E2.
  - intros H. destruct (IH H) as (msg & Hin & Hrest).
    exists msg. split; [apply elem_of_cons; right; exact Hin|exact Hrest].
Qed.

Lemma scanRecent_complete (cutoff : Z) (content sourceAgent : string)
    (l : list Message) (msg : Message) :
  (forall x, x ∈ l -> cutoff <= m_ts x) ->
  msg ∈ l -> m_content msg = content ->
  sourceAgent = EmptyString \/ m_sourceAgent msg = sourceAgent ->
  scanRecent cutoff content sourceAgent l = true.
Proof.
  intros Hall Hin Hc Hs. induction l as [|x l IH]; [inversion Hin|]. simpl.
  destruct (Z.ltb_spec (m_ts x) cutoff) as [Hlt|_].
  { specialize (Hall x). rewrite elem_of_cons in Hall. specialize (Hall (or_introl eq_refl)). lia. }
  destruct (String.eqb (m_content x) content
            && (negb (Js.truthy sourceAgent) || String.eqb (m_sourceAgent x) sourceAgent))
    eqn:E; [reflexivity|].
  apply elem_of_cons in Hin as [->|Hin].
  - rewrite Hc, String.eqb_refl in E. simpl in E.
    destruct Hs as [->|Hs]; [discriminate|]. rewrite Hs, String.eqb_refl, orb_true_r in E.
    discriminate.
  - apply IH; [|exact Hin]. intros y Hy. apply Hall. apply elem_of_cons. right. exact Hy.
Qed.

Lemma elem_of_rev {A : Type} (l : list A) (x : A) : x ∈ rev l <-> x ∈ l.
Proof. rewrite !list_elem_of_In. symmetry. apply in_rev. Qed.

(** [hasRecentMessage] answers true only for a message of the log that is
    inside the window, has the trimmed content and, when a source agent is
    asked for, comes from it; a room id or content that is empty gives false.
    When no message of the log is older than the window, it finds every such
    message. *)
Theorem hasRecentMessage_sound
    (io : IO) (w : World) (roomId content sourceAgent : string) (windowMs : option Z) :
  let cutoff := now io - Js.num_or windowMs 30000 in
  let matches msg :=
    msg ∈ readAllMessages w roomId /\ cutoff <= m_ts msg /\
    m_content msg = asString (Some content) /\
    (sourceAgent = EmptyString \/ m_sourceAgent msg = sourceAgent) in
  (hasRecentMessage io w roomId content sourceAgent windowMs = true ->
   roomId <> EmptyString /\ content <> EmptyString /\ exists msg, matches msg) /\
  (roomId <> EmptyString -> content <> EmptyString ->
   (forall x, x ∈ readAllMessages w roomId -> cutoff <= m_ts x) ->
   forall msg, matches msg ->
   hasRecentMessage io w roomId content sourceAgent windowMs = true).
Proof.
  intros cutoff matches. unfold hasRecentMessage. split.
  - destruct (Js.truthy roomId) eqn:Hr; [|discriminate].
    destruct (Js.truthy content) eqn:Hc; [|discriminate].
    simpl. intros H. apply scanRecent_sound in H as (msg & Hin & Hrest).
    split; [intros ->; discriminate|]. split; [intros ->; discriminate|].
    exists msg. split; [|exact Hrest]. apply elem_of_rev. exact Hin.
  - intros Hr Hc Hall msg (Hin & _ & Hcontent & Hsrc).
    rewrite (truthy_true _ Hr), (truthy_true _ Hc). simpl.
    apply (scanRecent_complete _ _ _ _ msg); auto.
    + intros x Hx. apply Hall. apply elem_of_rev. exact Hx.
    + apply elem_of_rev. exact Hin.
Qed.

Lemma hasRecentMessage_sound_witness :
  hasRecentMessage (ioAt 3500) threeMessages "R1" "two" EmptyString (Some 2600) = true.
Proof.
  apply (proj2 (hasRecentMessage_sound (ioAt 3500) threeMessages "R1" "two" EmptyString
                  (Some 2600)))
    with (msg := {| m_id := "m_2000_00002_k3x9"; m_ts := 2000; m_sender := "Finley";
                    m_senderId := EmptyString; m_sourceAgent := EmptyString;
                    m_content := "two"; m_mentions := []; m_type := "message" |}).
  - discriminate.
  - discriminate.
  - intros x Hx. vm_compute in Hx.
    repeat (apply elem_of_cons in Hx as [->|Hx]; [vm_compute; discriminate|]). inversion Hx.
  - split; [|split; [vm_compute; discriminate|split; [reflexivity|left; reflexivity]]].
    vm_compute. apply elem_of_cons. right. apply elem_of_cons. left. reflexivity.
Defined.

Lemma totalChars_app (a b : list Message) :
  totalChars (a ++ b)%list = totalChars a + totalChars b.
Proof.
  induction a as [|x a IH]; simpl; [reflexivity|].
  unfold totalChars in *. simpl. rewrite IH. lia.
Qed.

Lemma totalChars_rev (l : list Message) : totalChars (rev l) = totalChars l.
Proof.
  induction l as [|x l IH]; simpl; [reflexivity|].
  rewrite totalChars_app, IH. unfold totalChars. simpl. lia.
Qed.

Lemma totalChars_nonneg (l : list Message) : 0 <= totalChars l.
Proof. induction l as [|x l IH]; unfold totalChars in *; simpl; lia. Qed.

(** The selection loop takes a prefix of the candidates (newest first) that
    fits, and stops only at the end or at a candidate that does not fit. *)
Lemma selectWithinBudget_spec (maxChars : Z) (newestFirst : list Message) :
  forall charCount selected,
  exists taken rest,
    newestFirst = (taken ++ rest)%list /\
    selectWithinBudget maxChars charCount newestFirst selected
    = (rev taken ++ selected)%list /\
    (taken <> [] -> charCount + totalChars taken <= maxChars) /\
    match rest with
    | [] => True
    | m :: _ => maxChars < charCount + totalChars taken
                           + Z.of_nat (Js.length (m_content m))
    end.
Proof.
  induction newestFirst as [|c nf IH]; intros charCount selected.
  - exists [], []. simpl. repeat split; auto. congruence.
  - simpl. destruct (Z.gtb_spec (charCount + Z.of_nat (Js.length (m_content c))) maxChars)
      as [Hover|Hfit].
    + exists [], (c :: nf). simpl. repeat split; auto; [congruence|]. unfold totalChars. simpl. lia.
    + destruct (IH (charCount + Z.of_nat (Js.length (m_content c))) (c :: selected))
        as (taken & rest & Hsplit & Hres & Hbudget & Hstop).
      exists (c :: taken), rest. split; [rewrite Hsplit; reflexivity|].
      split; [rewrite Hres; simpl; rewrite <- app_assoc; reflexivity|].
      split.
      * intros _. destruct taken as [|t taken'].
        -- unfold totalChars. simpl. lia.
        -- assert (Hb := Hbudget ltac:(discriminate)).
           unfold totalChars in *. simpl in *. lia.
      * destruct rest as [|m rest']; [exact I|].
        unfold totalChars in *. simpl in *. lia.
Qed.

(** The context block shows the newest unread messages: what is selected is
    the tail of the unread list, at most [maxMessages] long and within the
    [maxChars] budget, and [skipped] counts the unread messages before it;
    when a further message was within [maxMessages], it is left out only
    because it would not fit. *)
Theorem contextSelection_newest_within_budget
    (w : World) (roomId agentId : string) (maxMessages : option nat) (maxChars : option Z)
    (selected : list Message) (skipped : nat) :
  contextSelection w roomId agentId maxMessages maxChars = Some (selected, skipped) ->
  let unread := getUnreadMessages w roomId agentId in
  (exists older, unread = (older ++ selected)%list /\ length older = skipped) /\
  (length selected <= maxMessagesOr50 maxMessages)%nat /\
  totalChars selected <= Z.max 0 (Js.num_or maxChars 8000) /\
  ((length selected < Nat.min (length unread) (maxMessagesOr50 maxMessages))%nat ->
   exists older m, unread = (older ++ m :: selected)%list /\
     Js.num_or maxChars 8000 < Z.of_nat (Js.length (m_content m)) + totalChars selected).
Proof.
  intros H unread. unfold contextSelection in H. fold unread in H.
  destruct (Nat.eqb (length unread) 0); [discriminate|].
  injection H as Hsel Hskip. rewrite Hsel in Hskip.
  set (n := maxMessagesOr50 maxMessages) in *.
  set (candidates := Js.slice_last n unread) in *.
  destruct (selectWithinBudget_spec (Js.num_or maxChars 8000) (rev candidates) 0 [])
    as (taken & rest & Hsplit & Hres & Hbudget & Hstop).
  rewrite Hres, app_nil_r in Hsel.
  assert (Hcand : candidates = (rev rest ++ selected)%list).
  { rewrite <- (rev_involutive candidates), Hsplit, rev_app_distr, Hsel. reflexivity. }
  assert (Hunread : unread = (take (length unread - n) unread ++ candidates)%list).
  { unfold candidates, Js.slice_last. symmetry. apply take_drop. }
  assert (Hlen : (length candidates <= n)%nat).
  { unfold candidates, Js.slice_last. rewrite length_drop. lia. }
  assert (Hlen' : length candidates = Nat.min (length unread) n).
  { unfold candidates, Js.slice_last. rewrite length_drop. lia. }
  split.
  { exists (take (length unread - n) unread ++ rev rest)%list. split.
    - rewrite <- app_assoc, <- Hcand. exact Hunread.
    - rewrite <- Hskip.
      pose proof (f_equal length Hunread) as HL.
      pose proof (f_equal length Hcand) as HC.
      rewrite length_app in HL, HC. rewrite length_app. lia. }
  split.
  { rewrite Hcand, length_app in Hlen. lia. }
  split.
  { rewrite <- Hsel, totalChars_rev. destruct taken as [|t taken'].
    - unfold totalChars. simpl. lia.
    - specialize (Hbudget ltac:(discriminate)). lia. }
  intros Hmore. rewrite <- Hlen' in Hmore.
  destruct rest as [|m rest'].
  { rewrite Hcand in Hmore. simpl in Hmore. lia. }
  exists (take (length unread - n) unread ++ rev rest')%list, m. split.
  - etransitivity; [exact Hunread|]. rewrite Hcand. simpl. rewrite <- !app_assoc. reflexivity.
  - rewrite <- Hsel, totalChars_rev. lia.
Qed.

Lemma contextSelection_newest_within_budget_witness :
  let unread := getUnreadMessages threeMessages "R1" "builder" in
  exists selected skipped,
    contextSelection threeMessages "R1" "builder" (Some 5%nat) (Some 6) = Some (selected, skipped) /\
    (exists older, unread = (older ++ selected)%list /\ length older = skipped) /\
    (length selected <= 5)%nat /\ totalChars selected <= 6.
Proof.
  eexists. eexists. split; [vm_compute; reflexivity|].
  destruct (contextSelection_newest_within_budget threeMessages "R1" "builder"
              (Some 5%nat) (Some 6)
              [ {| m_id := "m_3000_00003_k3x9"; m_ts := 3000; m_sender := "Finley";
                   m_senderId := EmptyString; m_sourceAgent := EmptyString;
                   m_content := "three"; m_mentions := []; m_type := "message" |} ]
              1%nat) as (H1 & H2 & H3 & _).
  - vm_compute. reflexivity.
  - split; [exact H1|]. split; [exact H2|exact H3].
Defined.

(** The budget counts UTF-16 code units, not bytes: a content of four
    Chinese characters, twelve bytes of UTF-8, fits a budget of five. *)
Lemma contextSelection_code_units_example :
  let w := snd (appendMessage (ioAt 1000) blankWorld "R1" (draft "你好你好" 1000 None)) in
  Js.length "你好你好" = 4%nat /\ String.length "你好你好" = 12%nat /\
  exists selected,
    contextSelection w "R1" "builder" None (Some 5) = Some (selected, 0%nat) /\
    m_content <$> selected = ["你好你好"].
Proof.
  vm_compute. split; [reflexivity|]. split; [reflexivity|].
  eexists. split; reflexivity.
Qed.

(** The loop answers 0 as soon as one member has no watermark, or one
    without timestamp. *)
Lemma minReadTsLoop_missing (watermarks : gmap string Watermark) (members : list string)
    (agent : string) :
  agent ∈ members ->
  from_option lastReadTs 0 (watermarks !! agent) = 0 ->
  forall acc, minReadTsLoop watermarks members acc = Some 0.
Proof.
  induction members as [|a members IH]; intros Hin Hmiss acc; [inversion Hin|].
  simpl. destruct (watermarks !! a) as [wm|] eqn:Ha; [|reflexivity].
  destruct (Z.eqb_spec (lastReadTs wm) 0) as [|Hnz]; [reflexivity|].
  apply elem_of_cons in Hin as [->|Hin].
  - rewrite Ha in Hmiss. simpl in Hmiss. contradiction.
  - apply IH; assumption.
Qed.

(** A non-zero answer of the loop is at most every member's timestamp. *)
Lemma minReadTsLoop_lower_bound (watermarks : gmap string Watermark) (members : list string) :
  forall acc r,
  minReadTsLoop watermarks members acc = Some r -> r <> 0 ->
  (forall c, acc = Some c -> r <= c) /\
  (forall agent, agent ∈ members ->
     exists wm, watermarks !! agent = Some wm /\ r <= lastReadTs wm).
Proof.
  induction members as [|a members IH]; intros acc r H Hnz; simpl in H.
  - subst acc. split; [intros c Hc; injection Hc as ->; lia|].
    intros agent Hin. inversion Hin.
  - destruct (watermarks !! a) as [wm|] eqn:Ha; [|congruence].
    destruct (Z.eqb_spec (lastReadTs wm) 0); [congruence|].
    destruct (IH _ r H Hnz) as [Hacc Hrest].
    assert (Hwm : r <= lastReadTs wm /\ forall c, acc = Some c -> r <= c).
    { destruct acc as [c|].
      - destruct (Z.ltb_spec (lastReadTs wm) c).
        + specialize (Hacc _ eq_refl). split; [lia|]. intros c' Hc'. injection Hc' as <-. lia.
        + specialize (Hacc _ eq_refl). split; [lia|]. intros c' Hc'. injection Hc' as <-. lia.
      - specialize (Hacc _ eq_refl). split; [lia|]. intros c' Hc'. discriminate. }
    split; [exact (proj2 Hwm)|].
    intros agent Hin. apply elem_of_cons in Hin as [->|Hin].
    + exists wm. split; [exact Ha|exact (proj1 Hwm)].
    + apply Hrest. exact Hin.
Qed.

(** [cleanup] leaves every file as it is when the log is below the
    threshold, and when some member agent has no watermark (or one without
    timestamp): it never compacts while a member has never read. *)
Theorem cleanup_needs_every_watermark
    (self : MessageCache) (io : IO) (w : World) (roomId : string) (members : list string) :
  (Z.of_nat (length (readAllMessages w roomId)) < compactThreshold self ->
   cleanup self io w roomId members = w) /\
  (forall agent, agent ∈ members ->
     from_option lastReadTs 0 (getWatermarks w roomId !! agent) = 0 ->
     cleanup self io w roomId members = w).
Proof.
  split.
  - intros Hlen. unfold cleanup.
    destruct (negb (Js.truthy roomId) || Nat.eqb (length members) 0); [reflexivity|].
    destruct (Z.ltb_spec (Z.of_nat (length (readAllMessages w roomId))) (compactThreshold self));
      [reflexivity|lia].
  - intros agent Hin Hmiss. unfold cleanup.
    destruct (negb (Js.truthy roomId) || Nat.eqb (length members) 0); [reflexivity|].
    destruct (Z.ltb _ _); [reflexivity|].
    rewrite (minReadTsLoop_missing _ _ agent Hin Hmiss). reflexivity.
Qed.

Lemma cleanup_needs_every_watermark_witness :
  cleanup smallCache (ioAt 3605000) threeMessages "R1" ["builder"; "researcher"] = threeMessages.
Proof.
  apply (proj2 (cleanup_needs_every_watermark smallCache (ioAt 3605000) threeMessages "R1"
                  ["builder"; "researcher"]) "researcher").
  - apply elem_of_cons. right. apply elem_of_cons. left. reflexivity.
  - vm_compute. reflexivity.
Defined.

(** What [cleanup] does to the log, with the minimum it computed. *)
Lemma cleanup_cases (self : MessageCache) (io : IO) (w : World) (roomId : string)
    (members : list string) :
  readAllMessages (cleanup self io w roomId members) roomId = readAllMessages w roomId \/
  exists minReadTs,
    minReadTsLoop (getWatermarks w roomId) members None = Some minReadTs /\
    minReadTs <> 0 /\
    readAllMessages (cleanup self io w roomId members) roomId
    = List.filter (fun m => Z.gtb (m_ts m) (Z.max minReadTs (now io - cleanupTtlMs self)))
        (readAllMessages w roomId).
Proof.
  unfold cleanup.
  destruct (negb (Js.truthy roomId) || Nat.eqb (length members) 0); [left; reflexivity|].
  destruct (Z.ltb _ _); [left; reflexivity|].
  destruct (minReadTsLoop _ _ _) as [minReadTs|]; [|left; reflexivity].
  destruct (Z.eqb_spec minReadTs 0) as [|Hnz]; [left; reflexivity|].
  destruct (Nat.eqb _ _); [left; reflexivity|].
  unfold withFileLock.
  destruct (lock_ok io); [|left; reflexivity].
  destruct (write_ok io); [|left; reflexivity].
  right. exists minReadTs. split; [reflexivity|]. split; [exact Hnz|].
  simpl. rewrite readAllMessages_set_log. apply omap_Parsed.
Qed.

(** [cleanup] only removes messages, and it keeps every message that is
    inside the TTL window and newer than the watermark of some member
    agent. *)
Theorem cleanup_keeps_recent_unread
    (self : MessageCache) (io : IO) (w : World) (roomId : string) (members : list string)
    (m : Message) (agent : string) (wm : Watermark) :
  sublist (readAllMessages (cleanup self io w roomId members) roomId)
          (readAllMessages w roomId) /\
  (m ∈ readAllMessages w roomId ->
   agent ∈ members ->
   getWatermarks w roomId !! agent = Some wm ->
   lastReadTs wm < m_ts m ->
   now io - cleanupTtlMs self < m_ts m ->
   m ∈ readAllMessages (cleanup self io w roomId members) roomId).
Proof.
  destruct (cleanup_cases self io w roomId members) as [Hsame|(mn & Hloop & Hnz & Hfilter)].
  - rewrite Hsame. split; [reflexivity|]. intros; assumption.
  - rewrite Hfilter. split; [apply filter_sublist|].
    intros Hm Hin Hwm Hts Httl.
    apply elem_of_filter_bool. split; [exact Hm|].
    destruct (minReadTsLoop_lower_bound _ _ _ _ Hloop Hnz) as [_ Hall].
    destruct (Hall agent Hin) as (wm' & Hwm' & Hle).
    rewrite Hwm in Hwm'. injection Hwm' as <-.
    apply Z.gtb_lt. lia.
Qed.

Lemma cleanup_keeps_recent_unread_witness :
  {| m_id := "m_3000_00003_k3x9"; m_ts := 3000; m_sender := "Finley";
     m_senderId := EmptyString; m_sourceAgent := EmptyString;
     m_content := "three"; m_mentions := []; m_type := "message" |}
  ∈ readAllMessages (cleanup smallCache (ioAt 3602500) threeMessages "R1" ["builder"]) "R1".
Proof.
  apply (proj2 (cleanup_keeps_recent_unread smallCache (ioAt 3602500) threeMessages "R1"
                  ["builder"] _ "builder"
                  {| lastReadId := "m_1000_00001_k3x9"; lastReadTs := 1000 |})).
  - vm_compute. do 2 (apply elem_of_cons; right). apply elem_of_cons. left. reflexivity.
  - apply elem_of_cons. left. reflexivity.
  - vm_compute. reflexivity.
  - vm_compute. reflexivity.
  - vm_compute. reflexivity.
Defined.

Lemma replace_unsafe_all_chars (ok : ascii -> bool) (s : string) :
  ok "_"%char = true -> all_chars ok (replace_unsafe ok s) = true.
Proof.
  intros Hu. induction s as [|c s IH]; simpl; [reflexivity|].
  rewrite IH, andb_true_r. destruct (ok c) eqn:E; [exact E|exact Hu].
Qed.

(** The directory name of a room and the file name of a task are never
    empty and have only the characters the pattern lets through, so never a
    path separator; the room's name has no dot either. *)
Theorem sanitized_names_are_safe (roomId taskId : string) :
  sanitizeRoomId roomId <> EmptyString /\
  all_chars safe_room_char (sanitizeRoomId roomId) = true /\
  Board.sanitizeTaskId taskId <> EmptyString /\
  all_chars Board.safe_task_char (Board.sanitizeTaskId taskId) = true /\
  safe_room_char "/"%char = false /\ safe_room_char "."%char = false /\
  Board.safe_task_char "/"%char = false.
Proof.
  unfold sanitizeRoomId, Board.sanitizeTaskId.
  split; [apply or_else_truthy; discriminate|].
  split.
  { destruct (replace_unsafe safe_room_char (asString (Some roomId))) as [|c r] eqn:E;
      [reflexivity|].
    change (all_chars safe_room_char (String c r) = true).
    rewrite <- E. apply replace_unsafe_all_chars. reflexivity. }
  split; [apply or_else_truthy; discriminate|].
  split.
  { destruct (replace_unsafe Board.safe_task_char (asString (Some taskId))) as [|c r] eqn:E;
      [reflexivity|].
    change (all_chars Board.safe_task_char (String c r) = true).
    rewrite <- E. apply replace_unsafe_all_chars. reflexivity. }
  repeat split; reflexivity.
Qed.

(** Rooms whose sanitised ids differ share nothing: appending, marking and
    compacting in one room leave the log and the watermarks of the other as
    they were. *)
Theorem rooms_are_isolated
    (self : MessageCache) (io : IO) (w : World) (roomId other agentId : string)
    (params : Draft) (upToMessageId : option string) (upToTs : option Z)
    (members : list string) :
  sanitizeRoomId roomId <> sanitizeRoomId other ->
  let unchanged w' :=
    readAllMessages w' other = readAllMessages w other /\
    getWatermarks w' other = getWatermarks w other in
  unchanged (snd (appendMessage io w roomId params)) /\
  unchanged (markAsRead io w roomId agentId upToMessageId upToTs) /\
  unchanged (cleanup self io w roomId members).
Proof.
  intros Hne unchanged. unfold unchanged.
  assert (Hlog : forall w0 l, readAllMessages (set_log w0 roomId l) other
                              = readAllMessages w0 other /\
                              getWatermarks (set_log w0 roomId l) other
                              = getWatermarks w0 other).
  { intros w0 l. unfold readAllMessages, log_of, getWatermarks, set_log. simpl.
    rewrite lookup_insert_ne by exact Hne. split; reflexivity. }
  assert (Hwm : forall w0 wm, readAllMessages (set_watermarks w0 roomId wm) other
                              = readAllMessages w0 other /\
                              getWatermarks (set_watermarks w0 roomId wm) other
                              = getWatermarks w0 other).
  { intros w0 wm. unfold readAllMessages, log_of, getWatermarks, set_watermarks. simpl.
    rewrite lookup_insert_ne by exact Hne. split; reflexivity. }
  split; [|split].
  - unfold appendMessage.
    destruct (negb (Js.truthy roomId)); [split; reflexivity|].
    destruct (isInjection _); [split; reflexivity|].
    destruct (Js.truthy (asString (d_id params))); simpl; unfold withFileLock;
      destruct (lock_ok io); simpl; try (split; reflexivity);
      destruct (write_ok io); simpl; try (split; reflexivity);
      match goal with
      | |- readAllMessages (set_log ?w0 _ ?l) _ = _ /\ _ =>
          destruct (Hlog w0 l) as [A B]; split; [exact A|exact B]
      end.
  - unfold markAsRead, withFileLock, writeWatermarks.
    destruct (negb (Js.truthy roomId) || negb (Js.truthy agentId)); [split; reflexivity|].
    destruct (lock_ok io); simpl; [|split; reflexivity].
    destruct (write_ok io); [apply Hwm|split; reflexivity].
  - unfold cleanup.
    destruct (negb (Js.truthy roomId) || Nat.eqb (length members) 0); [split; reflexivity|].
    destruct (Z.ltb _ _); [split; reflexivity|].
    destruct (minReadTsLoop _ _ _) as [mn|]; [|split; reflexivity].
    destruct (Z.eqb mn 0); [split; reflexivity|].
    destruct (Nat.eqb _ _); [split; reflexivity|].
    unfold withFileLock. destruct (lock_ok io); simpl; [|split; reflexivity].
    destruct (write_ok io); [apply Hlog|split; reflexivity].
Qed.

Lemma rooms_are_isolated_witness :
  readAllMessages (snd (appendMessage (ioAt 5000) threeMessages "R2" (draft "hi" 5000 None))) "R1"
  = readAllMessages threeMessages "R1".
Proof.
  apply (rooms_are_isolated smallCache (ioAt 5000) threeMessages "R2" "R1" "builder"
           (draft "hi" 5000 None) None None []).
  vm_compute. discriminate.
Defined.

End CacheExtras.

(** ** Further properties of the task board *)

Section BoardExtras.

Import Board.

(** A [createTask] or [updateTask] that does not answer [ok] has not touched
    any file. *)
Theorem failed_task_operation_changes_nothing
    (self : TaskBoard) (io : IO) (w : World) (roomId : string)
    (cparams : CreateParams) (uparams : UpdateParams) :
  (ok (fst (createTask self io w roomId cparams)) = false ->
   snd (createTask self io w roomId cparams) = w) /\
  (ok (fst (updateTask self io w roomId uparams)) = false ->
   snd (updateTask self io w roomId uparams) = w).
Proof.
  split.
  - unfold createTask. cbv zeta.
    destruct (negb (Js.truthy roomId) || _); [reflexivity|].
    unfold withFileLock. destruct (lock_ok io); [|reflexivity].
    destruct (Z.geb _ _); [reflexivity|].
    destruct (getTask io w roomId (asString (cp_taskId cparams))); [reflexivity|].
    simpl. discriminate.
  - unfold updateTask. cbv zeta.
    destruct (negb (Js.truthy roomId) || _ || _); [reflexivity|].
    unfold withFileLock. destruct (lock_ok io); [|reflexivity].
    destruct (getTask io w roomId (asString (up_taskId uparams))); [|reflexivity].
    destruct (updateSlots _ _ _ _ _ _); [|reflexivity].
    destruct (isTerminal (deriveTaskStatus _)); simpl; discriminate.
Qed.

Lemma failed_task_operation_changes_nothing_witness :
  snd (updateTask defaultBoard (boardIO 2000) withT1 "R1" (signal "T-9" "done" "builder"))
  = withT1.
Proof.
  apply (proj2 (failed_task_operation_changes_nothing defaultBoard (boardIO 2000) withT1 "R1"
                  (newTask "T-1" "x") (signal "T-9" "done" "builder"))).
  vm_compute. reflexivity.
Defined.

Lemma filter_length_Permutation {A : Type} (f : A -> bool) (l l' : list A) :
  l ≡ₚ l' -> length (List.filter f l) = length (List.filter f l').
Proof.
  induction 1 as [|x l l' _ IH|x y l|l l' l'' _ IH1 _ IH2]; simpl.
  - reflexivity.
  - destruct (f x); simpl; rewrite IH; reflexivity.
  - destruct (f x), (f y); reflexivity.
  - congruence.
Qed.

(** The number of tasks [listActiveTasks] gives. *)
Lemma listActiveTasks_length (io : IO) (w : World) (roomId : string) :
  length (listActiveTasks io w roomId)
  = length (List.filter (fun raw => Js.truthy (storedTaskId raw))
              (map_to_list (active (roomTasks w roomId))).*2).
Proof.
  unfold listActiveTasks.
  rewrite (Permutation_length (merge_sort_Permutation _ _)), length_fmap. reflexivity.
Qed.

(** [createTask] with a room id and task id that are not empty, the lock
    taken, the room below its ceiling and no active file for the id, creates
    a task without slots, open, with one [globalHistory] entry, in the status
    given or else [create]; once the file is written the task is found under
    its id and the room has one more active task. *)
Theorem createTask_creates
    (self : TaskBoard) (io io' : IO) (w : World) (roomId : string) (params : CreateParams) :
  let taskId := asString (cp_taskId params) in
  let result := createTask self io w roomId params in
  roomId <> EmptyString -> taskId <> EmptyString ->
  lock_ok io = true ->
  Z.of_nat (length (listActiveTasks io w roomId)) < maxActiveTasks self ->
  getTask io w roomId taskId = None ->
  exists task,
    fst result = Created task /\
    t_taskId task = taskId /\ t_slots task = ∅ /\ t_closedAt task = 0 /\
    t_status task = Js.or_else (asString (cp_status params)) "create" /\
    t_createdBy task = Js.or_else (asString (cp_createdBy params)) "unknown" /\
    t_globalHistory task
    = [ {| ge_actor := t_createdBy task; ge_status := t_status task;
           ge_note := Js.or_else (asString (cp_note params)) EmptyString;
           ge_at := now io |} ] /\
    (write_task_ok io = true ->
     getTask io' (snd result) roomId taskId = Some task /\
     length (listActiveTasks io' (snd result) roomId)
     = S (length (listActiveTasks io w roomId))).
Proof.
  intros taskId result Hr Ht Hl Hcount Hnone.
  unfold result, createTask. cbv zeta. fold taskId.
  rewrite (truthy_true _ Hr), (truthy_true _ Ht). simpl.
  unfold withFileLock. rewrite Hl.
  destruct (Z.geb_spec (Z.of_nat (length (listActiveTasks io w roomId))) (maxActiveTasks self));
    [lia|].
  rewrite Hnone. simpl.
  eexists. split; [reflexivity|]. simpl.
  repeat (split; [reflexivity|]).
  intros Hw. split.
  - unfold getTask. rewrite active_saveBoard, (active_writeActive _ _ _ _ _ Hw).
    rewrite lookup_insert_eq. reflexivity.
  - rewrite !listActiveTasks_length.
    rewrite active_saveBoard, (active_writeActive _ _ _ _ _ Hw).
    unfold getTask in Hnone. apply fmap_None in Hnone.
    rewrite (filter_length_Permutation _ _ _
               (fmap_Permutation snd _ _ (map_to_list_insert _ _ _ Hnone))).
    simpl. rewrite (truthy_true _ Ht). reflexivity.
Qed.

Lemma createTask_creates_witness :
  exists task,
    fst (createTask defaultBoard (boardIO 1200) withT1 "R1" (newTask "T-2" "test")) = Created task /\
    getTask (boardIO 1300)
      (snd (createTask defaultBoard (boardIO 1200) withT1 "R1" (newTask "T-2" "test")))
      "R1" "T-2" = Some task /\
    length (listActiveTasks (boardIO 1300)
      (snd (createTask defaultBoard (boardIO 1200) withT1 "R1" (newTask "T-2" "test"))) "R1")
    = 2%nat.
Proof.
  destruct (createTask_creates defaultBoard (boardIO 1200) (boardIO 1300) withT1 "R1"
              (newTask "T-2" "test")) as (task & H1 & _ & _ & _ & _ & _ & _ & H2).
  - discriminate.
  - discriminate.
  - reflexivity.
  - vm_compute. reflexivity.
  - vm_compute. reflexivity.
  - exists task. split; [exact H1|]. destruct (H2 eq_refl) as [H3 H4].
    split; [exact H3|]. rewrite H4. vm_compute. reflexivity.
Defined.

(** The whole task a successful [updateTask] answers. *)
Lemma updateTask_result (self : TaskBoard) (io : IO) (w : World) (roomId : string)
    (params : UpdateParams) :
  ok (fst (updateTask self io w roomId params)) = true ->
  let taskId := asString (up_taskId params) in
  let status := Js.toLowerCase (asString (up_status params)) in
  let actor := Js.or_else (asString (up_actor params)) "unknown" in
  let note := Js.or_else (asString (up_note params)) EmptyString in
  exists task closed slots,
    getTask io w roomId taskId = Some task /\
    updateSlots (getSlotsPrototype io w roomId taskId) (t_slots task) actor status note (now io)
    = Some slots /\
    fst (updateTask self io w roomId params)
    = Updated closed
        {| t_taskId := t_taskId task;
           t_summary := t_summary task;
           t_status := deriveTaskStatus slots;
           t_createdBy := t_createdBy task;
           t_createdAt := t_createdAt task;
           t_updatedAt := now io;
           t_closedAt := if closed then now io else t_closedAt task;
           t_slots := slots;
           t_globalHistory :=
             (Js.slice_last 99 (t_globalHistory task)
                ++ [ {| ge_actor := actor; ge_status := status; ge_note := note;
                        ge_at := now io |} ])%list |}.
Proof.
  unfold updateTask. cbv zeta.
  destruct (negb (Js.truthy roomId) || _ || _); [discriminate|].
  unfold withFileLock.
  destruct (lock_ok io); [|discriminate].
  destruct (getTask io w roomId (asString (up_taskId params))) as [task|]; [|discriminate].
  destruct (updateSlots _ _ _ _ _ _) as [slots|] eqn:Hslots; [|discriminate].
  destruct (isTerminal (deriveTaskStatus _)) eqn:Hterm; simpl; intros _;
    exists task; [exists true|exists false]; exists slots;
    (split; [reflexivity|]); split; [exact Hslots|reflexivity|exact Hslots|reflexivity].
Qed.

Lemma slice_last_length {A : Type} (n : nat) (l : list A) :
  (length (Js.slice_last n l) <= n)%nat.
Proof. unfold Js.slice_last. rewrite length_drop. lia. Qed.

Lemma updateSlot_history_length (prev : option Slot) (status note : string) (now : Z) :
  (length (s_history (updateSlot prev status note now)) <= 20)%nat.
Proof.
  unfold updateSlot. simpl. rewrite length_app. simpl.
  match goal with |- (length (Js.slice_last 19 ?h) + 1 <= 20)%nat =>
    pose proof (slice_last_length 19 h) end. lia.
Qed.

(** A successful [updateTask] appends the signal to [globalHistory], which
    it keeps at 100 entries at most, sets [updatedAt] and keeps the identity
    of the task.  When the actor is not named like a member of
    [Object.prototype] and the slots of the task inherit from nothing else,
    it counts the actor's rounds (1 for a new slot, one more otherwise),
    records the note and the time, and appends the signal to the slot's
    history, which it keeps at 20 entries at most. *)
Theorem updateTask_bounded_histories
    (self : TaskBoard) (io : IO) (w : World) (roomId : string) (params : UpdateParams) :
  ok (fst (updateTask self io w roomId params)) = true ->
  let taskId := asString (up_taskId params) in
  let status := Js.toLowerCase (asString (up_status params)) in
  let actor := Js.or_else (asString (up_actor params)) "unknown" in
  let note := Js.or_else (asString (up_note params)) EmptyString in
  exists task closed task',
    getTask io w roomId taskId = Some task /\
    fst (updateTask self io w roomId params) = Updated closed task' /\
    last (t_globalHistory task')
    = Some {| ge_actor := actor; ge_status := status; ge_note := note; ge_at := now io |} /\
    (length (t_globalHistory task') <= 100)%nat /\
    t_taskId task' = t_taskId task /\ t_createdAt task' = t_createdAt task /\
    t_createdBy task' = t_createdBy task /\ t_updatedAt task' = now io /\
    (actor ∉ JsObj.protoKeys -> getSlotsPrototype io w roomId taskId = None ->
     exists own,
       t_slots task' !! actor = Some own /\
       s_rounds own = from_option (fun s => s_rounds s + 1) 1 (t_slots task !! actor) /\
       s_lastNote own = note /\ s_lastAt own = now io /\
       last (s_history own)
       = Some {| se_status := status; se_note := note; se_at := now io |} /\
       (length (s_history own) <= 20)%nat).
Proof.
  intros Hok taskId status actor note.
  destruct (updateTask_result self io w roomId params Hok)
    as (task & closed & slots & Hget & Hslots & Hres).
  fold taskId status actor note in Hget, Hslots, Hres.
  exists task, closed. eexists.
  split; [exact Hget|]. split; [exact Hres|]. simpl.
  split; [apply last_snoc|].
  split.
  { rewrite length_app. simpl.
    pose proof (slice_last_length 99 (t_globalHistory task)). lia. }
  repeat (split; [reflexivity|]).
  intros Hplain Hproto.
  rewrite Hproto, (updateSlots_plain _ _ _ _ _ Hplain) in Hslots.
  injection Hslots as <-.
  eexists. split; [apply lookup_insert_eq|].
  split; [destruct (t_slots task !! actor); reflexivity|].
  split; [destruct (t_slots task !! actor); reflexivity|].
  split; [destruct (t_slots task !! actor); reflexivity|].
  split; [unfold updateSlot; simpl; apply last_snoc|].
  apply updateSlot_history_length.
Qed.

Lemma updateTask_bounded_histories_witness :
  exists task closed task' own,
    getTask (boardIO 2000) withT1 "R1" "T-1" = Some task /\
    fst (updateTask defaultBoard (boardIO 2000) withT1 "R1" (signal "T-1" "ACK" "builder"))
    = Updated closed task' /\
    t_slots task' !! "builder" = Some own /\
    s_rounds own = 1 /\ (length (t_globalHistory task') <= 100)%nat.
Proof.
  destruct (updateTask_bounded_histories defaultBoard (boardIO 2000) withT1 "R1"
              (signal "T-1" "ACK" "builder"))
    as (task & closed & task' & H1 & H2 & _ & H5 & _ & _ & _ & _ & H6).
  - vm_compute. reflexivity.
  - destruct H6 as (own & H3 & H4 & _).
    + intros Hin. unfold JsObj.protoKeys in Hin.
      repeat (apply elem_of_cons in Hin as [Hin|Hin]; [discriminate Hin|]).
      inversion Hin.
    + vm_compute. reflexivity.
    + exists task, closed, task', own.
      split; [exact H1|]. split; [exact H2|]. split; [exact H3|]. split; [|exact H5].
      rewrite H4. vm_compute in H1. injection H1 as <-. reflexivity.
Defined.

(** Once an update has closed a task (its history file written, its active
    file removed) the task is no longer found: a further signal for the same
    id answers [not_found] and changes nothing. *)
Theorem updateTask_after_close
    (self : TaskBoard) (io io2 : IO) (w : World) (roomId : string)
    (params params2 : UpdateParams) (task' : Task) :
  let closing := updateTask self io w roomId params in
  let taskId := asString (up_taskId params) in
  fst closing = Updated true task' ->
  write_history_ok io = true -> remove_ok io = true ->
  asString (up_taskId params2) = taskId ->
  asString (up_status params2) <> EmptyString ->
  lock_ok io2 = true ->
  getTask io2 (snd closing) roomId taskId = None /\
  history (roomTasks (snd closing) roomId) !! (now io, sanitizeTaskId taskId) = Some task' /\
  updateTask self io2 (snd closing) roomId params2 = (NotFound taskId, snd closing).
Proof.
  intros closing taskId Hclosed Hhist Hrm Hid Hstatus Hlock.
  assert (Heq : closing = (Updated true task', snd closing))
    by (rewrite <- Hclosed; destruct closing; reflexivity).
  destruct (updateTask_updated self io w roomId params true task' (snd closing) Heq)
    as (task & b & _ & _ & _ & _ & Hw).
  fold taskId in Hw.
  assert (Hnone : getTask io2 (snd closing) roomId taskId = None).
  { unfold getTask. rewrite Hw, active_saveBoard, (active_removeActive _ _ _ _ Hrm).
    rewrite lookup_delete_eq. reflexivity. }
  split; [exact Hnone|]. split.
  { rewrite Hw, history_saveBoard, history_removeActive, (history_writeHistory _ _ _ _ _ Hhist).
    apply lookup_insert_eq. }
  assert (Hguard : Js.truthy roomId = true /\ Js.truthy taskId = true).
  { revert Heq. unfold closing, updateTask. cbv zeta. fold taskId.
    destruct (Js.truthy roomId); [|discriminate].
    destruct (Js.truthy taskId); [|discriminate]. auto. }
  destruct Hguard as [Hroom Htask].
  unfold updateTask at 1. cbv zeta. rewrite Hid, Hroom, Htask.
  assert (Hs : Js.truthy (Js.toLowerCase (asString (up_status params2))) = true).
  { destruct (asString (up_status params2)); [congruence|reflexivity]. }
  rewrite Hs. simpl. unfold withFileLock. rewrite Hlock, Hnone. reflexivity.
Qed.

Lemma updateTask_after_close_witness :
  let closing := updateTask defaultBoard (boardIO 2000) withT1 "R1" (signal "T-1" "done" "builder") in
  updateTask defaultBoard (boardIO 2500) (snd closing) "R1" (signal "T-1" "rework" "main")
  = (NotFound "T-1", snd closing).
Proof.
  cbv zeta.
  destruct (fst (updateTask defaultBoard (boardIO 2000) withT1 "R1"
                   (signal "T-1" "done" "builder"))) as [| | | | | |closed t] eqn:E;
    try (vm_compute in E; discriminate E).
  destruct closed; [|vm_compute in E; discriminate E].
  apply (updateTask_after_close defaultBoard (boardIO 2000) (boardIO 2500) withT1 "R1"
           (signal "T-1" "done" "builder") (signal "T-1" "rework" "main") t).
  - exact E.
  - reflexivity.
  - reflexivity.
  - reflexivity.
  - discriminate.
  - reflexivity.
Defined.

#[local] Instance createdAt_le_total : Total createdAt_le.
Proof. intros a b. unfold createdAt_le. lia. Qed.

(** [listActiveTasks] gives the tasks of the active files that carry a task
    id, each migrated to the slots format, in the order of their creation
    times. *)
Theorem listActiveTasks_sorted (io : IO) (w : World) (roomId : string) :
  Sorted createdAt_le (listActiveTasks io w roomId) /\
  forall t, t ∈ listActiveTasks io w roomId <->
    exists file stored,
      active (roomTasks w roomId) !! file = Some stored /\
      storedTaskId stored <> EmptyString /\ t = migrateLegacyTask io stored.
Proof.
  split.
  - unfold listActiveTasks. apply (Sorted_merge_sort createdAt_le).
  - intros t. unfold listActiveTasks.
    rewrite merge_sort_Permutation, list_elem_of_fmap. split.
    + intros (stored & -> & Hin). apply elem_of_filter_bool in Hin as [Hin Hid].
      apply list_elem_of_fmap in Hin as ([file stored'] & -> & Hin).
      apply elem_of_map_to_list in Hin. exists file, stored'. simpl in *.
      split; [exact Hin|]. split; [|reflexivity].
      intros H. rewrite H in Hid. discriminate.
    + intros (file & stored & Hfile & Hid & ->). exists stored. split; [reflexivity|].
      apply elem_of_filter_bool. split; [|apply truthy_true; exact Hid].
      apply list_elem_of_fmap. exists (file, stored). split; [reflexivity|].
      apply elem_of_map_to_list. exact Hfile.
Qed.

(** Reading a record without slots gives it one slot, for the trimmed
    assignee (or else the owner), in the record's status (or else [ack]) and
    with at least one round counted when [rounds] is absent; a record with
    neither assignee nor owner gets no slot and derives [create], and so
    does a record whose assignee is [__proto__]: the slot becomes the
    prototype of [slots], not a property of it.  The history is carried over
    entry by entry, and a task already in the slots format is returned as it
    is. *)
Theorem migrateLegacyTask_slots (io : IO) (task : LegacyTask) (v3 : Task) :
  let assignee := asString (Some (Js.or_else (lt_assignee task) (lt_owner task))) in
  let migrated := migrateLegacyTask io (Legacy task) in
  migrateLegacyTask io (V3 v3) = v3 /\
  (assignee = EmptyString \/ assignee = "__proto__" ->
   t_slots migrated = ∅ /\ deriveTaskStatus (t_slots migrated) = "create") /\
  (assignee <> EmptyString -> assignee <> "__proto__" ->
   exists slot,
     t_slots migrated = {[ assignee := slot ]} /\
     s_status slot = Js.or_else (asString (lt_status task)) "ack" /\
     s_status slot <> EmptyString /\
     (lt_rounds task = None -> s_rounds slot = 1) /\
     length (s_history slot) = length (lt_history task)) /\
  length (t_globalHistory migrated) = length (lt_history task) /\
  t_taskId migrated = lt_taskId task.
Proof.
  intros assignee migrated. split; [reflexivity|].
  unfold migrated, migrateLegacyTask, legacyAssignee. fold assignee. simpl.
  split.
  { intros [-> | ->]; simpl; split; reflexivity. }
  split.
  { intros Hne Hp. rewrite (truthy_true _ Hne), (assign_ordinary _ _ _ Hp).
    eexists. split; [reflexivity|]. simpl.
    split; [reflexivity|]. split; [apply or_else_truthy; discriminate|].
    split; [intros ->; reflexivity|]. apply length_fmap. }
  split; [apply length_fmap|reflexivity].
Qed.

Lemma migrateLegacyTask_slots_witness :
  let task :=
    {| lt_taskId := "T-7"; lt_summary := "old"; lt_status := Some "in_progress";
       lt_assignee := " builder "; lt_owner := "main"; lt_rounds := None;
       lt_lastNote := EmptyString; lt_createdBy := "main"; lt_createdAt := 10;
       lt_updatedAt := 20; lt_closedAt := 0; lt_history := [] |} in
  exists slot,
    t_slots (migrateLegacyTask (boardIO 30) (Legacy task)) = {[ "builder" := slot ]} /\
    s_status slot = "in_progress" /\ s_rounds slot = 1.
Proof.
  cbv zeta.
  destruct (proj1 (proj2 (proj2 (migrateLegacyTask_slots (boardIO 30)
    {| lt_taskId := "T-7"; lt_summary := "old"; lt_status := Some "in_progress";
       lt_assignee := " builder "; lt_owner := "main"; lt_rounds := None;
       lt_lastNote := EmptyString; lt_createdBy := "main"; lt_createdAt := 10;
       lt_updatedAt := 20; lt_closedAt := 0; lt_history := [] |}
    (migrateLegacyTask (boardIO 30) (V3
       {| t_taskId := "x"; t_summary := "x"; t_status := "x"; t_createdBy := "x";
          t_createdAt := 0; t_updatedAt := 0; t_closedAt := 0; t_slots := ∅;
          t_globalHistory := [] |}))))))
    as (slot & H1 & H2 & _ & H3 & _).
  - vm_compute. discriminate.
  - vm_compute. discriminate.
  - exists slot. split; [exact H1|]. split; [exact H2|]. apply H3. reflexivity.
Defined.

End BoardExtras.

(** ** Further properties of the limiter and of the in-memory state *)

Section StateExtras.

Import State.

(** A run of turn requests inside the TTL of an existing cycle. *)
Lemma consumeTurns_granted (io : IO) (roomId : string) (roomConfig : RoomConfig)
    (times : list Z) :
  forall (st : TeamChatState) (c : Cycle),
  cycles st !! roomId = Some c ->
  Forall (fun t => t - createdAt c <= cycleTtlSeconds roomConfig * 1000) times ->
  let run := consumeTurns io roomId roomConfig st times in
  let room := Z.max 0 (maxTurnsPerCycle roomConfig - turnsUsed c) in
  granted (fst run) = Z.min (Z.of_nat (length times)) room /\
  (times <> [] ->
   exists c', cycles (snd run) !! roomId = Some c' /\
     turnsUsed c' = turnsUsed c + granted (fst run) /\ createdAt c' = createdAt c).
Proof.
  induction times as [|t times IH]; intros st c Hc Hall run room.
  - unfold run, granted. simpl. split; [lia|congruence].
  - inversion Hall as [|? ? Ht Hrest]; subst.
    destruct (getCycle_live roomId roomConfig st t c Hc Ht) as (G1 & _ & G3 & _ & G5).
    destruct (tryConsumeTurn_cycle io roomId roomConfig st t)
      as (c1 & Hc1 & Hcr1 & _ & _ & Hstep).
    rewrite G1, G5 in Hstep. rewrite G3 in Hcr1.
    unfold run. simpl.
    destruct (tryConsumeTurn io st roomId roomConfig t) as [r st1] eqn:Er. simpl in *.
    assert (Hrest' : Forall (fun t => t - createdAt c1 <= cycleTtlSeconds roomConfig * 1000) times)
      by (rewrite Hcr1; exact Hrest).
    specialize (IH st1 c1 Hc1 Hrest').
    destruct (consumeTurns io roomId roomConfig st1 times) as [rs st2] eqn:Ers.
    simpl in IH. destruct IH as [IHg IHc]. simpl.
    assert (Hfinal : exists c', cycles st2 !! roomId = Some c' /\
              turnsUsed c' = turnsUsed c1 + granted rs /\ createdAt c' = createdAt c).
    { destruct times as [|t' times'].
      - simpl in Ers. injection Ers as <- <-. exists c1. unfold granted. simpl.
        split; [exact Hc1|]. split; [lia|exact Hcr1].
      - destruct (IHc ltac:(discriminate)) as (c' & H1 & H2 & H3).
        exists c'. split; [exact H1|]. split; [exact H2|congruence]. }
    destruct (Z.geb_spec (turnsUsed c) (maxTurnsPerCycle roomConfig)) as [Hfull|Hfree];
      destruct Hstep as [Hu Hr]; subst r; unfold granted in *; simpl in *.
    + split; [rewrite IHg; lia|]. intros _.
      destruct Hfinal as (c' & H1 & H2 & H3). exists c'. repeat split; auto. lia.
    + split; [rewrite Nat2Z.inj_succ, IHg; lia|]. intros _.
      destruct Hfinal as (c' & H1 & H2 & H3). exists c'. repeat split; auto. lia.
Qed.

(** The limiter never grants more than the budget: of a run of
    [tryConsumeTurn] calls that stay inside the TTL of the cycle in effect at
    the first call, exactly the first [maxTurnsPerCycle - turnsUsed] (if
    positive) are granted, however many are made. *)
Theorem turn_budget_never_exceeded
    (io : IO) (st : TeamChatState) (roomId : string) (roomConfig : RoomConfig)
    (first : Z) (later : list Z) :
  let cycle := fst (getCycle st roomId roomConfig first) in
  Forall (fun t => t - createdAt cycle <= cycleTtlSeconds roomConfig * 1000) later ->
  let run := consumeTurns io roomId roomConfig st (first :: later) in
  granted (fst run)
  = Z.min (Z.of_nat (length (first :: later)))
          (Z.max 0 (maxTurnsPerCycle roomConfig - turnsUsed cycle)) /\
  granted (fst run) <= Z.max 0 (maxTurnsPerCycle roomConfig - turnsUsed cycle).
Proof.
  intros cycle Hall run.
  assert (Hmain : granted (fst run)
    = Z.min (Z.of_nat (length (first :: later)))
            (Z.max 0 (maxTurnsPerCycle roomConfig - turnsUsed cycle))); [|split; [exact Hmain|lia]].
  unfold run. simpl consumeTurns.
  destruct (tryConsumeTurn_cycle io roomId roomConfig st first)
    as (c1 & Hc1 & Hcr1 & _ & _ & Hstep).
  rewrite (getCycle_maxTurns roomId roomConfig st first) in Hstep.
  fold cycle in Hcr1, Hstep.
  destruct (tryConsumeTurn io st roomId roomConfig first) as [r st1] eqn:Er. simpl in *.
  assert (Hrest : Forall (fun t => t - createdAt c1 <= cycleTtlSeconds roomConfig * 1000) later)
    by (rewrite Hcr1; exact Hall).
  destruct (consumeTurns_granted io roomId roomConfig later st1 c1 Hc1 Hrest) as [Hg _].
  destruct (consumeTurns io roomId roomConfig st1 later) as [rs st2]. simpl in *.
  destruct (Z.geb_spec (turnsUsed cycle) (maxTurnsPerCycle roomConfig));
    destruct Hstep as [Hu ->]; unfold granted in *; simpl.
  - rewrite Hg. lia.
  - rewrite Nat2Z.inj_succ, Hg. lia.
Qed.

Lemma turn_budget_never_exceeded_witness :
  granted (fst (consumeTurns quietIO "room" room2turns (constructor false ∅)
                  [1000; 1100; 1200; 1300; 1400])) = 2.
Proof.
  destruct (turn_budget_never_exceeded quietIO (constructor false ∅) "room" room2turns
              1000 [1100; 1200; 1300; 1400]) as [H _].
  - repeat constructor; vm_compute; discriminate.
  - rewrite H. vm_compute. reflexivity.
Defined.

(** [resetCycle] forgets the cycle of the room and of no other room, so the
    next turn request starts a new cycle and is granted whenever the room has
    a budget at all. *)
Theorem resetCycle_restarts
    (io : IO) (st : TeamChatState) (roomId other : string) (roomConfig : RoomConfig)
    (now : Z) :
  let st' := resetCycle io st roomId in
  cycles st' !! roomId = None /\
  (other <> roomId -> cycles st' !! other = cycles st !! other) /\
  (1 <= maxTurnsPerCycle roomConfig ->
   fst (tryConsumeTurn io st' roomId roomConfig now)
   = {| tr_ok := true; tr_turnsUsed := 1; tr_maxTurns := maxTurnsPerCycle roomConfig |}).
Proof.
  intros st'.
  assert (Hnone : cycles st' !! roomId = None).
  { unfold st', resetCycle. rewrite cycles_persistCycles. simpl. apply lookup_delete_eq. }
  split; [exact Hnone|]. split.
  - intros Hne. unfold st', resetCycle. rewrite cycles_persistCycles. simpl.
    apply lookup_delete_ne. congruence.
  - intros Hmax.
    destruct (getCycle_fresh roomId roomConfig st' now) as (F1 & _ & _ & _ & F5).
    { intros c Hc. rewrite Hnone in Hc. discriminate. }
    destruct (tryConsumeTurn_cycle io roomId roomConfig st' now) as (c & _ & _ & _ & _ & H).
    rewrite F1, F5 in H.
    destruct (Z.geb_spec 0 (maxTurnsPerCycle roomConfig)); [lia|].
    destruct H as [_ ->]. reflexivity.
Qed.

Lemma resetCycle_restarts_witness :
  let used := snd (consumeTurns quietIO "room" room2turns (constructor false ∅) [1000; 1100]) in
  fst (tryConsumeTurn quietIO (resetCycle quietIO used "room") "room" room2turns 1200)
  = {| tr_ok := true; tr_turnsUsed := 1; tr_maxTurns := 2 |}.
Proof.
  apply (resetCycle_restarts quietIO
           (snd (consumeTurns quietIO "room" room2turns (constructor false ∅) [1000; 1100]))
           "room" "room" room2turns 1200).
  vm_compute. discriminate.
Defined.

Lemma cyclesData_fold (entries : list (string * Cycle)) (data : gmap string SavedCycle) :
  data !! "__proto__" = None -> NoDup entries.*1 ->
  let filled :=
    foldl (fun data entry => JsObj.assign data (fst entry) (savedCycle (snd entry)))
          data entries in
  filled !! "__proto__" = None /\
  forall k, k <> "__proto__" ->
    filled !! k = match (list_to_map entries : gmap string Cycle) !! k with
                  | Some c => Some (savedCycle c)
                  | None => data !! k
                  end.
Proof.
  revert data. induction entries as [|[k0 c0] entries IH]; intros data Hdata Hnd; simpl.
  - split; [exact Hdata|]. intros k _. rewrite lookup_empty. reflexivity.
  - apply NoDup_cons in Hnd as [Hk0 Hnd].
    assert (Hdata' : JsObj.assign data k0 (savedCycle c0) !! "__proto__" = None).
    { destruct (String.eqb_spec k0 "__proto__") as [->|Hne].
      - rewrite (assign_proto _ _ Hdata). exact Hdata.
      - rewrite lookup_assign_ne by congruence. exact Hdata. }
    destruct (IH _ Hdata' Hnd) as [Hproto Hrest].
    split; [exact Hproto|]. intros k Hk. rewrite (Hrest k Hk).
    destruct (decide (k = k0)) as [->|Hne].
    + rewrite lookup_insert_eq.
      rewrite (not_elem_of_list_to_map_1 entries k0 Hk0).
      rewrite (assign_ordinary _ _ _ Hk). apply lookup_insert_eq.
    + rewrite lookup_insert_ne by congruence.
      rewrite lookup_assign_ne by exact Hne. reflexivity.
Qed.

(** What [persistCycles] puts into the file: every room of the map but one
    named [__proto__]. *)
Lemma cyclesData_lookup (m : gmap string Cycle) (k : string) :
  cyclesData (map_to_list m) !! k
  = if String.eqb k "__proto__" then None else savedCycle <$> m !! k.
Proof.
  destruct (cyclesData_fold (map_to_list m) ∅ (lookup_empty _) (NoDup_fst_map_to_list m))
    as [Hproto Hrest].
  unfold cyclesData. destruct (String.eqb_spec k "__proto__") as [->|Hne]; [exact Hproto|].
  rewrite (Hrest k Hne), list_to_map_to_list, lookup_empty.
  destruct (m !! k); reflexivity.
Qed.

(** The counters survive a restart: what [persistCycles] wrote (with
    persistence on, the lock taken and the file written) is loaded by the
    constructor, and the next access inside the TTL finds the counters and
    times of the cycle as they were, with the limits of the configuration,
    for every room but one named [__proto__]: that one is never written, and
    after the restart it starts a new cycle.  Without persistence the
    constructor starts with no cycle. *)
Theorem cycles_survive_restart
    (io : IO) (st : TeamChatState) (roomId : string) (roomConfig : RoomConfig)
    (c : Cycle) (now : Z) :
  cycles (constructor false (cyclesFile st)) = ∅ /\
  (persistence st = true -> lock_ok io = true -> write_ok io = true ->
   let restarted := constructor true (cyclesFile (persistCycles io st)) in
   (roomId <> "__proto__" ->
    cycles st !! roomId = Some c ->
    now - createdAt c <= cycleTtlSeconds roomConfig * 1000 ->
    let g := fst (getCycle restarted roomId roomConfig now) in
    turnsUsed g = turnsUsed c /\ dispatchCount g = dispatchCount c /\
    createdAt g = createdAt c /\ lastInboundAt g = lastInboundAt c /\
    lastActivityAt g = lastActivityAt c /\
    maxTurns g = maxTurnsPerCycle roomConfig) /\
   cycles restarted !! "__proto__" = None /\
   (let g := fst (getCycle restarted "__proto__" roomConfig now) in
    turnsUsed g = 0 /\ dispatchCount g = 0 /\ createdAt g = now)).
Proof.
  split; [reflexivity|].
  intros Hp Hl Hw restarted.
  assert (Hfile : forall k, cycles restarted !! k
            = loadPersistedCycles (cyclesData (map_to_list (cycles st))) !! k).
  { intros k. unfold restarted, constructor, persistCycles.
    rewrite Hp, Hl, Hw. reflexivity. }
  assert (Hnone : cycles restarted !! "__proto__" = None).
  { rewrite Hfile. unfold loadPersistedCycles.
    rewrite lookup_fmap, cyclesData_lookup. reflexivity. }
  split; [|split; [exact Hnone|]].
  - intros Hne Hc Httl g.
    assert (Hload : cycles restarted !! roomId
                    = Some {| turnsUsed := turnsUsed c; dispatchCount := dispatchCount c;
                              maxTurns := 0; maxDispatch := 0; ttlMs := 0;
                              createdAt := createdAt c; lastInboundAt := lastInboundAt c;
                              lastActivityAt := lastActivityAt c |}).
    { rewrite Hfile. unfold loadPersistedCycles.
      rewrite lookup_fmap, cyclesData_lookup, Hc.
      destruct (String.eqb_spec roomId "__proto__"); [contradiction|reflexivity]. }
    unfold g, getCycle. rewrite Hload. simpl.
    destruct (Z.gtb_spec (now - createdAt c) (cycleTtlSeconds roomConfig * 1000)); [lia|].
    simpl. repeat split; reflexivity.
  - unfold getCycle. rewrite Hnone. simpl. repeat split; reflexivity.
Qed.

Lemma cycles_survive_restart_witness :
  let st := snd (consumeTurns quietIO "room" room2turns (constructor true ∅) [1000]) in
  turnsUsed (fst (getCycle (constructor true (cyclesFile (persistCycles quietIO st)))
                    "room" room2turns 5000)) = 1.
Proof.
  cbv zeta.
  destruct (proj2 (cycles_survive_restart quietIO
              (snd (consumeTurns quietIO "room" room2turns (constructor true ∅) [1000]))
              "room" room2turns
              {| turnsUsed := 1; dispatchCount := 0; maxTurns := 2; maxDispatch := 2;
                 ttlMs := 900000; createdAt := 1000; lastInboundAt := 0;
                 lastActivityAt := 1000 |} 5000)) as (H & _).
  - reflexivity.
  - reflexivity.
  - reflexivity.
  - destruct H as (H & _).
    + discriminate.
    + vm_compute. reflexivity.
    + vm_compute. discriminate.
    + exact H.
Defined.

Lemma slice_last_cons_over {A : Type} (n : nat) (x : A) (l : list A) :
  (n < length (x :: l))%nat -> Js.slice_last n (x :: l) = Js.slice_last n l.
Proof.
  intros H. unfold Js.slice_last. simpl in *.
  replace (S (length l) - n)%nat with (S (length l - n)) by lia. reflexivity.
Qed.

Lemma slice_last_all {A : Type} (n : nat) (l : list A) :
  (length l <= n)%nat -> Js.slice_last n l = l.
Proof.
  intros H. unfold Js.slice_last.
  replace (length l - n)%nat with 0%nat by lia. reflexivity.
Qed.

(** [pruneSeen] keeps the newest [maxSize] keys, and the set with them. *)
Lemma pruneSeen_window (order : list string) (maxSize : nat) :
  forall set,
  seen_wf {| seen_set := set; seen_order := order |} ->
  seen_order (pruneSeen set order maxSize) = Js.slice_last maxSize order /\
  seen_wf (pruneSeen set order maxSize).
Proof.
  induction order as [|oldest rest IH]; intros set Hwf.
  - simpl. split; [reflexivity|exact Hwf].
  - destruct Hwf as (Hnd & Hset & Hne). simpl in Hnd, Hset, Hne.
    cbn [pruneSeen].
    destruct (Nat.ltb_spec maxSize (length (oldest :: rest))) as [Hover|Hfit].
    + rewrite (slice_last_cons_over _ _ _ Hover).
      apply NoDup_cons in Hnd as [Hfresh Hnd].
      assert (Holdest : Js.truthy oldest = true).
      { apply truthy_true. intros ->. apply Hne. apply elem_of_cons. left. reflexivity. }
      rewrite Holdest. apply IH. split; [exact Hnd|]. split.
      * intros k. simpl. rewrite elem_of_difference, Hset, elem_of_cons, elem_of_singleton.
        split; [intros [[->|Hk] Hko]; [contradiction|exact Hk]|].
        intros Hk. split; [right; exact Hk|]. intros ->. contradiction.
      * simpl. intros H. apply Hne. apply elem_of_cons. right. exact H.
    + rewrite (slice_last_all _ _ Hfit). split; [reflexivity|].
      split; [exact Hnd|]. split; [exact Hset|exact Hne].
Qed.

(** The dedup window: marking a key that is new to the room leaves the
    newest [maxSize] keys of the room, the new one last, oldest evicted
    first; the key is then seen (for a window of at least one key); marking
    a key again changes nothing; other rooms are never touched. *)
Theorem markSeenMessage_window
    (seenByRoom : gmap string SeenRoom) (roomId key other : string) (maxSize : nat) :
  let room := default {| seen_set := ∅; seen_order := [] |} (seenByRoom !! roomId) in
  let after := markSeenMessage seenByRoom roomId key maxSize in
  roomId <> EmptyString -> key <> EmptyString -> seen_wf room ->
  (key ∈ seen_set room -> after = seenByRoom) /\
  (key ∉ seen_set room ->
   exists room',
     after !! roomId = Some room' /\
     seen_order room' = Js.slice_last maxSize (seen_order room ++ [key])%list /\
     seen_wf room' /\ (length (seen_order room') <= maxSize)%nat /\
     ((1 <= maxSize)%nat -> hasSeenMessage after roomId key = true)) /\
  (other <> roomId -> after !! other = seenByRoom !! other).
Proof.
  intros room after Hr Hk Hwf.
  unfold after, markSeenMessage.
  rewrite (truthy_true _ Hr), (truthy_true _ Hk). simpl.
  assert (Hnew : key ∉ seen_set room ->
    let pruned := pruneSeen ({[ key ]} ∪ seen_set room) (seen_order room ++ [key]) maxSize in
    seen_order pruned = Js.slice_last maxSize (seen_order room ++ [key])%list /\
    seen_wf pruned /\ (length (seen_order pruned) <= maxSize)%nat /\
    ((1 <= maxSize)%nat -> key ∈ seen_set pruned)).
  { intros Hfresh pruned. destruct Hwf as (Hnd & Hset & Hne).
    destruct (pruneSeen_window (seen_order room ++ [key]) maxSize ({[ key ]} ∪ seen_set room))
      as [Horder Hwf'].
    { split; [|split]; simpl.
      - apply NoDup_app. split; [exact Hnd|]. split; [|apply NoDup_singleton].
        intros x Hx Hx'. apply list_elem_of_singleton in Hx'. subst x.
        apply Hfresh, Hset. exact Hx.
      - intros k. rewrite elem_of_union, elem_of_singleton, elem_of_app,
          list_elem_of_singleton, Hset. tauto.
      - rewrite elem_of_app, list_elem_of_singleton. intros [H|H]; [contradiction|].
        apply Hk. symmetry. exact H. }
    fold pruned in Horder, Hwf'.
    split; [exact Horder|]. split; [exact Hwf'|]. split.
    - rewrite Horder. apply slice_last_length.
    - intros Hsize. destruct Hwf' as (_ & Hset' & _). apply Hset'. rewrite Horder.
      unfold Js.slice_last. rewrite drop_app_le by (rewrite length_app; simpl; lia).
      apply elem_of_app. right. apply list_elem_of_singleton. reflexivity. }
  unfold room in *. unfold hasSeenMessage.
  destruct (seenByRoom !! roomId) as [r|] eqn:Hroom; simpl in *.
  - split; [intros Hin; rewrite (bool_decide_eq_true_2 _ Hin); reflexivity|].
    split.
    + intros Hfresh. rewrite (bool_decide_eq_false_2 _ Hfresh).
      destruct (Hnew Hfresh) as (H1 & H2 & H3 & H4).
      eexists. rewrite lookup_insert_eq. split; [reflexivity|].
      split; [exact H1|]. split; [exact H2|]. split; [exact H3|].
      intros Hsize. apply bool_decide_eq_true_2. apply H4. exact Hsize.
    + intros Hne. destruct (bool_decide (key ∈ seen_set r)); [reflexivity|].
      apply lookup_insert_ne. congruence.
  - split; [intros Hin; apply not_elem_of_empty in Hin; contradiction|].
    split.
    + intros Hfresh. rewrite (bool_decide_eq_false_2 _ Hfresh).
      destruct (Hnew Hfresh) as (H1 & H2 & H3 & H4).
      eexists. rewrite lookup_insert_eq. split; [reflexivity|].
      split; [exact H1|]. split; [exact H2|]. split; [exact H3|].
      intros Hsize. apply bool_decide_eq_true_2. apply H4. exact Hsize.
    + intros Hne. rewrite bool_decide_eq_false_2 by apply not_elem_of_empty.
      rewrite !lookup_insert_ne by congruence. reflexivity.
Qed.

Lemma markSeenMessage_window_witness :
  exists room',
    markSeenMessage ∅ "R1" "m1" 2 !! "R1" = Some room' /\
    seen_order room' = ["m1"] /\
    hasSeenMessage (markSeenMessage ∅ "R1" "m1" 2) "R1" "m1" = true.
Proof.
  destruct (markSeenMessage_window ∅ "R1" "m1" "R2" 2) as (_ & H & _).
  - discriminate.
  - discriminate.
  - rewrite lookup_empty. simpl. split; [apply NoDup_nil_2|]. split.
    + intros k. simpl. split; intros Hk; [apply not_elem_of_empty in Hk|inversion Hk];
        contradiction.
    + simpl. intros Hk. inversion Hk.
  - destruct H as (room' & H1 & H2 & _ & _ & H5).
    + rewrite lookup_empty. simpl. apply not_elem_of_empty.
    + exists room'. split; [exact H1|]. split; [|apply H5; lia].
      rewrite H2, lookup_empty. reflexivity.
Defined.

Lemma pruneOutgoing_split (entries : list Outgoing) (ttlMs now : Z) :
  exists dropped,
    entries = (dropped ++ pruneOutgoing entries ttlMs now)%list /\
    Forall (fun e => og_ts e < now - ttlMs) dropped.
Proof.
  induction entries as [|e entries (dropped & Hsplit & Hold)]; simpl.
  - exists []. split; [reflexivity|constructor].
  - destruct (Z.ltb_spec (og_ts e) (now - ttlMs)) as [Hlt|Hge].
    + exists (e :: dropped). split; [simpl; rewrite <- Hsplit; reflexivity|].
      constructor; assumption.
    + exists []. split; [reflexivity|constructor].
Qed.

Lemma elem_of_pruneOutgoing (entries : list Outgoing) (ttlMs now : Z) (e : Outgoing) :
  e ∈ pruneOutgoing entries ttlMs now -> e ∈ entries.
Proof.
  destruct (pruneOutgoing_split entries ttlMs now) as (dropped & Hsplit & _).
  intros H. rewrite Hsplit. apply elem_of_app. right. exact H.
Qed.

Lemma pruneOutgoing_snoc_fresh (entries : list Outgoing) (ttlMs now : Z) (e : Outgoing) :
  now - ttlMs <= og_ts e ->
  pruneOutgoing (entries ++ [e]) ttlMs now = (pruneOutgoing entries ttlMs now ++ [e])%list.
Proof.
  intros He. induction entries as [|x entries IH]; simpl.
  - destruct (Z.ltb_spec (og_ts e) (now - ttlMs)); [lia|reflexivity].
  - destruct (Z.ltb (og_ts x) (now - ttlMs)); [exact IH|reflexivity].
Qed.

(** [pruneOutgoing] cuts a leading run of entries, all of them older than the
    window, and stops at the first entry inside it; of a list in the order
    of its timestamps it leaves exactly the entries inside the window. *)
Theorem pruneOutgoing_drops_only_expired (entries : list Outgoing) (ttlMs now : Z) :
  (exists dropped,
     entries = (dropped ++ pruneOutgoing entries ttlMs now)%list /\
     Forall (fun e => og_ts e < now - ttlMs) dropped) /\
  (forall e rest, pruneOutgoing entries ttlMs now = e :: rest -> now - ttlMs <= og_ts e) /\
  (StronglySorted (fun a b => og_ts a <= og_ts b) entries ->
   Forall (fun e => now - ttlMs <= og_ts e) (pruneOutgoing entries ttlMs now)).
Proof.
  split; [apply pruneOutgoing_split|]. split.
  - induction entries as [|x entries IH]; simpl; intros e rest H; [discriminate|].
    destruct (Z.ltb_spec (og_ts x) (now - ttlMs)) as [Hlt|Hge]; [eapply IH; exact H|].
    injection H as <- _. exact Hge.
  - induction entries as [|x entries IH]; simpl; intros Hs; [constructor|].
    apply StronglySorted_inv in Hs as [Hs Hx].
    destruct (Z.ltb_spec (og_ts x) (now - ttlMs)) as [Hlt|Hge]; [apply IH; exact Hs|].
    constructor; [exact Hge|].
    eapply Forall_impl; [exact Hx|]. simpl. intros y Hy. lia.
Qed.

Lemma pruneOutgoing_drops_only_expired_witness :
  Forall (fun e => 5000 - 1000 <= og_ts e)
    (pruneOutgoing
       [ {| og_hash := "1"; og_text := "a"; og_agentId := "main"; og_ts := 3000 |};
         {| og_hash := "2"; og_text := "b"; og_agentId := "main"; og_ts := 4500 |} ]
       1000 5000).
Proof.
  apply (proj2 (proj2 (pruneOutgoing_drops_only_expired
    [ {| og_hash := "1"; og_text := "a"; og_agentId := "main"; og_ts := 3000 |};
      {| og_hash := "2"; og_text := "b"; og_agentId := "main"; og_ts := 4500 |} ]
    1000 5000))).
  repeat constructor. simpl. lia.
Defined.

(** An outgoing text is matched as an echo once: after [recordOutgoing] (no
    older entry of the room having the same hash), [detectOutgoingEcho]
    inside the window names the recording agent and removes the entry, and a
    second detection of the same text finds nothing. *)
Theorem outgoing_echo_matched_once
    (outgoingByRoom : gmap string (list Outgoing)) (roomId text agentId : string)
    (sentAt now windowSeconds now2 windowSeconds2 : Z) :
  roomId <> EmptyString -> text <> EmptyString -> agentId <> EmptyString ->
  (forall e, e ∈ default [] (outgoingByRoom !! roomId) -> og_hash e <> textHash text) ->
  now - Z.max 1000 (windowSeconds * 1000) <= sentAt ->
  let recorded := recordOutgoing outgoingByRoom roomId text agentId sentAt in
  let first := detectOutgoingEcho recorded roomId text now windowSeconds in
  let second := detectOutgoingEcho (snd first) roomId text now2 windowSeconds2 in
  fst first = Some agentId /\
  (forall e, e ∈ default [] (snd first !! roomId) -> og_hash e <> textHash text) /\
  fst second = None.
Proof.
  intros Hr Ht Ha Hfresh Hwin recorded first second.
  set (old := default [] (outgoingByRoom !! roomId)) in *.
  set (entry := {| og_hash := textHash text; og_text := text; og_agentId := agentId;
                   og_ts := sentAt |}).
  set (ttl := Z.max 1000 (windowSeconds * 1000)) in *.
  set (kept := pruneOutgoing old ttl now).
  assert (Hrec : recorded !! roomId = Some (old ++ [entry])%list).
  { unfold recorded, recordOutgoing. rewrite (truthy_true _ Hr), (truthy_true _ Ht). simpl.
    apply lookup_insert_eq. }
  assert (Hkept : forall e, e ∈ kept -> og_hash e <> textHash text).
  { intros e He. apply Hfresh. eapply elem_of_pruneOutgoing. exact He. }
  assert (Hfirst : first = (Some agentId, <[roomId := kept]> recorded)).
  { unfold first, detectOutgoingEcho. rewrite Hrec.
    rewrite length_app. simpl. replace (length old + 1 =? 0)%nat with false
      by (symmetry; apply Nat.eqb_neq; lia).
    fold ttl. rewrite (pruneOutgoing_snoc_fresh old ttl now entry Hwin). fold kept.
    rewrite (findIndex_first _ kept [] entry).
    - rewrite lookup_app_r by lia. rewrite Nat.sub_diag. simpl.
      rewrite (truthy_true _ Ha).
      replace (delete (length kept) (kept ++ [entry])%list) with kept; [reflexivity|].
      clear. induction kept as [|x kept IH]; simpl; [reflexivity|].
      f_equal. exact IH.
    - intros y Hy. apply String.eqb_neq. apply Hkept. exact Hy.
    - apply String.eqb_refl. }
  rewrite Hfirst. simpl.
  split; [reflexivity|]. split.
  { rewrite lookup_insert_eq. simpl. exact Hkept. }
  unfold second. rewrite Hfirst. simpl. unfold detectOutgoingEcho.
  rewrite lookup_insert_eq.
  destruct (Nat.eqb (length kept) 0); [reflexivity|].
  rewrite findIndex_none; [reflexivity|].
  intros y Hy. apply String.eqb_neq. apply Hkept. eapply elem_of_pruneOutgoing. exact Hy.
Qed.

Lemma outgoing_echo_matched_once_witness :
  let recorded := recordOutgoing ∅ "R1" "on it" "builder" 10000 in
  let first := detectOutgoingEcho recorded "R1" "on it" 12000 30 in
  fst first = Some "builder" /\
  fst (detectOutgoingEcho (snd first) "R1" "on it" 12500 30) = None.
Proof.
  cbv zeta.
  destruct (outgoing_echo_matched_once ∅ "R1" "on it" "builder" 10000 12000 30 12500 30)
    as (H1 & _ & H3).
  - discriminate.
  - discriminate.
  - discriminate.
  - intros e He. rewrite lookup_empty in He. inversion He.
  - vm_compute. discriminate.
  - split; [exact H1|exact H3].
Defined.

(** A binding of an agent to a room lasts [max(30000, ttlMs)] ms and never
    less than 30 s (900 s when no TTL is given): until then
    [resolveAgentRoom] names the room and changes nothing, afterwards it
    answers the empty string and drops the binding for good; a cleared
    binding resolves to the empty string. *)
Theorem agent_room_binding_lifetime
    (agentRoomContext : gmap string AgentRoom) (agentId roomId : string)
    (now later : Z) (ttlMs : option Z) :
  agentId <> EmptyString -> roomId <> EmptyString ->
  let bound := bindAgentRoom agentRoomContext agentId roomId now ttlMs in
  let ttl := Z.max 30000 (Js.num_or ttlMs 900000) in
  (later <= now + ttl -> resolveAgentRoom bound agentId later = (roomId, bound)) /\
  (now + ttl < later ->
   resolveAgentRoom bound agentId later = (EmptyString, delete agentId bound) /\
   forall t, fst (resolveAgentRoom (delete agentId bound) agentId t) = EmptyString) /\
  (later <= now + 30000 -> fst (resolveAgentRoom bound agentId later) = roomId) /\
  fst (resolveAgentRoom (clearAgentRoom bound agentId) agentId later) = EmptyString.
Proof.
  intros Ha Hr bound ttl.
  assert (Hb : bound !! agentId
               = Some {| ar_roomId := roomId; ar_expiresAt := now + ttl; ar_updatedAt := now |}).
  { unfold bound, bindAgentRoom. rewrite (truthy_true _ Ha), (truthy_true _ Hr). simpl.
    apply lookup_insert_eq. }
  assert (Hlive : later <= now + ttl -> resolveAgentRoom bound agentId later = (roomId, bound)).
  { intros H. unfold resolveAgentRoom. rewrite (truthy_true _ Ha), Hb. simpl.
    destruct (Z.gtb_spec later (now + ttl)); [lia|]. rewrite or_else_empty. reflexivity. }
  assert (Hgone : forall m t, m !! agentId = None ->
            fst (resolveAgentRoom m agentId t) = EmptyString).
  { intros m t Hm. unfold resolveAgentRoom. rewrite (truthy_true _ Ha), Hm. reflexivity. }
  split; [exact Hlive|]. split.
  { intros H. split.
    - unfold resolveAgentRoom. rewrite (truthy_true _ Ha), Hb. simpl.
      destruct (Z.gtb_spec later (now + ttl)); [reflexivity|lia].
    - intros t. apply Hgone. apply lookup_delete_eq. }
  split.
  { intros H. rewrite Hlive; [reflexivity|]. unfold ttl. lia. }
  apply Hgone. unfold clearAgentRoom. rewrite (truthy_true _ Ha). apply lookup_delete_eq.
Qed.

Lemma agent_room_binding_lifetime_witness :
  resolveAgentRoom (bindAgentRoom ∅ "builder" "oc_1" 1000 (Some 5)) "builder" 31000
  = ("oc_1", bindAgentRoom ∅ "builder" "oc_1" 1000 (Some 5)).
Proof.
  apply (proj1 (agent_room_binding_lifetime ∅ "builder" "oc_1" 1000 31000 (Some 5)
                  ltac:(discriminate) ltac:(discriminate))).
  vm_compute. discriminate.
Defined.

(** A text just recorded counts as recent for [hasRecentOutgoing] while less
    than the window has passed, and always during the first second, the
    window being at least 1 s (30 s when none, or 0, is given); asking
    consumes nothing, the function only reads the map. *)
Theorem hasRecentOutgoing_after_record
    (outgoingByRoom : gmap string (list Outgoing)) (roomId text agentId : string)
    (sentAt now : Z) (windowSeconds : option Z) :
  roomId <> EmptyString -> text <> EmptyString ->
  let recorded := recordOutgoing outgoingByRoom roomId text agentId sentAt in
  (now - sentAt < Z.max 1000 (Js.num_or windowSeconds 30 * 1000) ->
   hasRecentOutgoing recorded roomId text now windowSeconds = true) /\
  (now - sentAt < 1000 -> hasRecentOutgoing recorded roomId text now windowSeconds = true).
Proof.
  intros Hr Ht recorded.
  assert (H : now - sentAt < Z.max 1000 (Js.num_or windowSeconds 30 * 1000) ->
              hasRecentOutgoing recorded roomId text now windowSeconds = true).
  { intros Hwin. unfold recorded, recordOutgoing, hasRecentOutgoing.
    rewrite (truthy_true _ Hr), (truthy_true _ Ht). simpl.
    rewrite lookup_insert_eq, length_app. simpl.
    replace (length (default [] (outgoingByRoom !! roomId)) + 1 =? 0)%nat with false
      by (symmetry; apply Nat.eqb_neq; lia).
    rewrite existsb_app. apply orb_true_iff. right. simpl.
    rewrite String.eqb_refl. simpl.
    rewrite orb_false_r. apply Z.ltb_lt. exact Hwin. }
  split; [exact H|]. intros Hsec. apply H. lia.
Qed.

Lemma hasRecentOutgoing_after_record_witness :
  hasRecentOutgoing (recordOutgoing ∅ "R1" "on it" "builder" 10000) "R1" "on it" 39999 None
  = true.
Proof.
  apply (proj1 (hasRecentOutgoing_after_record ∅ "R1" "on it" "builder" 10000 39999 None
                  ltac:(discriminate) ltac:(discriminate))).
  vm_compute. reflexivity.
Defined.

End StateExtras.

(** ** Forward targets and number clamping: further properties *)

Section RuntimeExtras.

Lemma dedupeFrom_cons (seen : gset string) (item : string) (rest : list string) :
  dedupeFrom seen (item :: rest) =
  if negb (Js.truthy (Js.trim item)) || bool_decide (Js.trim item ∈ seen)
  then dedupeFrom seen rest
  else Js.trim item :: dedupeFrom ({[ Js.trim item ]} ∪ seen) rest.
Proof. reflexivity. Qed.

Lemma dedupeFrom_elem (seen : gset string) (items : list string) (t : string) :
  t ∈ dedupeFrom seen items <->
  t <> EmptyString /\ (t ∉ seen) /\ exists item, item ∈ items /\ Js.trim item = t.
Proof.
  revert seen. induction items as [|a rest IH]; intros seen.
  - simpl. split.
    + intros H. inversion H.
    + intros (_ & _ & item & H & _). inversion H.
  - rewrite dedupeFrom_cons.
    destruct (Js.truthy (Js.trim a)) eqn:Et; simpl.
    + case_bool_decide as Hin.
      * rewrite IH. split.
        -- intros (H1 & H2 & item & H3 & H4). repeat split; auto.
           exists item. split; [apply elem_of_cons; right; exact H3|exact H4].
        -- intros (H1 & H2 & item & H3 & H4). repeat split; auto.
           apply elem_of_cons in H3 as [->|H3]; [congruence|].
           exists item. split; assumption.
      * rewrite elem_of_cons, IH. split.
        -- intros [->|(H1 & H2 & item & H3 & H4)].
           ++ split; [intros E; rewrite E in Et; discriminate|]. split; [exact Hin|].
              exists a. split; [apply elem_of_cons; left; reflexivity|reflexivity].
           ++ split; [exact H1|].
              split; [intros Hs; apply H2; apply elem_of_union; right; exact Hs|].
              exists item. split; [apply elem_of_cons; right; exact H3|exact H4].
        -- intros (H1 & H2 & item & H3 & H4).
           destruct (decide (t = Js.trim a)) as [E|E]; [left; exact E|right].
           split; [exact H1|].
           split; [intros Hs; apply elem_of_union in Hs as [Hs|Hs];
                   [apply elem_of_singleton in Hs; contradiction|contradiction]|].
           apply elem_of_cons in H3 as [->|H3]; [congruence|].
           exists item. split; assumption.
    + rewrite IH. split.
      * intros (H1 & H2 & item & H3 & H4). repeat split; auto.
        exists item. split; [apply elem_of_cons; right; exact H3|exact H4].
      * intros (H1 & H2 & item & H3 & H4). repeat split; auto.
        apply elem_of_cons in H3 as [->|H3].
        -- apply truthy_false in Et. congruence.
        -- exists item. split; assumption.
Qed.

Lemma dedupeFrom_NoDup (seen : gset string) (items : list string) :
  NoDup (dedupeFrom seen items).
Proof.
  revert seen. induction items as [|a rest IH]; intros seen; [constructor|].
  rewrite dedupeFrom_cons.
  destruct (negb (Js.truthy (Js.trim a)) || bool_decide (Js.trim a ∈ seen)); [apply IH|].
  apply NoDup_cons. split; [|apply IH].
  rewrite dedupeFrom_elem. intros (_ & H & _). apply H.
  apply elem_of_union. left. apply elem_of_singleton. reflexivity.
Qed.

Lemma dedupeFrom_sublist (seen : gset string) (items : list string) :
  sublist (dedupeFrom seen items) (Js.trim <$> items).
Proof.
  revert seen. induction items as [|a rest IH]; intros seen; [constructor|].
  rewrite dedupeFrom_cons, fmap_cons.
  destruct (negb (Js.truthy (Js.trim a)) || bool_decide (Js.trim a ∈ seen));
    [apply sublist_cons|apply sublist_skip]; apply IH.
Qed.

Lemma dedupeFrom_fixed (seen : gset string) (items : list string) :
  NoDup items ->
  (forall x, x ∈ items -> x <> EmptyString /\ Js.trim x = x /\ x ∉ seen) ->
  dedupeFrom seen items = items.
Proof.
  revert seen. induction items as [|a rest IH]; intros seen Hnd Hall; [reflexivity|].
  apply NoDup_cons in Hnd as [Ha Hnd].
  destruct (Hall a) as (Hne & Htrim & Hseen); [apply elem_of_cons; left; reflexivity|].
  rewrite dedupeFrom_cons, Htrim, (truthy_true _ Hne). simpl.
  rewrite bool_decide_eq_false_2 by exact Hseen.
  f_equal. apply IH; [exact Hnd|].
  intros x Hx. destruct (Hall x) as (H1 & H2 & H3); [apply elem_of_cons; right; exact Hx|].
  split; [exact H1|]. split; [exact H2|].
  intros Hin. apply elem_of_union in Hin as [Hin|Hin]; [|exact (H3 Hin)].
  apply elem_of_singleton in Hin. subst x. exact (Ha Hx).
Qed.

Lemma dedupe_trimmed (items : list string) (t : string) :
  t ∈ dedupe items -> t <> EmptyString /\ Js.trim t = t.
Proof.
  unfold dedupe. rewrite dedupeFrom_elem. intros (H1 & _ & item & _ & H2).
  split; [exact H1|]. rewrite <- H2. apply trim_idem.
Qed.

Lemma dedupe_fixed (items : list string) :
  NoDup items -> (forall x, x ∈ items -> x <> EmptyString /\ Js.trim x = x) ->
  dedupe items = items.
Proof.
  intros Hnd Hall. apply dedupeFrom_fixed; [exact Hnd|].
  intros x Hx. destruct (Hall x Hx) as [H1 H2].
  split; [exact H1|]. split; [exact H2|]. apply not_elem_of_empty.
Qed.

Lemma withoutSource_sublist (room : ForwardRoom) (sourceAgent : string)
    (targets : list string) :
  sublist (withoutSource room sourceAgent targets) targets.
Proof.
  unfold withoutSource.
  destruct (negb (includeSourceAgent room) && Js.truthy sourceAgent);
    [apply filter_sublist|reflexivity].
Qed.

Lemma withoutSource_excludes (room : ForwardRoom) (sourceAgent : string)
    (targets : list string) :
  includeSourceAgent room = false -> sourceAgent <> EmptyString ->
  sourceAgent ∉ withoutSource room sourceAgent targets.
Proof.
  intros Hinc Hsrc. unfold withoutSource. rewrite Hinc, (truthy_true _ Hsrc). simpl.
  rewrite elem_of_filter_bool. intros [_ H].
  rewrite String.eqb_refl in H. discriminate.
Qed.

Lemma trim_padded (s : string) : Js.trim (" " +:+ s) = Js.trim s.
Proof. reflexivity. Qed.

(** [dedupe] (and [uniqueStrings], the same loop) answers the trimmed,
    non-empty texts of its input, each once, in the order of their first
    occurrence; running it again changes nothing. *)
Theorem dedupe_spec (items : list string) :
  NoDup (dedupe items) /\
  (forall t, t ∈ dedupe items <->
             t <> EmptyString /\ exists item, item ∈ items /\ asString (Some item) = t) /\
  sublist (dedupe items) (Js.trim <$> items) /\
  dedupe (dedupe items) = dedupe items.
Proof.
  split; [apply dedupeFrom_NoDup|]. split.
  { intros t. unfold dedupe. rewrite dedupeFrom_elem. simpl. split.
    - intros (H1 & _ & H2). split; assumption.
    - intros (H1 & H2). split; [exact H1|]. split; [apply not_elem_of_empty|exact H2]. }
  split; [apply dedupeFrom_sublist|].
  apply dedupe_fixed; [apply dedupeFrom_NoDup|apply dedupe_trimmed].
Qed.

(** The forward targets are trimmed, non-empty agent ids, each once; every
    one of them is a mentioned agent or a member of the room, in mode
    [mentions-only] a mentioned agent and in mode [all-members] a member; and
    unless the room includes the source agent, a non-empty source agent is
    never among them. *)
Theorem resolveForwardTargets_spec (room : ForwardRoom) (mentionedAgents : list string)
    (sourceAgent : string) :
  let targets := resolveForwardTargets room mentionedAgents sourceAgent in
  NoDup targets /\
  (forall t, t ∈ targets ->
     t <> EmptyString /\ Js.trim t = t /\
     exists item, item ∈ (mentionedAgents ++ memberAgents room)%list /\ Js.trim item = t) /\
  (forwardMode room = "mentions-only" ->
   forall t, t ∈ targets -> exists item, item ∈ mentionedAgents /\ Js.trim item = t) /\
  (forwardMode room = "all-members" ->
   forall t, t ∈ targets -> exists item, item ∈ memberAgents room /\ Js.trim item = t) /\
  (includeSourceAgent room = false -> sourceAgent <> EmptyString -> sourceAgent ∉ targets).
Proof.
  intros targets. unfold targets, resolveForwardTargets.
  set (chosen := if String.eqb (forwardMode room) "mentions-only" then mentionedAgents
                 else if String.eqb (forwardMode room) "all-members" then memberAgents room
                 else if Nat.ltb 0 (length mentionedAgents) then mentionedAgents
                 else memberAgents room).
  assert (Hsub : forall t, t ∈ withoutSource room sourceAgent (dedupe chosen) ->
                           t ∈ dedupe chosen).
  { intros t Ht. eapply elem_of_sublist; [exact Ht|apply withoutSource_sublist]. }
  assert (Hfrom : forall t, t ∈ dedupe chosen -> exists item, item ∈ chosen /\ Js.trim item = t).
  { intros t Ht. unfold dedupe in Ht. apply dedupeFrom_elem in Ht as (_ & _ & H). exact H. }
  split.
  { eapply sublist_NoDup; [apply dedupeFrom_NoDup|apply withoutSource_sublist]. }
  split.
  { intros t Ht. apply Hsub in Ht. destruct (dedupe_trimmed _ _ Ht) as [H1 H2].
    split; [exact H1|]. split; [exact H2|].
    destruct (Hfrom t Ht) as (item & Hin & Htrim). exists item. split; [|exact Htrim].
    apply elem_of_app. unfold chosen in Hin.
    destruct (String.eqb (forwardMode room) "mentions-only"); [left; exact Hin|].
    destruct (String.eqb (forwardMode room) "all-members"); [right; exact Hin|].
    destruct (Nat.ltb 0 (length mentionedAgents)); [left|right]; exact Hin. }
  split.
  { intros Hmode t Ht. apply Hsub, Hfrom in Ht. unfold chosen in Ht.
    rewrite Hmode in Ht. exact Ht. }
  split.
  { intros Hmode t Ht. apply Hsub, Hfrom in Ht. unfold chosen in Ht.
    rewrite Hmode in Ht. exact Ht. }
  apply withoutSource_excludes.
Qed.

Lemma resolveForwardTargets_spec_witness :
  "main" ∉ resolveForwardTargets
    {| forwardMode := "all-members"; memberAgents := ["main"; " builder "; "main"];
       includeSourceAgent := false; autopilotTrigger := "any" |}
    ["reviewer"] "main".
Proof.
  apply (proj2 (proj2 (proj2 (proj2 (resolveForwardTargets_spec
    {| forwardMode := "all-members"; memberAgents := ["main"; " builder "; "main"];
       includeSourceAgent := false; autopilotTrigger := "any" |}
    ["reviewer"] "main"))))).
  - reflexivity.
  - discriminate.
Defined.

(** The autopilot targets are trimmed, non-empty agent ids, each once.
    Unless the room includes the source agent, a non-empty source agent is
    not among them when the targets come from the mentions (the trigger is
    [mentions-only] or an agent is mentioned) or when the member ids of the
    room carry no outer white space. *)
Theorem resolveAutopilotTargets_excludes_source (room : ForwardRoom)
    (mentionedAgents : list string) (sourceAgent : string) :
  includeSourceAgent room = false -> sourceAgent <> EmptyString ->
  autopilotTrigger room = "mentions-only" \/ dedupe mentionedAgents <> [] \/
    Forall (fun m => Js.trim m = m) (memberAgents room) ->
  let targets := resolveAutopilotTargets room mentionedAgents sourceAgent in
  NoDup targets /\
  (forall t, t ∈ targets -> t <> EmptyString /\ Js.trim t = t) /\
  sourceAgent ∉ targets.
Proof.
  intros Hinc Hsrc Hfrom targets. unfold targets, resolveAutopilotTargets.
  set (chosen := if String.eqb (autopilotTrigger room) "mentions-only"
                 then dedupe mentionedAgents
                 else if Nat.ltb 0 (length (dedupe mentionedAgents))
                      then dedupe mentionedAgents else memberAgents room).
  split; [apply dedupeFrom_NoDup|]. split; [apply dedupe_trimmed|].
  assert (Hchosen : Forall (fun m => Js.trim m = m) chosen).
  { assert (Hm : Forall (fun m => Js.trim m = m) (dedupe mentionedAgents)).
    { apply Forall_forall. intros m Hm. apply (dedupe_trimmed mentionedAgents m Hm). }
    unfold chosen. destruct (String.eqb_spec (autopilotTrigger room) "mentions-only") as [E|E];
      [exact Hm|].
    destruct (dedupe mentionedAgents) as [|m ms] eqn:Em; simpl; [|exact Hm].
    destruct Hfrom as [H|[H|H]]; [contradiction|contradiction|exact H]. }
  unfold dedupe at 1. rewrite dedupeFrom_elem. intros (_ & _ & item & Hin & Htrim).
  assert (Hitem : item ∈ chosen).
  { eapply elem_of_sublist; [exact Hin|apply withoutSource_sublist]. }
  rewrite (proj1 (Forall_forall _ _) Hchosen item Hitem) in Htrim. subst item.
  exact (withoutSource_excludes room sourceAgent chosen Hinc Hsrc Hin).
Qed.

Lemma resolveAutopilotTargets_excludes_source_witness :
  "main" ∉ resolveAutopilotTargets
    {| forwardMode := "all-members"; memberAgents := ["main"; "builder"];
       includeSourceAgent := false; autopilotTrigger := "any" |}
    [] "main".
Proof.
  apply (resolveAutopilotTargets_excludes_source
    {| forwardMode := "all-members"; memberAgents := ["main"; "builder"];
       includeSourceAgent := false; autopilotTrigger := "any" |}
    [] "main").
  - reflexivity.
  - discriminate.
  - right. right. repeat constructor.
Defined.

(** The source agent is filtered out by comparing with the ids as the room
    lists them, before [dedupe] trims them: when nobody is mentioned and the
    trigger is not [mentions-only], a member id that is the source agent's
    with a space in front passes the filter, so the source agent is an
    autopilot target although the room does not include it. *)
Theorem resolveAutopilotTargets_padded_member (room : ForwardRoom) (sourceAgent : string) :
  includeSourceAgent room = false ->
  autopilotTrigger room <> "mentions-only" ->
  sourceAgent <> EmptyString -> Js.trim sourceAgent = sourceAgent ->
  (" " +:+ sourceAgent) ∈ memberAgents room ->
  sourceAgent ∈ resolveAutopilotTargets room [] sourceAgent.
Proof.
  intros Hinc Htrig Hsrc Htrim Hmem. unfold resolveAutopilotTargets.
  destruct (String.eqb_spec (autopilotTrigger room) "mentions-only") as [E|_];
    [contradiction|].
  simpl. unfold dedupe. rewrite dedupeFrom_elem.
  split; [exact Hsrc|]. split; [apply not_elem_of_empty|].
  exists (" " +:+ sourceAgent). split; [|rewrite trim_padded; exact Htrim].
  unfold withoutSource. rewrite Hinc, (truthy_true _ Hsrc). simpl.
  apply elem_of_filter_bool. split; [exact Hmem|].
  apply negb_true_iff, String.eqb_neq. intros Heq.
  change (" " +:+ sourceAgent) with (String " " sourceAgent) in Heq.
  apply (f_equal String.length) in Heq. simpl in Heq. lia.
Qed.

Lemma resolveAutopilotTargets_padded_member_witness :
  "main" ∈ resolveAutopilotTargets
    {| forwardMode := "all-members"; memberAgents := ["builder"; " main"];
       includeSourceAgent := false; autopilotTrigger := "any" |}
    [] "main".
Proof.
  apply (resolveAutopilotTargets_padded_member
    {| forwardMode := "all-members"; memberAgents := ["builder"; " main"];
       includeSourceAgent := false; autopilotTrigger := "any" |} "main").
  - reflexivity.
  - discriminate.
  - discriminate.
  - reflexivity.
  - simpl. apply elem_of_cons. right. apply elem_of_cons. left. reflexivity.
Defined.

(** With [min <= max], [clampInt] of a finite number lies in [min, max], is
    the number cut to an integer towards zero when that lies in the range,
    and is kept by a second clamping; a value that is not a finite number
    gives the fallback as it is, also outside the range. *)
Theorem clampInt_range (num : Z) (den : positive) (fallback min max : Z) :
  min <= max ->
  let r := clampInt (Some (num, den)) fallback min max in
  min <= r <= max /\
  (min <= Z.quot num (Z.pos den) <= max -> r = Z.quot num (Z.pos den)) /\
  clampInt (Some (r, 1%positive)) fallback min max = r /\
  clampInt None fallback min max = fallback.
Proof.
  intros Hle r. unfold r, clampInt.
  set (n := Z.quot num (Z.pos den)).
  destruct (Z.ltb_spec n min) as [H1|H1].
  - rewrite Z.quot_1_r. destruct (Z.ltb_spec min min); [lia|].
    destruct (Z.gtb_spec min max); [lia|]. repeat split; lia.
  - destruct (Z.gtb_spec n max) as [H2|H2].
    + rewrite Z.quot_1_r. destruct (Z.ltb_spec max min); [lia|].
      destruct (Z.gtb_spec max max); [lia|]. repeat split; lia.
    + rewrite Z.quot_1_r. destruct (Z.ltb_spec n min); [lia|].
      destruct (Z.gtb_spec n max); [lia|]. repeat split; lia.
Qed.

Lemma clampInt_range_witness :
  1 <= clampInt (Some (-7, 2%positive)) 4 1 20 <= 20.
Proof.
  apply (clampInt_range (-7) 2 4 1 20). lia.
Defined.

End RuntimeExtras.
